(** * AeroVECTOR: the aerodynamic core of [rocket_functions.py]

    A shallow embedding of the classes [Airfoil], [Fin] and [Rocket] and the
    properties of their methods.

    Numbers.  The program computes with IEEE binary64 floats; here they are
    idealised as real numbers ([R]), so rounding is not modelled.  NumPy's
    [sin], [cos], [arctan], [sqrt], [log] and [power] are the corresponding
    real functions.  Objects are records, [self.f = v] is the setter [set_f]
    ([assign_motor] for [motor], as [set_motor] is a method), and every
    method takes the object and returns the updated one.

    Failure.  A method returns a [result]: [Ok] with its value, or [Raise]
    with the Python exception that leaves it.  Division of two Python floats
    by zero raises [ZeroDivisionError].  A NumPy scalar operation whose IEEE
    result is not a finite number (division by zero, square root or logarithm
    of a negative number) does not raise: NumPy warns and yields [nan] or
    [inf].  The reals have neither, so the model stops there with
    [Raise NumpyInvalid], unless the next statement overwrites the value
    (the slope of an airfoil with [use_2pi]). *)

From Stdlib Require Import Reals Lra Lia List String Sorted.
From stdpp Require Import list.
#[local] Open Scope R_scope.

(** ** Exceptions and results *)

Inductive exn : Set :=
  | ZeroDivisionError
  | IndexError
  | ValueError
  | UnboundLocalError
  | TypeError
  | NumpyInvalid.

Inductive result (A : Type) : Type :=
  | Ok (a : A)
  | Raise (e : exn).

Arguments Ok {A} a.
Arguments Raise {A} e.

Definition bind {A B : Type} (m : result A) (k : A -> result B) : result B :=
  match m with
  | Ok a => k a
  | Raise e => Raise e
  end.

Notation "x <- m ;; k" := (bind m (fun x => k))
  (at level 100, m at next level, right associativity).

(** [for i in range(n): body], threading the state through the iterations. *)
Fixpoint for_loop {S : Type} (idx : list nat)
    (body : nat -> S -> result S) (s : S) : result S :=
  match idx with
  | [] => Ok s
  | i :: rest => s' <- body i s ;; for_loop rest body s'
  end.

Definition for_range {S : Type} (n : nat) (body : nat -> S -> result S)
    (s : S) : result S :=
  for_loop (seq 0 n) body s.

(** ** Python lists and numbers *)

(** [l[i]] for a non-negative [i]. *)
Definition py_get {A : Type} (l : list A) (i : nat) : result A :=
  match l !! i with
  | Some a => Ok a
  | None => Raise IndexError
  end.

(** [l[i] = v] for a non-negative [i]. *)
Definition py_set {A : Type} (l : list A) (i : nat) (v : A) : result (list A) :=
  if (i <? List.length l)%nat then Ok (<[i := v]> l) else Raise IndexError.

(** [l[-1]]. *)
Definition py_last {A : Type} (l : list A) : result A :=
  match last l with
  | Some a => Ok a
  | None => Raise IndexError
  end.

(** [a / b] on Python floats. *)
Definition py_div (a b : R) : result R :=
  if Req_dec_T b 0 then Raise ZeroDivisionError else Ok (a / b).

(** A Python number that may have left the reals: a negative float raised
    to a fractional power is a [complex]. *)
Inductive pynum : Type :=
  | PyFloat (r : R)
  | PyComplex.

(** [a ** b] on Python floats. *)
Definition py_pow (a b : R) : result pynum :=
  if Rlt_dec 0 a then Ok (PyFloat (Rpower a b))
  else if Req_dec_T a 0 then
    (if Rlt_dec b 0 then Raise ZeroDivisionError
     else Ok (PyFloat (if Req_dec_T b 0 then 1 else 0)))
  else if Req_dec_T b (IZR (Int_part b)) then
    Ok (PyFloat (powerRZ a (Int_part b)))
  else Ok PyComplex.

(** ** NumPy scalars *)

(** [a / b] when an operand is a NumPy float. *)
Definition np_div (a b : R) : result R :=
  if Req_dec_T b 0 then Raise NumpyInvalid else Ok (a / b).

Definition np_sqrt (a : R) : result R :=
  if Rlt_dec a 0 then Raise NumpyInvalid else Ok (sqrt a).

Definition np_log (a : R) : result R :=
  if Rlt_dec 0 a then Ok (ln a) else Raise NumpyInvalid.

(** [np.power(a, b)] for a positive exponent [b]. *)
Definition np_power (a b : R) : result R :=
  if Rlt_dec 0 a then Ok (Rpower a b)
  else if Req_dec_T a 0 then Ok 0
  else Raise NumpyInvalid.

(** [np.interp(x, xp, fp)]: the piecewise-linear interpolant through the
    points [(xp[j], fp[j])], for [xp] increasing, constant outside
    [xp[0], xp[-1]].  [interp_scan] walks the samples from the segment that
    starts at [(x0, f0)]. *)
Fixpoint interp_scan (x x0 f0 : R) (xp fp : list R) : R :=
  match xp, fp with
  | x1 :: xp', f1 :: fp' =>
      if Rlt_dec x x1 then (f1 - f0) / (x1 - x0) * (x - x0) + f0
      else interp_scan x x1 f1 xp' fp'
  | _, _ => f0
  end.

Definition np_interp (x : R) (xp fp : list R) : result R :=
  match xp, fp with
  | x0 :: xp', f0 :: fp' =>
      if (List.length xp' =? List.length fp')%nat then
        Ok (if Rlt_dec x x0 then f0 else interp_scan x x0 f0 xp' fp')
      else Raise ValueError
  | _, _ => Raise ValueError
  end.

(** Builds [fun v x => mk (f1 x) .. v .. (fn x)] from the eta-expansion of a
    record's constructor: the setter of the field [proj]. *)
Ltac make_setter eta proj :=
  let v := fresh "v" in
  let x := fresh "x" in
  intros v x;
  let body := eval cbv delta [eta] beta in (eta x) in
  match eval pattern (proj x) in body with
  | ?f _ => let t := eval cbv beta in (f v) in exact t
  end.

Definition DEG2RAD : R := PI / 180.
Definition RAD2DEG : R := 1 / DEG2RAD.

(** ** class Airfoil *)

Module Airfoil.

Record t : Type := mk {
  use_2pi : bool;
  use_windtunel : bool;
  use_windtunnel_modified : bool;
  _sign : R;
  x : R;
  cl : R;
  cd : R;
  cn : R;
  ca : R;
  cn_alpha : R
}.

Definition eta (a : t) : t :=
  mk (use_2pi a) (use_windtunel a) (use_windtunnel_modified a) (_sign a)
     (x a) (cl a) (cd a) (cn a) (ca a) (cn_alpha a).

Definition set__sign : R -> t -> t := ltac:(make_setter eta _sign).
Definition set_x : R -> t -> t := ltac:(make_setter eta x).
Definition set_cl : R -> t -> t := ltac:(make_setter eta cl).
Definition set_cd : R -> t -> t := ltac:(make_setter eta cd).
Definition set_cn : R -> t -> t := ltac:(make_setter eta cn).
Definition set_ca : R -> t -> t := ltac:(make_setter eta ca).
Definition set_cn_alpha : R -> t -> t := ltac:(make_setter eta cn_alpha).

(** The tables of [__init__]; no method assigns them. *)
Definition aoa_cl : list R :=
  [0.0; 0.08386924860853417; 0.1620549165120595;
   0.25889438775510176; 0.4498044063079776; 0.62461094619666;
   0.7766831632653057; 0.9458061224489793; 1.1321255565862705;
   1.3189550556586267; 1.595045918367347; 1.846872263450835;
   2.0253221243042674; 2.2514994897959184; 2.4605532467532463;
   2.6914669294990725; 2.83479517625232; 2.98810612244898;
   3.105202458256029; 3.150015306122449].

Definition cl_list : list R :=
  [0.0; 0.5363636363636364; 0.781818181818182; 0.7;
   0.8818181818181818; 1.0727272727272728; 1.1; 1.0;
   0.7545454545454546; 0.44545454545454555; 0.0;
   -0.418181818181818; -0.6818181818181817; -0.9000000000000004;
   -0.9818181818181819; -0.790909090909091; -0.6727272727272728;
   -0.8000000000000003; -0.40909090909090917; 0.0].

Definition aoa_cl_modified : list R :=
  [0.0; 0.13658937500000003; 0.7249800000000002;
   0.9137768750000002; 1.0950218750000003; 1.57079;
   2.0239025; 2.4166; 2.937679375; 3.103820625].

Definition cl_list_modified : list R :=
  [0.0; 0.7739130434782606; 1.1043478260869564;
   1.026086956521739; 0.8086956521739128; 0.0;
   -0.7217391304347824; -0.991304347826087;
   -0.8086956521739128; -0.008695652173913215].

Definition aoa_cd : list R :=
  [0; 0.18521494914149783; 0.3982734933252401;
   0.7643841635684416; 1.10988734808282; 1.3509577689207464;
   1.5468165300174515; 1.7918205335344766; 1.960067086805354;
   2.1704261134642255; 2.359869138105717; 2.4862486286726804;
   2.668785095490799; 2.819614501925884; 2.9527883625749265;
   3.040406988525037; 3.1349532075000113; 3.1415972095888027].

Definition cd_list : list R :=
  [0.001; 0.11315179890472304; 0.3266637804448056;
   1.053982763006967; 1.5607557140498007; 1.7623865781756995;
   1.8074741244259172; 1.7606280656808881; 1.5891418548289915;
   1.3457262344177494; 1.0581157136927424; 0.8182796034866748;
   0.47852963361347545; 0.262866375366543; 0.13929739838341826;
   0.05557613600353495; 0.011970382007828295;
   0.0009187156610269724].

Definition __init__ : t :=
  {| use_2pi := false; use_windtunel := false; use_windtunnel_modified := true;
     _sign := 1; x := 0; cl := 0; cd := 0; cn := 0; ca := 0; cn_alpha := 0 |}.

Definition __sign_correction (aoa : R) : R :=
  if Rge_dec aoa 0 then 1 else -1.

Definition _calculate_cn_ca (aoa : R) (self : t) : result t :=
  let self := set__sign (__sign_correction aoa) self in
  let self := set_x (Rabs aoa) self in
  tables <-
    (if use_windtunel self then Ok (aoa_cl, cl_list)
     else if use_windtunnel_modified self
          then Ok (aoa_cl_modified, cl_list_modified)
          else Raise UnboundLocalError) ;;
  let '(aoa_list_interp, cl_list_interp) := tables in
  v <- np_interp (x self) aoa_list_interp cl_list_interp ;;
  let self := set_cl v self in
  v <- np_interp (x self) aoa_cd cd_list ;;
  let self := set_cd v self in
  let self :=
    set_cn (_sign self * (cl self * cos (x self) + cd self * sin (x self)))
      self in
  let self :=
    set_ca (- cl self * sin (x self) + cd self * cos (x self)) self in
  let self := set_cn (cn self) self in
  Ok self.

(** [self.cn / aoa] is stored first and, with [use_2pi], overwritten.  At
    [aoa = 0] the quotient is [nan] or [inf]: it stops the model where it
    stays in [cn_alpha], not where [2 * np.pi] replaces it. *)
Definition _calculate_cn_alpha (aoa : R) (self : t) : result t :=
  let quotient := np_div (cn self) aoa in
  if use_2pi self then Ok (set_cn_alpha (2 * PI) self)
  else
    v <- quotient ;;
    Ok (set_cn_alpha v self).

(** Returns the updated airfoil and the tuple [(cn, ca, cn_alpha)]. *)
Definition get_aero_coef (aoa : R) (self : t) : result (t * (R * R * R)) :=
  self <- _calculate_cn_ca aoa self ;;
  self <- _calculate_cn_alpha aoa self ;;
  Ok (self, (cn self, ca self, cn_alpha self)).

End Airfoil.

(** ** class Fin *)

Module Fin.

Record t : Type := mk {
  _dim : option (list (R * R));
  flat_plate : Airfoil.t;
  fin_attached : bool;
  c_root : R;
  c_tip : R;
  x_tail : R;
  wingspan : R;
  area : R;
  y_mac : R;
  x_force_fin : R;
  aspect_ratio : R;
  cp_total : R;
  sb_angle : R;
  beta : R;
  mach : R;
  cn0 : R;
  ca : R;
  cn_alpha_0 : R;
  cn_alpha : R
}.

Definition eta (f : t) : t :=
  mk (_dim f) (flat_plate f) (fin_attached f) (c_root f) (c_tip f) (x_tail f)
     (wingspan f) (area f) (y_mac f) (x_force_fin f) (aspect_ratio f)
     (cp_total f) (sb_angle f) (beta f) (mach f) (cn0 f) (ca f)
     (cn_alpha_0 f) (cn_alpha f).

Definition set__dim : option (list (R * R)) -> t -> t :=
  ltac:(make_setter eta _dim).
Definition set_flat_plate : Airfoil.t -> t -> t :=
  ltac:(make_setter eta flat_plate).
Definition set_fin_attached : bool -> t -> t :=
  ltac:(make_setter eta fin_attached).
Definition set_c_root : R -> t -> t := ltac:(make_setter eta c_root).
Definition set_c_tip : R -> t -> t := ltac:(make_setter eta c_tip).
Definition set_x_tail : R -> t -> t := ltac:(make_setter eta x_tail).
Definition set_wingspan : R -> t -> t := ltac:(make_setter eta wingspan).
Definition set_area : R -> t -> t := ltac:(make_setter eta area).
Definition set_y_mac : R -> t -> t := ltac:(make_setter eta y_mac).
Definition set_x_force_fin : R -> t -> t := ltac:(make_setter eta x_force_fin).
Definition set_aspect_ratio : R -> t -> t :=
  ltac:(make_setter eta aspect_ratio).
Definition set_cp_total : R -> t -> t := ltac:(make_setter eta cp_total).
Definition set_sb_angle : R -> t -> t := ltac:(make_setter eta sb_angle).
Definition set_beta : R -> t -> t := ltac:(make_setter eta beta).
Definition set_mach : R -> t -> t := ltac:(make_setter eta mach).
Definition set_cn0 : R -> t -> t := ltac:(make_setter eta cn0).
Definition set_ca : R -> t -> t := ltac:(make_setter eta ca).
Definition set_cn_alpha_0 : R -> t -> t := ltac:(make_setter eta cn_alpha_0).
Definition set_cn_alpha : R -> t -> t := ltac:(make_setter eta cn_alpha).

(** [_dim] starts as the integer [0] ([None]); [update] stores the list of
    the four planform points. *)
Definition __init__ : t :=
  {| _dim := None; flat_plate := Airfoil.__init__; fin_attached := true;
     c_root := 1; c_tip := 1; x_tail := 1; wingspan := 1; area := 1;
     y_mac := 1; x_force_fin := 1; aspect_ratio := 1; cp_total := 1;
     sb_angle := 1; beta := 1; mach := 0; cn0 := 0; ca := 0;
     cn_alpha_0 := 0; cn_alpha := 0 |}.

(** [self._dim[i]]; subscripting the initial integer is a [TypeError]. *)
Definition dim_get (self : t) (i : nat) : result (R * R) :=
  match _dim self with
  | Some l => py_get l i
  | None => Raise TypeError
  end.

(** The property [dim]: a deep copy of [_dim]. *)
Definition dim (self : t) : option (list (R * R)) := _dim self.

(** The property [cp]. *)
Definition cp (self : t) : R := cp_total self.

Definition _calculate_real_dimension (self : t) : result t :=
  p3 <- dim_get self 3 ;;
  p0 <- dim_get self 0 ;;
  let self := set_c_root (fst p3 - fst p0) self in
  p2 <- dim_get self 2 ;;
  p1 <- dim_get self 1 ;;
  let self := set_c_tip (fst p2 - fst p1) self in
  p1 <- dim_get self 1 ;;
  p0 <- dim_get self 0 ;;
  let self := set_x_tail (fst p1 - fst p0) self in
  p1 <- dim_get self 1 ;;
  p0 <- dim_get self 0 ;;
  Ok (set_wingspan (snd p1 - snd p0) self).

Definition _calculate_area (self : t) : t :=
  set_area ((c_root self + c_tip self) * wingspan self / 2) self.

Definition _calculate_mac_xf_ar (self : t) : t :=
  let k1 := c_root self + 2 * c_tip self in
  let k2 := c_root self + c_tip self in
  let k3 := c_root self ^ 2 + c_tip self ^ 2 + c_root self * c_tip self in
  let self :=
    if Req_dec_T k2 0 then set_x_force_fin 0 self
    else
      let self := set_y_mac ((wingspan self / 3) * (k1 / k2)) self in
      set_x_force_fin ((x_tail self / 3) * (k1 / k2) + (1 / 6) * (k3 / k2))
        self in
  let self :=
    if Req_dec_T (area self) 0 then self
    else set_aspect_ratio (2 * wingspan self ^ 2 / area self) self in
  if fin_attached self then self
  else set_aspect_ratio (aspect_ratio self * 0.625) self.

Definition _calculate_force_application_point (self : t) : result t :=
  p0 <- dim_get self 0 ;;
  Ok (set_cp_total (fst p0 + x_force_fin self) self).

Definition _calculate_sweepback_angle (self : t) : result t :=
  p1 <- dim_get self 1 ;;
  let x_tip := fst p1 + 0.25 * c_tip self in
  p0 <- dim_get self 0 ;;
  let x_root := fst p0 + 0.25 * c_root self in
  v <- py_div (x_tip - x_root) (wingspan self) ;;
  Ok (set_sb_angle (atan v) self).

Definition update (l : list (R * R)) (fin_attached : bool) (self : t)
    : result t :=
  let self := set_fin_attached fin_attached self in
  let self := set__dim (Some l) self in
  self <- _calculate_real_dimension self ;;
  let self := _calculate_area self in
  let self := _calculate_mac_xf_ar self in
  self <- _calculate_force_application_point self ;;
  _calculate_sweepback_angle self.

Definition _correct_cna_diederich (self : t) : result t :=
  let eff_factor := cn_alpha_0 self / (2 * PI) in
  s <- np_sqrt (1 - mach self ^ 2 * cos (sb_angle self) ^ 2) ;;
  v <- np_div (beta self) s ;;
  let cos_sbe := v * cos (sb_angle self) in
  k1 <- np_div 1 (beta self) ;;
  k2 <- np_div (aspect_ratio self * beta self) (eff_factor * cos_sbe) ;;
  k3 <- np_div (4 * eff_factor ^ 2 * cos_sbe ^ 2)
               (aspect_ratio self ^ 2 * beta self ^ 2) ;;
  k4 <- np_sqrt (1 + k3) ;;
  v <- np_div k2 (k2 * k4 + 2) ;;
  Ok (set_cn_alpha (k1 * v * cn_alpha_0 self * cos_sbe) self).

(** Returns the updated fin and [cn_alpha]. *)
Definition calculate_cn_alpha (aoa beta mach : R) (self : t)
    : result (t * R) :=
  let self := set_beta beta self in
  let self := set_mach mach self in
  r <- Airfoil.get_aero_coef aoa (flat_plate self) ;;
  let '(plate, (cn, ca, cn_alpha_0)) := r in
  let self := set_flat_plate plate self in
  let self := set_cn0 cn self in
  let self := set_ca ca self in
  let self := set_cn_alpha_0 cn_alpha_0 self in
  self <- _correct_cna_diederich self ;;
  Ok (self, cn_alpha self).

End Fin.

(** ** class Rocket *)

(** The list [l0] that [update_rocket] receives: [l0[0]] .. [l0[7]]. *)
Record rocket_data : Type := mk_rocket_data {
  d_ogive : bool;
  d_use_fins : bool;
  d_fin0_attached : bool;
  d_use_fins_control : bool;
  d_fin1_attached : bool;
  d_rocket_dim : list (R * R);
  d_fin0 : list (R * R);
  d_fin1 : list (R * R)
}.

Module Rocket.

(** The attributes of a [Rocket], and with them what its methods share with
    the rest of the program: [fin], the module-level list
    [fin = [Fin(), Fin()]], and [stdout], the lines printed so far.
    [fins_attached], [cn_alpha_og], [cn_alpha_fin_control], [cn_alpha_fin],
    [area_wet_component] and [cd_pressure_component] are numbers in
    [__init__] and lists from their first assignment in a method, which comes
    before every subscript; they have their list type here, the two-element
    ones as pairs.  [q] and [q_damp_body] do not exist before their first
    assignment ([None]). *)
Record t : Type := mk {
  thrust : R;
  cn : R;
  _sign_corr : R;
  xcp : R;
  ca : R;
  cp : R;
  xcg : R;
  q_damp : R;
  motor : list R * list R;
  is_in_the_pad_flag : bool;
  component_cn : list R;
  component_cn_alpha : list R;
  component_cm : list R;
  station_cross_area : list R;
  component_plan_area : list R;
  component_volume : list R;
  component_centroid : list R;
  ogive : bool;
  reynolds_crit : pynum;
  relative_rough : R;
  use_fins : bool;
  fins_attached : bool * bool;
  use_fins_control : bool;
  rocket_dim : list (R * R);
  max_diam : R;
  length : R;
  diameter : R;
  fineness : R;
  area_ref : R;
  plan_area : R;
  area_wet_component : list R;
  area_wet_body : R;
  avg_rad_aft : R;
  avg_rad_fore : R;
  v_loc_tot : R * R;
  mach : R;
  beta : R;
  actuator_angle : R;
  aoa_ctrl_fin : R;
  cn_alpha_og : R * R;
  cn_alpha_fin_control : R * R;
  cn_alpha_control_normal : R;
  cn_alpha_fin : R * R;
  cn_alpha_axial : R;
  reynolds : R;
  Cf : R;
  cd_pressure_component : list R;
  base_drag : R;
  cd0_friction : R;
  pressure_cd : R;
  base_drag_cd : R;
  cd0 : R;
  q : option R;
  q_damp_body : option R;
  fin : Fin.t * Fin.t;
  stdout : list string
}.

Definition eta (r : t) : t :=
  mk (thrust r) (cn r) (_sign_corr r) (xcp r) (ca r) (cp r) (xcg r)
     (q_damp r) (motor r) (is_in_the_pad_flag r) (component_cn r)
     (component_cn_alpha r) (component_cm r) (station_cross_area r)
     (component_plan_area r) (component_volume r) (component_centroid r)
     (ogive r) (reynolds_crit r) (relative_rough r) (use_fins r)
     (fins_attached r) (use_fins_control r) (rocket_dim r) (max_diam r)
     (length r) (diameter r) (fineness r) (area_ref r) (plan_area r)
     (area_wet_component r) (area_wet_body r) (avg_rad_aft r)
     (avg_rad_fore r) (v_loc_tot r) (mach r) (beta r) (actuator_angle r)
     (aoa_ctrl_fin r) (cn_alpha_og r) (cn_alpha_fin_control r)
     (cn_alpha_control_normal r) (cn_alpha_fin r) (cn_alpha_axial r)
     (reynolds r) (Cf r) (cd_pressure_component r) (base_drag r)
     (cd0_friction r) (pressure_cd r) (base_drag_cd r) (cd0 r) (q r)
     (q_damp_body r) (fin r) (stdout r).

Definition set_thrust : R -> t -> t := ltac:(make_setter eta thrust).
Definition set_cn : R -> t -> t := ltac:(make_setter eta cn).
Definition set__sign_corr : R -> t -> t := ltac:(make_setter eta _sign_corr).
Definition set_xcp : R -> t -> t := ltac:(make_setter eta xcp).
Definition set_ca : R -> t -> t := ltac:(make_setter eta ca).
Definition set_cp : R -> t -> t := ltac:(make_setter eta cp).
Definition set_xcg : R -> t -> t := ltac:(make_setter eta xcg).
Definition assign_motor : list R * list R -> t -> t :=
  ltac:(make_setter eta motor).
Definition set_is_in_the_pad_flag : bool -> t -> t :=
  ltac:(make_setter eta is_in_the_pad_flag).
Definition set_component_cn : list R -> t -> t :=
  ltac:(make_setter eta component_cn).
Definition set_component_cn_alpha : list R -> t -> t :=
  ltac:(make_setter eta component_cn_alpha).
Definition set_component_cm : list R -> t -> t :=
  ltac:(make_setter eta component_cm).
Definition set_station_cross_area : list R -> t -> t :=
  ltac:(make_setter eta station_cross_area).
Definition set_component_plan_area : list R -> t -> t :=
  ltac:(make_setter eta component_plan_area).
Definition set_component_volume : list R -> t -> t :=
  ltac:(make_setter eta component_volume).
Definition set_component_centroid : list R -> t -> t :=
  ltac:(make_setter eta component_centroid).
Definition set_ogive : bool -> t -> t := ltac:(make_setter eta ogive).
Definition set_reynolds_crit : pynum -> t -> t :=
  ltac:(make_setter eta reynolds_crit).
Definition set_relative_rough : R -> t -> t :=
  ltac:(make_setter eta relative_rough).
Definition set_use_fins : bool -> t -> t := ltac:(make_setter eta use_fins).
Definition set_fins_attached : bool * bool -> t -> t :=
  ltac:(make_setter eta fins_attached).
Definition set_use_fins_control : bool -> t -> t :=
  ltac:(make_setter eta use_fins_control).
Definition set_rocket_dim : list (R * R) -> t -> t :=
  ltac:(make_setter eta rocket_dim).
Definition set_max_diam : R -> t -> t := ltac:(make_setter eta max_diam).
Definition set_length : R -> t -> t := ltac:(make_setter eta length).
Definition set_diameter : R -> t -> t := ltac:(make_setter eta diameter).
Definition set_fineness : R -> t -> t := ltac:(make_setter eta fineness).
Definition set_area_ref : R -> t -> t := ltac:(make_setter eta area_ref).
Definition set_plan_area : R -> t -> t := ltac:(make_setter eta plan_area).
Definition set_area_wet_component : list R -> t -> t :=
  ltac:(make_setter eta area_wet_component).
Definition set_area_wet_body : R -> t -> t :=
  ltac:(make_setter eta area_wet_body).
Definition set_avg_rad_aft : R -> t -> t := ltac:(make_setter eta avg_rad_aft).
Definition set_avg_rad_fore : R -> t -> t :=
  ltac:(make_setter eta avg_rad_fore).
Definition set_v_loc_tot : R * R -> t -> t := ltac:(make_setter eta v_loc_tot).
Definition set_mach : R -> t -> t := ltac:(make_setter eta mach).
Definition set_beta : R -> t -> t := ltac:(make_setter eta beta).
Definition set_actuator_angle : R -> t -> t :=
  ltac:(make_setter eta actuator_angle).
Definition set_aoa_ctrl_fin : R -> t -> t :=
  ltac:(make_setter eta aoa_ctrl_fin).
Definition set_cn_alpha_og : R * R -> t -> t :=
  ltac:(make_setter eta cn_alpha_og).
Definition set_cn_alpha_fin_control : R * R -> t -> t :=
  ltac:(make_setter eta cn_alpha_fin_control).
Definition set_cn_alpha_control_normal : R -> t -> t :=
  ltac:(make_setter eta cn_alpha_control_normal).
Definition set_cn_alpha_fin : R * R -> t -> t :=
  ltac:(make_setter eta cn_alpha_fin).
Definition set_cn_alpha_axial : R -> t -> t :=
  ltac:(make_setter eta cn_alpha_axial).
Definition set_reynolds : R -> t -> t := ltac:(make_setter eta reynolds).
Definition set_Cf : R -> t -> t := ltac:(make_setter eta Cf).
Definition set_cd_pressure_component : list R -> t -> t :=
  ltac:(make_setter eta cd_pressure_component).
Definition set_base_drag : R -> t -> t := ltac:(make_setter eta base_drag).
Definition set_cd0_friction : R -> t -> t :=
  ltac:(make_setter eta cd0_friction).
Definition set_pressure_cd : R -> t -> t := ltac:(make_setter eta pressure_cd).
Definition set_base_drag_cd : R -> t -> t :=
  ltac:(make_setter eta base_drag_cd).
Definition set_cd0 : R -> t -> t := ltac:(make_setter eta cd0).
Definition set_q : option R -> t -> t := ltac:(make_setter eta q).
Definition set_q_damp_body : option R -> t -> t :=
  ltac:(make_setter eta q_damp_body).
Definition set_fin : Fin.t * Fin.t -> t -> t := ltac:(make_setter eta fin).
Definition set_stdout : list string -> t -> t := ltac:(make_setter eta stdout).

(** The tables of [__init__]; no method assigns them. *)
Definition aoa_list_ca : list R :=
  [-180 * DEG2RAD; -(180 - 17) * DEG2RAD;
   -(180 - 70) * DEG2RAD; -90 * DEG2RAD;
   -70 * DEG2RAD; -17 * DEG2RAD; 0;
   17 * DEG2RAD; 70 * DEG2RAD; 90 * DEG2RAD;
   (180 - 70) * DEG2RAD; (180 - 17) * DEG2RAD;
   180 * DEG2RAD].

Definition ca_scale : list R :=
  [-1; -1.3; -0.097777; 0; 0.097777; 1.3;
   1; 1.3; 0.097777; 0; -0.097777; -1.3; -1].

(** [Rocket()], with the two fins and the output of the program so far. *)
Definition __init__ (fins : Fin.t * Fin.t) (out : list string) : t :=
  {| thrust := 0; cn := 0; _sign_corr := -1; xcp := 0; ca := 0; cp := 0;
     xcg := 1; q_damp := 0; motor := ([], []);
     is_in_the_pad_flag := true;
     component_cn := replicate 1 0;
     component_cn_alpha := replicate 1 0;
     component_cm := replicate 1 0;
     station_cross_area := replicate 0 0;
     component_plan_area := replicate 1 0;
     component_volume := replicate 1 0;
     component_centroid := replicate 1 0;
     ogive := false; reynolds_crit := PyFloat 1; relative_rough := 150e-6;
     use_fins := false; fins_attached := (true, true);
     use_fins_control := false; rocket_dim := [];
     max_diam := 1; length := 1; diameter := 1; fineness := 1;
     area_ref := 1; plan_area := 1; area_wet_component := [];
     area_wet_body := 1; avg_rad_aft := 1; avg_rad_fore := 1;
     v_loc_tot := (10, 0); mach := 0.001; beta := 1;
     actuator_angle := 0; aoa_ctrl_fin := 0;
     cn_alpha_og := (6.28, 6.28); cn_alpha_fin_control := (2, 2);
     cn_alpha_control_normal := 2; cn_alpha_fin := (2, 2);
     cn_alpha_axial := 0; reynolds := 100; Cf := 1;
     cd_pressure_component := []; base_drag := 1; cd0_friction := 1;
     pressure_cd := 1; base_drag_cd := 1; cd0 := 1;
     q := None; q_damp_body := None;
     fin := fins; stdout := out |}.

Definition __initialize (n : nat) (self : t) : t :=
  let self := set_is_in_the_pad_flag true self in
  let self := set_component_cn (replicate (n - 1) 0) self in
  let self := set_component_cn_alpha (replicate (n - 1) 0) self in
  let self := set_component_cm (replicate (n - 1) 0) self in
  let self := set_station_cross_area (replicate n 0) self in
  let self := set_component_plan_area (replicate (n - 1) 0) self in
  let self := set_component_volume (replicate (n - 1) 0) self in
  let self := set_component_centroid (replicate (n - 1) 0) self in
  self.

(** *** Geometry *)

Definition _maximum_diameter (self : t) : R :=
  fold_left (fun d p => if Rgt_dec (snd p) d then snd p else d)
    (rocket_dim self) 0.

Definition _compute_total_rocket_plan_area (self : t) : t :=
  let self := set_plan_area 0 self in
  fold_left (fun self a => set_plan_area (plan_area self + a) self)
    (component_plan_area self) self.

Definition _calculate_wet_area_body (self : t) : result t :=
  let self :=
    set_area_wet_component
      (replicate (List.length (rocket_dim self) - 1) 0) self in
  self <-
    for_range (List.length (area_wet_component self))
      (fun i self =>
         p1 <- py_get (rocket_dim self) (i + 1) ;;
         p0 <- py_get (rocket_dim self) i ;;
         let l := fst p1 - fst p0 in
         let r1 := snd p0 / 2 in
         let r2 := snd p1 / 2 in
         s <- np_sqrt ((r2 - r1) ^ 2 + l ^ 2) ;;
         a <- py_set (area_wet_component self) i (PI * (r1 + r2) * s) ;;
         Ok (set_area_wet_component a self))
      self ;;
  let self := set_area_wet_body 0 self in
  for_range (List.length (area_wet_component self))
    (fun i self =>
       a <- py_get (area_wet_component self) i ;;
       Ok (set_area_wet_body (area_wet_body self + a) self))
    self.

(** The body of the loop of [_update_rocket_dim]. *)
Definition _update_rocket_dim_body (i : nat) (self : t) : result t :=
  p1 <- py_get (rocket_dim self) (i + 1) ;;
  p0 <- py_get (rocket_dim self) i ;;
  let l := fst p1 - fst p0 in
  let r1 := snd p0 / 2 in
  let r2 := snd p1 / 2 in
  let area := PI * r2 ^ 2 in
  a <- py_set (station_cross_area self) (i + 1) area ;;
  let self := set_station_cross_area a self in
  let plan_area := l * (r1 + r2) in
  a <- py_set (component_plan_area self) i plan_area ;;
  let self := set_component_plan_area a self in
  let volume := (1 / 3) * PI * l * (r1 ^ 2 + r2 ^ 2 + r1 * r2) in
  a <- py_set (component_volume self) i volume ;;
  let self := set_component_volume a self in
  centroid <- py_div (l * (2 * r2 + r1)) (3 * (r1 + r2)) ;;
  a <- py_set (component_centroid self) i centroid ;;
  let self := set_component_centroid a self in
  if ogive self then
    q1 <- py_get (rocket_dim self) 1 ;;
    q0 <- py_get (rocket_dim self) 0 ;;
    let l := fst q1 - fst q0 in
    a <- py_set (component_centroid self) 0 (0.4625 * l) ;;
    let self := set_component_centroid a self in
    q1 <- py_get (rocket_dim self) 1 ;;
    let d := snd q1 in
    a <- py_set (component_plan_area self) 0 (2 / 3 * l * d) ;;
    Ok (set_component_plan_area a self)
  else Ok self.

Definition _update_rocket_dim (l : list (R * R)) (self : t) : result t :=
  let self := set_rocket_dim l self in
  let self := __initialize (List.length (rocket_dim self)) self in
  let self := set_max_diam (_maximum_diameter self) self in
  p <- py_last (rocket_dim self) ;;
  let self := set_length (fst p) self in
  p <- py_get (rocket_dim self) 1 ;;
  let self := set_diameter (snd p) self in
  v <- py_div (length self) (max_diam self) ;;
  let self := set_fineness v self in
  let self := _compute_total_rocket_plan_area self in
  self <- _calculate_wet_area_body self ;;
  let self := set_area_ref (PI * (max_diam self / 2) ^ 2) self in
  for_range (List.length (rocket_dim self) - 1) _update_rocket_dim_body self.

(** [while self.rocket_dim[i][0] < self.xcg], [i] counting up from [0]:
    the scan ends at the first station at or behind the centre of gravity,
    and with an [IndexError] past the last station. *)
Fixpoint fore_scan (dim : list (R * R)) (xcg tot_radius : R) : result R :=
  match dim with
  | [] => Raise IndexError
  | p :: rest =>
      if Rlt_dec (fst p) xcg then fore_scan rest xcg (tot_radius + fst p)
      else Ok tot_radius
  end.

Definition _calculate_avg_radius_fore (self : t) : result t :=
  tot_radius <- fore_scan (rocket_dim self) (xcg self) 0 ;;
  v <- py_div tot_radius (xcg self) ;;
  Ok (set_avg_rad_fore v self).

(** [while self.rocket_dim[i][0] > self.xcg], [i] counting down from
    [len - 1]: below [0] the index wraps around ([-1] is the last station
    again), so the scan visits the stations backwards twice before the
    [IndexError] at [-len - 1]. *)
Fixpoint aft_scan (dim : list (R * R)) (xcg tot_radius : R) : result R :=
  match dim with
  | [] => Raise IndexError
  | p :: rest =>
      if Rgt_dec (fst p) xcg then aft_scan rest xcg (tot_radius + fst p)
      else Ok tot_radius
  end.

Definition _calculate_avg_radius_aft (self : t) : result t :=
  tot_radius <-
    aft_scan (rev (rocket_dim self) ++ rev (rocket_dim self)) (xcg self) 0 ;;
  p <- py_last (rocket_dim self) ;;
  v <- py_div tot_radius (fst p - xcg self) ;;
  Ok (set_avg_rad_aft v self).

Definition _calculate_pitch_damping_body (self : t) : result t :=
  self <- _calculate_avg_radius_fore self ;;
  self <- _calculate_avg_radius_aft self ;;
  let l_fore := xcg self in
  p <- py_last (rocket_dim self) ;;
  let l_aft := fst p - xcg self in
  let q_damp_fore := 0.275 * avg_rad_fore self * l_fore ^ 4 in
  let q_damp_aft := 0.275 * avg_rad_aft self * l_aft ^ 4 in
  Ok (set_q_damp_body (Some (q_damp_fore + q_damp_aft)) self).

Definition _calculate_reynolds_crit (self : t) : result t :=
  let self := set_relative_rough 60e-6 self in
  v <- py_div (relative_rough self) (length self) ;;
  p <- py_pow v (-1.039) ;;
  Ok (set_reynolds_crit
        (match p with PyFloat r => PyFloat (51 * r) | PyComplex => PyComplex end)
        self).

Definition zero_fin : list (R * R) :=
  [(0.00001, 0.0000); (0.0001, 0.0001); (0.0002, 0.0001); (0.0002, 0.0000)].

Definition update_rocket (l : rocket_data) (xcg : R) (self : t) : result t :=
  let self := set_ogive (d_ogive l) self in
  let self := set_use_fins (d_use_fins l) self in
  let self := set_fins_attached (d_fin0_attached l, d_fin1_attached l) self in
  let self := set_use_fins_control (d_use_fins_control l) self in
  self <- _update_rocket_dim (d_rocket_dim l) self ;;
  f1 <- Fin.update zero_fin true (snd (fin self)) ;;
  let self := set_fin (fst (fin self), f1) self in
  self <-
    (if use_fins self then
       f0 <- Fin.update (d_fin0 l) (fst (fins_attached self))
               (fst (fin self)) ;;
       let self := set_fin (f0, snd (fin self)) self in
       if use_fins_control self then
         f1 <- Fin.update (d_fin1 l) (snd (fins_attached self))
                 (snd (fin self)) ;;
         Ok (set_fin (fst (fin self), f1) self)
       else Ok self
     else Ok self) ;;
  let self := set_xcg xcg self in
  self <- _calculate_pitch_damping_body self ;;
  _calculate_reynolds_crit self.

(** The property [reference_area]. *)
Definition reference_area (self : t) : R := area_ref self.

(** *** Aerodynamics *)

Definition __sign_correction (aoa : R) : R :=
  if Rge_dec aoa 0 then -1 else 1.

Definition _barrowman_cn (aoa : R) (self : t) : result t :=
  for_range (List.length (station_cross_area self) - 1)
    (fun i self =>
       k1 <- np_div (2 * sin aoa) (area_ref self) ;;
       a1 <- py_get (station_cross_area self) (i + 1) ;;
       a0 <- py_get (station_cross_area self) i ;;
       let cn := k1 * (a1 - a0) in
       c <- py_set (component_cn self) i cn ;;
       Ok (set_component_cn c self))
    self.

Definition _body_cn (aoa : R) (self : t) : result t :=
  let K := 1.1 in
  let cn := replicate (List.length (component_plan_area self)) 0 in
  cn <-
    for_range (List.length (component_plan_area self))
      (fun i cn =>
         a <- py_get (component_plan_area self) i ;;
         k1 <- py_div a (area_ref self) ;;
         py_set cn i (K * k1 * sin aoa ^ 2))
      cn ;;
  for_range (List.length (component_cn self))
    (fun i self =>
       c <- py_get (component_cn self) i ;;
       d <- py_get cn i ;;
       c <- py_set (component_cn self) i (c + d) ;;
       Ok (set_component_cn c self))
    self.

Definition _fin_cn (aoa actuator_angle : R) (self : t) : result t :=
  let self := set_cn_alpha_og (0, 0) self in
  let self := set_cn_alpha_fin_control (0, 0) self in
  r <- Fin.calculate_cn_alpha aoa (beta self) (mach self) (fst (fin self)) ;;
  let self := set_fin (fst r, snd (fin self)) self in
  let self := set_cn_alpha_og (snd r, snd (cn_alpha_og self)) self in
  r <- Fin.calculate_cn_alpha (aoa_ctrl_fin self) (beta self) (mach self)
         (snd (fin self)) ;;
  let self := set_fin (fst (fin self), fst r) self in
  let self := set_cn_alpha_og (fst (cn_alpha_og self), snd r) self in
  let n_fin := 2 in
  let self := set_cn_alpha_fin (0, 0) self in
  (* adimensionalise the cn for the rocket's area *)
  v <- py_div (Fin.area (fst (fin self))) (area_ref self) ;;
  let self :=
    set_cn_alpha_fin
      (n_fin * v * fst (cn_alpha_og self), snd (cn_alpha_fin self)) self in
  v <- py_div (Fin.area (snd (fin self))) (area_ref self) ;;
  let self :=
    set_cn_alpha_fin
      (fst (cn_alpha_fin self), n_fin * v * snd (cn_alpha_og self)) self in
  (* Compensation for body interference *)
  self <-
    (if fst (fins_attached self) then
       p <- Fin.dim_get (fst (fin self)) 0 ;;
       let r_body_at_fin := snd p in
       v <- py_div r_body_at_fin
              (Fin.wingspan (fst (fin self)) + r_body_at_fin) ;;
       let KT := 1 + v in
       let self :=
         set_cn_alpha_fin
           (KT * fst (cn_alpha_fin self), snd (cn_alpha_fin self)) self in
       Ok (set_cn_alpha_og
             (KT * fst (cn_alpha_og self), snd (cn_alpha_og self)) self)
     else Ok self) ;;
  self <-
    (if snd (fins_attached self) then
       p <- Fin.dim_get (snd (fin self)) 0 ;;
       let r_body_at_fin := snd p in
       v <- py_div r_body_at_fin
              (Fin.wingspan (snd (fin self)) + r_body_at_fin) ;;
       let KT := 1 + v in
       let self :=
         set_cn_alpha_fin
           (fst (cn_alpha_fin self), KT * snd (cn_alpha_fin self)) self in
       Ok (set_cn_alpha_og
             (fst (cn_alpha_og self), KT * snd (cn_alpha_og self)) self)
     else Ok self) ;;
  (* Still normal to the fin *)
  let self := set_cn_alpha_control_normal (snd (cn_alpha_fin self)) self in
  (* now normal to the rocket *)
  let self :=
    set_cn_alpha_fin
      (fst (cn_alpha_fin self),
       cn_alpha_control_normal self * cos actuator_angle) self in
  Ok (set_cn_alpha_axial
        (cn_alpha_control_normal self * Rabs (sin actuator_angle)) self).

Definition _calculate_cn_alpha (aoa : R) (self : t) : result t :=
  for_range (List.length (component_cn self))
    (fun i self =>
       if Req_dec_T aoa 0 then
         c <- py_set (component_cn_alpha self) i 0 ;;
         Ok (set_component_cn_alpha c self)
       else
         v <- py_get (component_cn self) i ;;
         c <- py_set (component_cn_alpha self) i (v / aoa) ;;
         Ok (set_component_cn_alpha c self))
    self.

Definition _calculate_total_cn (aoa actuator_angle : R) (self : t)
    : result t :=
  let self := set_cn 0 self in
  let self := set__sign_corr (__sign_correction aoa) self in
  let aoa := if Req_dec_T aoa 0 then 0.0001 else Rabs aoa in
  self <- _barrowman_cn aoa self ;;
  self <- _body_cn aoa self ;;
  self <- _calculate_cn_alpha aoa self ;;
  self <- (if use_fins self then _fin_cn aoa actuator_angle self
           else Ok self) ;;
  self <-
    for_range (List.length (component_cn self))
      (fun i self =>
         c <- py_get (component_cn self) i ;;
         Ok (set_cn (cn self + c) self))
      self ;;
  let self :=
    if use_fins self then
      let self := set_cn (cn self + fst (cn_alpha_fin self) * aoa) self in
      set_cn (cn self + snd (cn_alpha_fin self) * aoa) self
    else self in
  Ok (set_cn (_sign_corr self * cn self) self).

(** The loop of [_calculate_cp_position] threads [self] and the locals
    [(a, b)]. *)
Definition _calculate_cp_position (self : t) : result t :=
  let a := 0 in
  let b := 0 in
  let self := set_cp 0 self in
  ab <-
    for_range (List.length (component_cn_alpha self))
      (fun i ab =>
         c <- py_get (component_centroid self) i ;;
         p <- py_get (rocket_dim self) i ;;
         s <- py_get (component_cn_alpha self) i ;;
         Ok (fst ab + (c + fst p) * s, snd ab + s))
      (a, b) ;;
  let '(a, b) := ab in
  let '(a, b) :=
    if use_fins self then
      let a := a + Fin.cp (fst (fin self)) * fst (cn_alpha_fin self) in
      let b := b + fst (cn_alpha_fin self) in
      let a := a + Fin.cp (snd (fin self)) * snd (cn_alpha_fin self) in
      let b := b + snd (cn_alpha_fin self) in
      (a, b)
    else (a, b) in
  if Req_dec_T b 0 then
    c <- py_get (component_centroid self) 0 ;;
    Ok (set_cp c self)
  else Ok (set_cp (a / b) self).

(** *** Drag *)

Definition _calculate_reynolds (velocity_0 rho mu : R) (self : t)
    : result t :=
  v <- np_div (rho * velocity_0 * length self) mu ;;
  Ok (set_reynolds v self).

Definition _calculate_cf (self : t) : result t :=
  self <-
    (if Rlt_dec (reynolds self) 10e4 then Ok (set_Cf 1.48e-2 self)
     else
       match reynolds_crit self with
       | PyComplex => Raise TypeError
       | PyFloat crit =>
           if Rlt_dec (reynolds self) crit then
             lg <- np_log (reynolds self) ;;
             v <- np_div 1 ((1.5 * lg - 5.6) ^ 2) ;;
             Ok (set_Cf v self)
           else
             v <- py_div (relative_rough self) (length self) ;;
             p <- np_power v 0.2 ;;
             Ok (set_Cf (0.032 * p) self)
       end) ;;
  Ok (set_Cf (Cf self * (1 - 0.1 * mach self ^ 2)) self).

(** The loop of [_calculate_pressure_drag] threads [self] and the local
    [phi], unbound ([None]) until its first assignment.  The [try] around
    the division catches [ZeroDivisionError], prints, and goes on with the
    [phi] of the iteration before. *)
Definition _calculate_pressure_drag_body (i : nat) (st : t * option R)
    : result (t * option R) :=
  let '(self, phi) := st in
  p1 <- py_get (rocket_dim self) (i + 1) ;;
  p0 <- py_get (rocket_dim self) i ;;
  let l := fst p1 - fst p0 in
  let r1 := snd p0 / 2 in
  let r2 := snd p1 / 2 in
  st <-
    match py_div (r2 - r1) l with
    | Ok v => Ok (self, Some (atan v))
    | Raise ZeroDivisionError =>
        Ok (set_stdout (stdout self ++ ["Component length is zero"%string])
              self, phi)
    | Raise e => Raise e
    end ;;
  let '(self, phi) := st in
  match phi with
  | None => Raise UnboundLocalError
  | Some ph =>
      c <- py_set (cd_pressure_component self) i (0.8 * sin ph ^ 2) ;;
      Ok (set_cd_pressure_component c self, phi)
  end.

Definition _calculate_pressure_drag (self : t) : result t :=
  let n := (List.length (rocket_dim self) - 1)%nat in
  let self := set_cd_pressure_component (replicate n 0) self in
  st <- for_range n _calculate_pressure_drag_body (self, None) ;;
  let self := fst st in
  if ogive self then
    c <- py_set (cd_pressure_component self) 0 0 ;;
    Ok (set_cd_pressure_component c self)
  else Ok self.

Definition _calculate_base_drag (self : t) : t :=
  set_base_drag (0.12 + 0.13 * mach self ^ 2) self.

Definition _calculate_cd (aoa : R) (self : t) : result t :=
  v <- py_div 1 (2 * fineness self) ;;
  v <- np_div (Cf self * ((1 + v) * area_wet_body self)) (area_ref self) ;;
  let self := set_cd0_friction v self in
  let n := (List.length (station_cross_area self) - 1)%nat in
  let self := set_pressure_cd 0 self in
  self <-
    for_range n
      (fun i self =>
         if (i =? n - 1)%nat && (if Rgt_dec (Rabs aoa) (PI / 2)
                                 then true else false) then
           (* Rocket flying backwards *)
           area_ref_component <- py_get (station_cross_area self) (i + 1) ;;
           c <- py_set (cd_pressure_component self) i 1 ;;
           let self := set_cd_pressure_component c self in
           v <- py_div area_ref_component (area_ref self) ;;
           c <- py_get (cd_pressure_component self) i ;;
           Ok (set_pressure_cd (pressure_cd self + v * c) self)
         else
           a1 <- py_get (station_cross_area self) (i + 1) ;;
           a0 <- py_get (station_cross_area self) i ;;
           let area_ref_component := Rabs (a1 - a0) in
           v <- py_div area_ref_component (area_ref self) ;;
           c <- py_get (cd_pressure_component self) i ;;
           Ok (set_pressure_cd (pressure_cd self + v * c) self))
      self ;;
  a <- py_last (station_cross_area self) ;;
  v <- py_div a (area_ref self) ;;
  let self := set_base_drag_cd (v * base_drag self) self in
  Ok (set_cd0 (pressure_cd self + base_drag_cd self + cd0_friction self) self).

Definition _fin_ca (self : t) : result t :=
  v <- py_div (2 * Fin.area (fst (fin self))) (area_ref self) ;;
  let self := set_ca (ca self + Fin.ca (fst (fin self)) * v) self in
  v <- py_div (2 * Fin.area (snd (fin self))) (area_ref self) ;;
  Ok (set_ca (ca self + Fin.ca (snd (fin self)) * v) self).

Definition _control_fin_drag (aoa : R) (self : t) : t :=
  set_ca (ca self + cn_alpha_axial self * (aoa - actuator_angle self)) self.

Definition _calculate_ca (aoa : R) (self : t) : result t :=
  cd2ca <- np_interp aoa aoa_list_ca ca_scale ;;
  let self := set_ca (cd0 self * cd2ca) self in
  if use_fins self then
    self <- _fin_ca self ;;
    Ok (_control_fin_drag aoa self)
  else Ok self.

Definition _calculate_total_ca (aoa velocity_0 rho mu : R) (self : t)
    : result t :=
  self <- _calculate_reynolds velocity_0 rho mu self ;;
  self <- _calculate_cf self ;;
  self <- _calculate_pressure_drag self ;;
  let self := _calculate_base_drag self in
  self <- _calculate_cd aoa self ;;
  _calculate_ca aoa self.

(** Returns the updated rocket and the tuple [(cn, cp, ca)]. *)
Definition calculate_aero_coef (aoa : R) (v_loc_tot : R * R)
    (rho mu mach actuator_angle q : R) (self : t)
    : result (t * (R * R * R)) :=
  let self := set_q (Some q) self in
  let self := set_v_loc_tot v_loc_tot self in
  velocity_0 <- np_sqrt (fst v_loc_tot ^ 2 + snd v_loc_tot ^ 2) ;;
  let self :=
    if Rlt_dec mach 0.001 then set_mach 0.001 self
    else set_mach mach self in
  v <- np_sqrt (1 - mach ^ 2) ;;
  let self := set_beta v self in
  let self := set_actuator_angle actuator_angle self in
  let self := set_aoa_ctrl_fin (aoa - actuator_angle) self in
  self <- _calculate_total_cn aoa actuator_angle self ;;
  self <- _calculate_cp_position self ;;
  self <- _calculate_total_ca aoa velocity_0 rho mu self ;;
  Ok (self, (cn self, cp self, ca self)).

(** *** Motor *)

Definition set_motor (data : list R * list R) (self : t) : t :=
  let self := assign_motor (fst data, snd (motor self)) self in
  assign_motor (fst (motor self), snd data) self.

(** Returns the updated rocket and [float(self.thrust)]. *)
Definition get_thrust (t_now t_launch : R) (self : t) : result (t * R) :=
  let x := t_now - t_launch in
  v <- np_interp x (fst (motor self)) (snd (motor self)) ;;
  let self := set_thrust v self in
  let self :=
    if Rlt_dec (thrust self) 0.001 then set_thrust 0.001 self else self in
  Ok (self, thrust self).

(** Returns the updated rocket and the flag. *)
Definition is_in_the_pad (alt : R) (self : t) : t * bool :=
  let self :=
    if (if Rgt_dec alt 0.2 then true else false) && is_in_the_pad_flag self
    then set_is_in_the_pad_flag false self
    else self in
  (self, is_in_the_pad_flag self).

Definition burnout_time (self : t) : result R :=
  py_last (fst (motor self)).

Definition reset_variables (self : t) : t :=
  let self := set_thrust 0 self in
  let self := set_cn 0 self in
  let self := set_xcp 0 self in
  let self := set_ca 0 self in
  let self := assign_motor ([], []) self in
  set_is_in_the_pad_flag true self.

End Rocket.

(** * Definitions used in the statements *)

(** ** Pad latch *)

(** Calls [is_in_the_pad] once per altitude, in order, and collects what
    the calls return. *)
Fixpoint pad_calls (alts : list R) (self : Rocket.t) : Rocket.t * list bool :=
  match alts with
  | [] => (self, [])
  | alt :: rest =>
      let r := Rocket.is_in_the_pad alt self in
      let rs := pad_calls rest (fst r) in
      (fst rs, snd r :: snd rs)
  end.

(** The number of altitudes before the first one above [0.2]. *)
Fixpoint on_pad_prefix (alts : list R) : nat :=
  match alts with
  | [] => 0
  | alt :: rest => if Rgt_dec alt 0.2 then 0 else S (on_pad_prefix rest)
  end.

(** ** Motor curve *)

(** [y] is the value at [x] of the piecewise-linear curve through the
    samples [(xp[j], fp[j])], held constant before the first sample and from
    the last sample on. *)
Definition clamped_pwl (xp fp : list R) (x y : R) : Prop :=
  (exists x0 f0,
      xp !! 0%nat = Some x0 /\ fp !! 0%nat = Some f0 /\ x < x0 /\ y = f0)
  \/ (exists xn fn,
      last xp = Some xn /\ last fp = Some fn /\ xn <= x /\ y = fn)
  \/ (exists j xj xj1 fj fj1,
      xp !! j = Some xj /\ xp !! S j = Some xj1 /\
      fp !! j = Some fj /\ fp !! S j = Some fj1 /\
      xj <= x < xj1 /\
      y = (fj1 - fj) / (xj1 - xj) * (x - xj) + fj).

(** [Rocket()] in a program that has printed nothing: both fins as
    [Fin()] leaves them. *)
Definition fresh_rocket : Rocket.t :=
  Rocket.__init__ (Fin.__init__, Fin.__init__) [].

(** ** Body geometry *)

(** The largest diameter of the stations, as [_maximum_diameter] finds it. *)
Definition max_diameter (l : list (R * R)) : R :=
  fold_left (fun d p => if Rgt_dec (snd p) d then snd p else d) l 0.

(** The segments of a body: every station paired with the next one. *)
Definition segments (l : list (R * R)) : list ((R * R) * (R * R)) :=
  zip l (tail l).

(** Length, fore radius and aft radius of a segment: the locals [l], [r1]
    and [r2] of the loops over the components. *)
Definition seg_length (s : (R * R) * (R * R)) : R := fst (snd s) - fst (fst s).
Definition seg_r1 (s : (R * R) * (R * R)) : R := snd (fst s) / 2.
Definition seg_r2 (s : (R * R) * (R * R)) : R := snd (snd s) / 2.

(** The frustum formulas of [_update_rocket_dim] and
    [_calculate_wet_area_body]. *)
Definition frustum_plan_area (s : (R * R) * (R * R)) : R :=
  seg_length s * (seg_r1 s + seg_r2 s).

Definition frustum_volume (s : (R * R) * (R * R)) : R :=
  (1 / 3) * PI * seg_length s
  * (seg_r1 s ^ 2 + seg_r2 s ^ 2 + seg_r1 s * seg_r2 s).

Definition frustum_centroid (s : (R * R) * (R * R)) : R :=
  (seg_length s * (2 * seg_r2 s + seg_r1 s)) / (3 * (seg_r1 s + seg_r2 s)).

Definition frustum_wet_area (s : (R * R) * (R * R)) : R :=
  PI * (seg_r1 s + seg_r2 s)
  * sqrt ((seg_r2 s - seg_r1 s) ^ 2 + seg_length s ^ 2).

(** The cross-section areas at the stations: [0] at the first one. *)
Definition cross_areas (l : list (R * R)) : list R :=
  match l with
  | [] => []
  | _ :: rest => 0 :: map (fun p => PI * (snd p / 2) ^ 2) rest
  end.

(** With an ogive nose, entry [0] of an array is overwritten by a value
    computed from the first segment. *)
Definition ogive_override (ogive : bool) (l : list (R * R))
    (f : (R * R) * (R * R) -> R) (a : list R) : list R :=
  match ogive, segments l with
  | true, s :: _ => <[0%nat := f s]> a
  | _, _ => a
  end.

Definition plan_areas (ogive : bool) (l : list (R * R)) : list R :=
  ogive_override ogive l (fun s => 2 / 3 * seg_length s * snd (snd s))
    (map frustum_plan_area (segments l)).

Definition centroids (ogive : bool) (l : list (R * R)) : list R :=
  ogive_override ogive l (fun s => 0.4625 * seg_length s)
    (map frustum_centroid (segments l)).

(** No division of [_update_rocket_dim] is by zero: the largest diameter is
    not zero, and no segment has radii with [r1 + r2 = 0]. *)
Definition nondegenerate (l : list (R * R)) : Prop :=
  max_diameter l <> 0
  /\ Forall (fun s => seg_r1 s + seg_r2 s <> 0) (segments l).

(** The rocket of [_update_rocket_dim l] when it enters its loop, for the
    last station [p] and the second station [p1]: the arrays are zeroed,
    the scalars and the wet areas are set.  [plan_area] is the sum of the
    zeroed planform areas. *)
Definition pre_geometry (l : list (R * R)) (p p1 : R * R)
    (self : Rocket.t) : Rocket.t :=
  let n := List.length l in
  let self := Rocket.set_rocket_dim l self in
  let self := Rocket.__initialize n self in
  let self := Rocket.set_max_diam (max_diameter l) self in
  let self := Rocket.set_length (fst p) self in
  let self := Rocket.set_diameter (snd p1) self in
  let self := Rocket.set_fineness (fst p / max_diameter l) self in
  let self := Rocket.set_plan_area 0 self in
  let self := Rocket.set_area_wet_component (map frustum_wet_area (segments l))
                self in
  let self :=
    Rocket.set_area_wet_body
      (fold_left Rplus (map frustum_wet_area (segments l)) 0) self in
  Rocket.set_area_ref (PI * (max_diameter l / 2) ^ 2) self.

(** The rocket that [_update_rocket_dim l] makes of [self]. *)
Definition with_geometry (l : list (R * R)) (p p1 : R * R)
    (self : Rocket.t) : Rocket.t :=
  let self := pre_geometry l p p1 self in
  let self := Rocket.set_station_cross_area (cross_areas l) self in
  let self :=
    Rocket.set_component_plan_area (plan_areas (Rocket.ogive self) l) self in
  let self :=
    Rocket.set_component_volume (map frustum_volume (segments l)) self in
  Rocket.set_component_centroid (centroids (Rocket.ogive self) l) self.

(** The invariant of the loop of [_update_rocket_dim] on the stations [l],
    entered in state [s0]: after [i] iterations the arrays hold their final
    values below index [i] (the cross areas up to index [i]). *)
Definition dim_loop_inv (l : list (R * R)) (s0 : Rocket.t) (i : nat)
    (s : Rocket.t) : Prop :=
  exists sca cpa cv cc,
    s = Rocket.set_component_centroid cc
          (Rocket.set_component_volume cv
             (Rocket.set_component_plan_area cpa
                (Rocket.set_station_cross_area sca s0)))
    /\ List.length sca = List.length l
    /\ List.length cpa = (List.length l - 1)%nat
    /\ List.length cv = (List.length l - 1)%nat
    /\ List.length cc = (List.length l - 1)%nat
    /\ (forall j, (j <= i)%nat -> sca !! j = cross_areas l !! j)
    /\ (forall j, (j < i)%nat ->
          cpa !! j = plan_areas (Rocket.ogive s0) l !! j)
    /\ (forall j, (j < i)%nat ->
          cv !! j = map frustum_volume (segments l) !! j)
    /\ (forall j, (j < i)%nat ->
          cc !! j = centroids (Rocket.ogive s0) l !! j).

(** The example body of the specification: a cone of length [1] on a
    cylinder of diameter [0.1], three stations. *)
Definition example_body : list (R * R) := [(0, 0); (1, 0.1); (3, 0.1)].

(** ** Partial correctness *)

(** [ensures m Q]: if the computation [m] returns, its value satisfies
    [Q]. *)
Definition ensures {A : Type} (m : result A) (Q : A -> Prop) : Prop :=
  match m with
  | Ok a => Q a
  | Raise _ => True
  end.

(** ** Normal force of the body *)

(** The potential-flow term of segment [i]:
    [(2 sin aoa / area_ref) * (cross_area[i+1] - cross_area[i])]. *)
Definition barrowman_list (aoa area_ref : R) (sca : list R) : list R :=
  zip_with (fun a0 a1 => 2 * sin aoa / area_ref * (a1 - a0)) sca (tail sca).

(** The viscous crossflow term of a segment of planform area [a]. *)
Definition crossflow_list (aoa area_ref : R) (cpa : list R) : list R :=
  map (fun a => 1.1 * (a / area_ref) * sin aoa ^ 2) cpa.

(** The angle that [_calculate_total_cn] works with. *)
Definition effective_aoa (aoa : R) : R :=
  if Req_dec_T aoa 0 then 0.0001 else Rabs aoa.

(** The normal-force coefficients of the body components at the angle
    [aoa], and their slopes. *)
Definition body_cn_list (aoa : R) (self : Rocket.t) : list R :=
  zip_with Rplus
    (barrowman_list aoa (Rocket.area_ref self) (Rocket.station_cross_area self))
    (crossflow_list aoa (Rocket.area_ref self)
       (Rocket.component_plan_area self)).

Definition body_cn_alpha_list (aoa : R) (self : Rocket.t) : list R :=
  map (fun c => c / aoa) (body_cn_list aoa self).

(** A rocket as [update_rocket] leaves it, as far as the aerodynamic
    methods depend on it: at least two stations, arrays of matching
    lengths, and non-zero reference area, fineness and length. *)
Definition configured (self : Rocket.t) : Prop :=
  let n := List.length (Rocket.rocket_dim self) in
  (2 <= n)%nat
  /\ List.length (Rocket.station_cross_area self) = n
  /\ List.length (Rocket.component_plan_area self) = (n - 1)%nat
  /\ List.length (Rocket.component_centroid self) = (n - 1)%nat
  /\ List.length (Rocket.component_cn self) = (n - 1)%nat
  /\ List.length (Rocket.component_cn_alpha self) = (n - 1)%nat
  /\ Rocket.area_ref self <> 0
  /\ Rocket.fineness self <> 0
  /\ 0 < Rocket.length self
  /\ 0 < Rocket.relative_rough self
  /\ exists crit, Rocket.reynolds_crit self = PyFloat crit.

(** ** Centre of pressure *)

(** The contributors to the centre of pressure, each with its location and
    its normal-force slope: the body components, at their centroid behind
    their fore station, and, with fins, the two fin sets at their
    centre of pressure. *)
Definition body_contributors (self : Rocket.t) : list (R * R) :=
  zip_with (fun loc s => (loc, s))
    (zip_with (fun c p => c + fst p)
       (Rocket.component_centroid self) (Rocket.rocket_dim self))
    (Rocket.component_cn_alpha self).

Definition fin_contributors (self : Rocket.t) : list (R * R) :=
  if Rocket.use_fins self then
    [(Fin.cp (fst (Rocket.fin self)), fst (Rocket.cn_alpha_fin self));
     (Fin.cp (snd (Rocket.fin self)), snd (Rocket.cn_alpha_fin self))]
  else [].

Definition cp_contributors (self : Rocket.t) : list (R * R) :=
  body_contributors self ++ fin_contributors self.

(** The sum of location times slope, and the sum of the slopes. *)
Definition moment_sum (c : list (R * R)) : R :=
  fold_left Rplus (map (fun ls => fst ls * snd ls) c) 0.

Definition slope_sum (c : list (R * R)) : R :=
  fold_left Rplus (map snd c) 0.

(** [cp] is the centre of pressure of the rocket [self]: the weighted
    average of the locations, or the first centroid when the slopes add up
    to zero. *)
Definition cp_spec (self : Rocket.t) (cp : R) : Prop :=
  let c := cp_contributors self in
  (slope_sum c <> 0 /\ cp = moment_sum c / slope_sum c)
  \/ (slope_sum c = 0 /\ Rocket.component_centroid self !! 0%nat = Some cp).

(** ** Drag *)

(** A segment whose two stations are at the same position. *)
Definition zero_length (s : (R * R) * (R * R)) : bool :=
  if Req_dec_T (seg_length s) 0 then true else false.

Definition zero_length_count (l : list (R * R)) : nat :=
  List.length (List.filter zero_length (segments l)).

(** The lines that one run of [_calculate_pressure_drag] prints for the
    stations [l]: one for every segment of length zero. *)
Definition zero_length_report (l : list (R * R)) : list string :=
  replicate (zero_length_count l) "Component length is zero"%string.

(** [s'] is [s] up to the attributes that the drag methods assign, and to
    what they print. *)
Definition drag_frame (s s' : Rocket.t) : Prop :=
  s' = Rocket.set_stdout (Rocket.stdout s')
         (Rocket.set_ca (Rocket.ca s')
            (Rocket.set_cd0 (Rocket.cd0 s')
               (Rocket.set_base_drag_cd (Rocket.base_drag_cd s')
                  (Rocket.set_pressure_cd (Rocket.pressure_cd s')
                     (Rocket.set_cd0_friction (Rocket.cd0_friction s')
                        (Rocket.set_base_drag (Rocket.base_drag s')
                           (Rocket.set_cd_pressure_component
                              (Rocket.cd_pressure_component s')
                              (Rocket.set_Cf (Rocket.Cf s')
                                 (Rocket.set_reynolds (Rocket.reynolds s')
                                    s))))))))).

(** [s'] is [s] up to the attributes that the normal-force methods
    assign. *)
Definition cn_frame (s s' : Rocket.t) : Prop :=
  s' = Rocket.set_cn (Rocket.cn s')
         (Rocket.set__sign_corr (Rocket._sign_corr s')
            (Rocket.set_component_cn (Rocket.component_cn s')
               (Rocket.set_component_cn_alpha (Rocket.component_cn_alpha s')
                  (Rocket.set_fin (Rocket.fin s')
                     (Rocket.set_cn_alpha_og (Rocket.cn_alpha_og s')
                        (Rocket.set_cn_alpha_fin_control
                           (Rocket.cn_alpha_fin_control s')
                           (Rocket.set_cn_alpha_fin (Rocket.cn_alpha_fin s')
                              (Rocket.set_cn_alpha_control_normal
                                 (Rocket.cn_alpha_control_normal s')
                                 (Rocket.set_cn_alpha_axial
                                    (Rocket.cn_alpha_axial s') s))))))))).

(** [s'] is [s] up to the attributes that [calculate_aero_coef] and the
    methods it calls assign, and to what they print. *)
Definition aero_frame (s s' : Rocket.t) : Prop :=
  s' =
       Rocket.set_stdout (Rocket.stdout s')
        (Rocket.set_ca (Rocket.ca s')
         (Rocket.set_cd0 (Rocket.cd0 s')
          (Rocket.set_base_drag_cd (Rocket.base_drag_cd s')
           (Rocket.set_pressure_cd (Rocket.pressure_cd s')
            (Rocket.set_cd0_friction (Rocket.cd0_friction s')
             (Rocket.set_base_drag (Rocket.base_drag s')
              (Rocket.set_cd_pressure_component (Rocket.cd_pressure_component s')
               (Rocket.set_Cf (Rocket.Cf s')
                (Rocket.set_reynolds (Rocket.reynolds s')
                 (Rocket.set_cn (Rocket.cn s')
                  (Rocket.set__sign_corr (Rocket._sign_corr s')
                   (Rocket.set_component_cn (Rocket.component_cn s')
                   (Rocket.set_component_cn_alpha (Rocket.component_cn_alpha s')
                   (Rocket.set_fin (Rocket.fin s')
                   (Rocket.set_cn_alpha_og (Rocket.cn_alpha_og s')
                   (Rocket.set_cn_alpha_fin_control (Rocket.cn_alpha_fin_control s')
                   (Rocket.set_cn_alpha_fin (Rocket.cn_alpha_fin s')
                   (Rocket.set_cn_alpha_control_normal (Rocket.cn_alpha_control_normal s')
                   (Rocket.set_cn_alpha_axial (Rocket.cn_alpha_axial s')
                   (Rocket.set_cp (Rocket.cp s')
                   (Rocket.set_aoa_ctrl_fin (Rocket.aoa_ctrl_fin s')
                   (Rocket.set_actuator_angle (Rocket.actuator_angle s')
                   (Rocket.set_beta (Rocket.beta s')
                   (Rocket.set_mach (Rocket.mach s')
                   (Rocket.set_v_loc_tot (Rocket.v_loc_tot s')
                   (Rocket.set_q (Rocket.q s') s)))))))))))))))))))))))))).

(** ** Configurations *)

(** A fin planform that [Fin.update] accepts: four points, the first two
    at different distances from the body. *)
Definition valid_planform (l : list (R * R)) : Prop :=
  exists p0 p1 p2 p3,
    l !! 0%nat = Some p0 /\ l !! 1%nat = Some p1
    /\ l !! 2%nat = Some p2 /\ l !! 3%nat = Some p3
    /\ snd p1 - snd p0 <> 0.

(** A body without fins. *)
Definition body_data (ogive : bool) (l : list (R * R)) : rocket_data :=
  {| d_ogive := ogive; d_use_fins := false; d_fin0_attached := true;
     d_use_fins_control := false; d_fin1_attached := true;
     d_rocket_dim := l; d_fin0 := Rocket.zero_fin;
     d_fin1 := Rocket.zero_fin |}.

(** A cone of length [x1] on a cylinder of diameter [d] that ends at
    [x2]. *)
Definition cone_cylinder (x1 x2 d : R) : list (R * R) :=
  [(0, 0); (x1, d); (x2, d)].

(** A body whose second segment has the length zero: a step from the
    diameter [0.1] to the diameter [0.2] at the position [1]. *)
Definition stepped_body : list (R * R) :=
  [(0, 0); (1, 0.1); (1, 0.2); (3, 0.2)].

(** The example body with two sets of fins of the same planform, the
    second one for control. *)
Definition example_planform : list (R * R) :=
  [(2.5, 0.05); (2.7, 0.15); (2.9, 0.15); (3, 0.05)].

Definition finned_data : rocket_data :=
  {| d_ogive := false; d_use_fins := true; d_fin0_attached := true;
     d_use_fins_control := true; d_fin1_attached := true;
     d_rocket_dim := example_body; d_fin0 := example_planform;
     d_fin1 := example_planform |}.

(** The planform area of the cone-cylinder, and its normal-force
    coefficient at the angle [aoa]: the potential-flow term of the cone and
    the crossflow term of the planform, at the angle that the solver works
    with, with the sign of the convention. *)
Definition cone_cylinder_planform (ogive : bool) (x1 x2 d : R) : R :=
  (if ogive then 2 / 3 * x1 * d else x1 * (d / 2)) + (x2 - x1) * d.

Definition cone_cylinder_cn (ogive : bool) (x1 x2 d aoa : R) : R :=
  Rocket.__sign_correction aoa
  * (2 * sin (effective_aoa aoa)
     + 1.1 * (cone_cylinder_planform ogive x1 x2 d / (PI * (d / 2) ^ 2))
       * sin (effective_aoa aoa) ^ 2).

(** ** Fins in use *)

(** The flags of an airfoil as the constructor sets them; no method
    assigns them. *)
Definition default_plate (a : Airfoil.t) : Prop :=
  Airfoil.use_2pi a = false
  /\ Airfoil.use_windtunel a = false
  /\ Airfoil.use_windtunnel_modified a = true.

(** A fin whose slope can be computed: its airfoil has the flags of the
    constructor, its aspect ratio is positive, and its sweepback angle is
    an arc tangent. *)
Definition fin_ready (f : Fin.t) : Prop :=
  default_plate (Fin.flat_plate f)
  /\ 0 < Fin.aspect_ratio f
  /\ - PI / 2 < Fin.sb_angle f < PI / 2.

(** [f'] is [f] up to the attributes that [calculate_cn_alpha] assigns. *)
Definition fin_frame (f f' : Fin.t) : Prop :=
  f' = Fin.set_cn_alpha (Fin.cn_alpha f')
         (Fin.set_cn_alpha_0 (Fin.cn_alpha_0 f')
            (Fin.set_ca (Fin.ca f')
               (Fin.set_cn0 (Fin.cn0 f')
                  (Fin.set_flat_plate (Fin.flat_plate f')
                     (Fin.set_mach (Fin.mach f')
                        (Fin.set_beta (Fin.beta f') f)))))).

(** A fin that [_fin_cn] can use: its slope can be computed, and its
    planform is stored, with a first point whose distance from the axis and
    the span do not add up to zero. *)
Definition fin_mounted (f : Fin.t) : Prop :=
  fin_ready f
  /\ exists l p,
       Fin.dim f = Some l /\ l !! 0%nat = Some p
       /\ Fin.wingspan f + snd p <> 0.

Definition fins_ready (self : Rocket.t) : Prop :=
  fin_mounted (fst (Rocket.fin self)) /\ fin_mounted (snd (Rocket.fin self)).

(** A planform with a span and an area, outside the axis: the second
    point is farther from the axis than the first one, which is not inside
    it, and the chords add up to a positive length. *)
Definition lifting_planform (l : list (R * R)) : Prop :=
  exists p0 p1 p2 p3,
    l !! 0%nat = Some p0 /\ l !! 1%nat = Some p1
    /\ l !! 2%nat = Some p2 /\ l !! 3%nat = Some p3
    /\ 0 <= snd p0
    /\ 0 < snd p1 - snd p0
    /\ 0 < (fst p3 - fst p0) + (fst p2 - fst p1).

(** ** Queries *)

(** The first segment of the body has a length: its two stations are at
    different positions. *)
Definition first_segment_has_length (l : list (R * R)) : Prop :=
  exists p0 p1,
    l !! 0%nat = Some p0 /\ l !! 1%nat = Some p1 /\ fst p1 - fst p0 <> 0.

(** A rocket that can be queried: configured, with a first segment that
    has a length and, where fins are in use, with fins whose slopes can be
    computed. *)
Definition ready (self : Rocket.t) : Prop :=
  configured self
  /\ first_segment_has_length (Rocket.rocket_dim self)
  /\ (Rocket.use_fins self = true -> fins_ready self).

(** The arguments of one call of [calculate_aero_coef]. *)
Record query : Type := mk_query {
  q_aoa : R;
  q_v_loc_tot : R * R;
  q_rho : R;
  q_mu : R;
  q_mach : R;
  q_actuator_angle : R;
  q_q : R
}.

Definition evaluate (qy : query) (self : Rocket.t)
    : result (Rocket.t * (R * R * R)) :=
  Rocket.calculate_aero_coef (q_aoa qy) (q_v_loc_tot qy) (q_rho qy)
    (q_mu qy) (q_mach qy) (q_actuator_angle qy) (q_q qy) self.

(** Calls [calculate_aero_coef] once per query, in order, on the rocket as
    the call before left it, and collects what the calls return. *)
Fixpoint run_queries (qs : list query) (self : Rocket.t)
    : result (Rocket.t * list (R * R * R)) :=
  match qs with
  | [] => Ok (self, [])
  | qy :: rest =>
      r <- evaluate qy self ;;
      rs <- run_queries rest (fst r) ;;
      Ok (fst rs, snd r :: snd rs)
  end.

(** A query in air of non-zero viscosity, at a Mach number of at most [1];
    with fins in use, below Mach [1], at an angle of attack of at most
    [3 / 2] radians that differs from the angle of the actuator by at most
    as much, but not by [0]. *)
Definition valid_query (fins : bool) (qy : query) : Prop :=
  q_mu qy <> 0
  /\ q_mach qy ^ 2 <= 1
  /\ (fins = true ->
      q_mach qy ^ 2 < 1
      /\ Rabs (q_aoa qy) <= 3 / 2
      /\ q_aoa qy - q_actuator_angle qy <> 0
      /\ Rabs (q_aoa qy - q_actuator_angle qy) <= 3 / 2).

(** Fins that [update_rocket] can put to use on the rocket [self]: the
    airfoils of its two fins have the flags of the constructor, and the
    planforms of the data are lifting ones. *)
Definition valid_fins (l : rocket_data) (self : Rocket.t) : Prop :=
  default_plate (Fin.flat_plate (fst (Rocket.fin self)))
  /\ default_plate (Fin.flat_plate (snd (Rocket.fin self)))
  /\ lifting_planform (d_fin0 l)
  /\ (d_use_fins_control l = true -> lifting_planform (d_fin1 l)).

(** * Properties *)

(** ** The error monad and loops *)

Lemma bind_Ok {A B : Type} (m : result A) (k : A -> result B) (b : B) :
  bind m k = Ok b -> exists a, m = Ok a /\ k a = Ok b.
Proof.
  destruct m as [a|e]; simpl; intros H; [eauto | discriminate].
Qed.

(** Inverts every [bind _ _ = Ok _] among the hypotheses. *)
Ltac bind_inv :=
  repeat match goal with
  | H : bind ?m ?k = Ok ?b |- _ =>
      let a := fresh "a" in
      let Ha := fresh "Ha" in
      apply bind_Ok in H; destruct H as (a & Ha & H)
  | H : Ok _ = Ok _ |- _ => injection H as H
  | H : Raise _ = Ok _ |- _ => discriminate H
  end.

(** ** Pad latch *)

Lemma is_in_the_pad_off (alt : R) (self : Rocket.t) :
  Rocket.is_in_the_pad_flag self = false ->
  Rocket.is_in_the_pad alt self = (self, false).
Proof.
  intros H. unfold Rocket.is_in_the_pad. rewrite H.
  destruct (Rgt_dec alt 0.2); simpl; now rewrite H.
Qed.

Lemma pad_calls_off (alts : list R) (self : Rocket.t) :
  Rocket.is_in_the_pad_flag self = false ->
  pad_calls alts self = (self, replicate (List.length alts) false).
Proof.
  intros H. induction alts as [|alt rest IH]; cbn [pad_calls]; [reflexivity|].
  rewrite (is_in_the_pad_off alt self H). cbn [fst snd]. now rewrite IH.
Qed.

Lemma is_in_the_pad_on (alt : R) (self : Rocket.t) :
  Rocket.is_in_the_pad_flag self = true ->
  Rocket.is_in_the_pad alt self =
    if Rgt_dec alt 0.2
    then (Rocket.set_is_in_the_pad_flag false self, false)
    else (self, true).
Proof.
  intros H. unfold Rocket.is_in_the_pad. rewrite H.
  destruct (Rgt_dec alt 0.2); simpl; [reflexivity | now rewrite H].
Qed.

(** C9.  From a state whose flag is set, a run of [is_in_the_pad] calls
    returns [True] for the altitudes before the first one above [0.2] and
    [False] for that call and every later one, whatever the later altitudes
    are; with the flag clear every call returns [False]; the flag after the
    run is set only if it was set and no altitude was above [0.2]; and
    [reset_variables] sets the flag again. *)
Theorem is_in_the_pad_one_way_latch (alts : list R) (self : Rocket.t) :
  let n := List.length alts in
  let k := on_pad_prefix alts in
  snd (pad_calls alts self) =
    (if Rocket.is_in_the_pad_flag self
     then replicate k true ++ replicate (n - k) false
     else replicate n false)
  /\ Rocket.is_in_the_pad_flag (fst (pad_calls alts self)) =
       (Rocket.is_in_the_pad_flag self && (k =? n)%nat)
  /\ Rocket.is_in_the_pad_flag (Rocket.reset_variables self) = true.
Proof.
  cbv zeta. split; [|split]; [| |reflexivity].
  - revert self. induction alts as [|alt rest IH]; intros self.
    + simpl. now destruct (Rocket.is_in_the_pad_flag self).
    + destruct (Rocket.is_in_the_pad_flag self) eqn:Hf.
      * cbn [pad_calls on_pad_prefix List.length].
        rewrite (is_in_the_pad_on alt self Hf).
        destruct (Rgt_dec alt 0.2) as [Hgt|Hle]; cbn [fst snd].
        -- rewrite pad_calls_off by reflexivity. reflexivity.
        -- rewrite IH, Hf. reflexivity.
      * rewrite pad_calls_off by exact Hf. reflexivity.
  - revert self. induction alts as [|alt rest IH]; intros self.
    + simpl. now destruct (Rocket.is_in_the_pad_flag self).
    + destruct (Rocket.is_in_the_pad_flag self) eqn:Hf.
      * cbn [pad_calls on_pad_prefix List.length].
        rewrite (is_in_the_pad_on alt self Hf).
        destruct (Rgt_dec alt 0.2) as [Hgt|Hle]; cbn [fst snd].
        -- rewrite pad_calls_off by reflexivity. reflexivity.
        -- rewrite IH, Hf. reflexivity.
      * rewrite pad_calls_off by exact Hf. simpl. exact Hf.
Qed.

(** ** [np.interp] and the motor curve *)

Lemma np_interp_cons (x x0 f0 : R) (xp fp : list R) :
  List.length xp = List.length fp ->
  np_interp x (x0 :: xp) (f0 :: fp) =
    Ok (if Rlt_dec x x0 then f0 else interp_scan x x0 f0 xp fp).
Proof.
  intros H. unfold np_interp. rewrite H, Nat.eqb_refl. reflexivity.
Qed.

Lemma np_interp_empty (x : R) (fp : list R) :
  np_interp x [] fp = Raise ValueError.
Proof. reflexivity. Qed.

(** From the sample [(x0, f0)] on, with [x0 <= x]: the scan ends on the
    last sample or inside a segment. *)
Lemma interp_scan_spec (x : R) (xp fp : list R) :
  forall x0 f0,
    List.length xp = List.length fp ->
    Sorted Rle (x0 :: xp) ->
    x0 <= x ->
    let y := interp_scan x x0 f0 xp fp in
    (exists xn fn,
        last (x0 :: xp) = Some xn /\ last (f0 :: fp) = Some fn /\
        xn <= x /\ y = fn)
    \/ (exists j xj xj1 fj fj1,
        (x0 :: xp) !! j = Some xj /\ (x0 :: xp) !! S j = Some xj1 /\
        (f0 :: fp) !! j = Some fj /\ (f0 :: fp) !! S j = Some fj1 /\
        xj <= x < xj1 /\
        y = (fj1 - fj) / (xj1 - xj) * (x - xj) + fj).
Proof.
  revert fp. induction xp as [|x1 xp IH]; intros fp x0 f0 Hlen Hsort Hx.
  - destruct fp; [|discriminate]. left. exists x0, f0. simpl. auto.
  - destruct fp as [|f1 fp]; [discriminate|]. cbn [interp_scan].
    destruct (Rlt_dec x x1) as [Hlt|Hge].
    + right. exists 0%nat, x0, x1, f0, f1. simpl. repeat split; auto.
    + apply Sorted_inv in Hsort as [Hsort _].
      injection Hlen as Hlen.
      destruct (IH fp x1 f1 Hlen Hsort ltac:(lra)) as
        [(xn & fn & H1 & H2 & H3 & H4)
        |(j & xj & xj1 & fj & fj1 & H1 & H2 & H3 & H4 & H5 & H6)].
      * left. exists xn, fn. repeat split; auto.
      * right. exists (S j), xj, xj1, fj, fj1. repeat split; auto; apply H5.
Qed.

Lemma np_interp_spec (x : R) (xp fp : list R) :
  xp <> [] ->
  List.length xp = List.length fp ->
  Sorted Rle xp ->
  exists y, np_interp x xp fp = Ok y /\ clamped_pwl xp fp x y.
Proof.
  intros Hne Hlen Hsort.
  destruct xp as [|x0 xp]; [congruence|].
  destruct fp as [|f0 fp]; [discriminate|].
  injection Hlen as Hlen. rewrite (np_interp_cons _ _ _ _ _ Hlen).
  eexists; split; [reflexivity|].
  destruct (Rlt_dec x x0) as [Hlt|Hge].
  - left. exists x0, f0. auto.
  - right. apply interp_scan_spec; auto. lra.
Qed.

(** C8, amended.  For a motor curve with at least one sample, as many
    thrusts as times, and non-decreasing times, [get_thrust] returns the
    larger of [0.001] and the value [y] at [t - t_launch] of the
    piecewise-linear curve through the samples, held constant outside them;
    so the result is never below [0.001], and before the first sample time
    [y] is the first sample's thrust. *)
Theorem get_thrust_interp_floor (t_now t_launch : R) (self : Rocket.t) :
  let xp := fst (Rocket.motor self) in
  let fp := snd (Rocket.motor self) in
  xp <> [] ->
  List.length xp = List.length fp ->
  Sorted Rle xp ->
  exists self' y,
    Rocket.get_thrust t_now t_launch self = Ok (self', Rmax 0.001 y)
    /\ clamped_pwl xp fp (t_now - t_launch) y
    /\ 0.001 <= Rmax 0.001 y
    /\ (forall x0 f0,
          xp !! 0%nat = Some x0 -> fp !! 0%nat = Some f0 ->
          t_now - t_launch < x0 -> y = f0).
Proof.
  intros xp fp Hne Hlen Hsort.
  destruct (np_interp_spec (t_now - t_launch) xp fp Hne Hlen Hsort)
    as (y & Hy & Hpwl).
  unfold Rocket.get_thrust. fold xp fp. rewrite Hy. cbn [bind].
  eexists _, y. split; [|split; [exact Hpwl|split]].
  - f_equal. f_equal. cbn [Rocket.thrust Rocket.set_thrust].
    unfold Rmax. destruct (Rlt_dec y 0.001), (Rle_dec 0.001 y);
      cbn [Rocket.thrust Rocket.set_thrust]; try reflexivity; lra.
  - apply Rmax_l.
  - intros x0 f0 Hx0 Hf0 Hlt.
    destruct xp as [|x0' xp']; [discriminate|].
    destruct fp as [|f0' fp']; [discriminate|].
    injection Hx0 as ->. injection Hf0 as ->. injection Hlen as Hlen.
    rewrite (np_interp_cons _ _ _ _ _ Hlen) in Hy.
    destruct (Rlt_dec (t_now - t_launch) x0); [|lra]. congruence.
Qed.

Lemma get_thrust_interp_floor_witness :
  ([0; 2] <> [] /\ List.length [0; 2] = List.length [0; 10]
   /\ Sorted Rle [0; 2]) /\
  exists self' y,
    Rocket.get_thrust 1 0 (Rocket.set_motor ([0; 2], [0; 10]) fresh_rocket)
      = Ok (self', Rmax 0.001 y)
    /\ clamped_pwl [0; 2] [0; 10] (1 - 0) y.
Proof.
  assert (Hs : Sorted Rle [0; 2]) by (repeat constructor; lra).
  split; [split; [discriminate | split; [reflexivity | exact Hs]]|].
  destruct (get_thrust_interp_floor 1 0
              (Rocket.set_motor ([0; 2], [0; 10]) fresh_rocket))
    as (self' & y & H1 & H2 & _).
  - discriminate.
  - reflexivity.
  - exact Hs.
  - exists self', y. split; [exact H1 | exact H2].
Defined.

(** C8 as stated fails: with the curve [(0, 0), (1, 10)] and a query one
    second before ignition, the first sample's thrust is [0] and
    [get_thrust] returns [0.001]. *)
Lemma get_thrust_first_sample_counterexample :
  let self := Rocket.set_motor ([0; 1], [0; 10]) fresh_rocket in
  snd (Rocket.motor self) !! 0%nat = Some 0
  /\ (exists self', Rocket.get_thrust (-1) 0 self = Ok (self', 0.001))
  /\ 0.001 <> 0.
Proof.
  cbv zeta. split; [reflexivity|]. split; [|lra].
  unfold Rocket.get_thrust.
  cbn [Rocket.set_motor Rocket.motor Rocket.assign_motor fst snd fresh_rocket
       Rocket.__init__].
  rewrite np_interp_cons by reflexivity.
  destruct (Rlt_dec (-1 - 0) 0) as [_|H]; [|exfalso; lra].
  cbn [bind Rocket.thrust Rocket.set_thrust].
  destruct (Rlt_dec 0 0.001) as [_|H]; [|exfalso; lra].
  cbn [Rocket.thrust Rocket.set_thrust]. eexists. reflexivity.
Qed.

(** C10.  After [Rocket()] and after [reset_variables] the motor curve is
    a pair of empty lists, [burnout_time] raises [IndexError] and
    [get_thrust] raises (the [ValueError] of [np.interp] on an empty sample
    array); once [set_motor] has stored a curve of at least one sample,
    [burnout_time] returns its last time and [get_thrust] returns a
    value. *)
Theorem empty_motor_raises (fins : Fin.t * Fin.t) (out : list string)
    (self : Rocket.t) (t_now t_launch : R) (p : R * R) (pts : list (R * R)) :
  (Rocket.motor (Rocket.__init__ fins out) = ([], [])
   /\ Rocket.burnout_time (Rocket.__init__ fins out) = Raise IndexError
   /\ Rocket.get_thrust t_now t_launch (Rocket.__init__ fins out)
        = Raise ValueError)
  /\ (Rocket.motor (Rocket.reset_variables self) = ([], [])
      /\ Rocket.burnout_time (Rocket.reset_variables self) = Raise IndexError
      /\ Rocket.get_thrust t_now t_launch (Rocket.reset_variables self)
           = Raise ValueError)
  /\ (let curve := (map fst (p :: pts), map snd (p :: pts)) in
      (exists v, last (fst curve) = Some v
                 /\ Rocket.burnout_time (Rocket.set_motor curve self) = Ok v)
      /\ (exists r, Rocket.get_thrust t_now t_launch
                      (Rocket.set_motor curve self) = Ok r)).
Proof.
  split; [|split].
  - repeat split.
  - repeat split.
  - cbv zeta. split.
    + unfold Rocket.burnout_time, py_last.
      cbn [Rocket.set_motor Rocket.motor Rocket.assign_motor fst snd].
      destruct (last (map fst (p :: pts))) as [v|] eqn:Hl.
      * exists v. split; reflexivity.
      * apply last_None in Hl. discriminate.
    + unfold Rocket.get_thrust.
      cbn [Rocket.set_motor Rocket.motor Rocket.assign_motor fst snd map].
      rewrite np_interp_cons by now rewrite !length_map.
      cbn [bind]. eexists. reflexivity.
Qed.

(** ** Airfoil *)

Lemma np_interp_from_origin (x x1 f1 : R) (xp fp : list R) :
  List.length xp = List.length fp ->
  0 < x1 ->
  exists v, np_interp x (0.0 :: x1 :: xp) (0.0 :: f1 :: fp) = Ok v
            /\ (x = 0 -> v = 0).
Proof.
  intros Hlen Hx1. rewrite np_interp_cons by (simpl; congruence).
  eexists; split; [reflexivity|]. intros ->.
  destruct (Rlt_dec 0 0.0) as [H|_]; [exfalso; lra|].
  cbn [interp_scan]. destruct (Rlt_dec 0 x1) as [_|H]; [|exfalso; lra].
  lra.
Qed.

Lemma Airfoil_cl_tables (x : R) (self : Airfoil.t) :
  Airfoil.use_windtunel self = true
  \/ Airfoil.use_windtunnel_modified self = true ->
  exists xp fp v,
    (if Airfoil.use_windtunel self then Ok (Airfoil.aoa_cl, Airfoil.cl_list)
     else if Airfoil.use_windtunnel_modified self
          then Ok (Airfoil.aoa_cl_modified, Airfoil.cl_list_modified)
          else Raise UnboundLocalError) = Ok (xp, fp)
    /\ np_interp x xp fp = Ok v /\ (x = 0 -> v = 0).
Proof.
  intros Hflags.
  destruct (Airfoil.use_windtunel self);
    [|destruct (Airfoil.use_windtunnel_modified self);
      [|destruct Hflags; discriminate]].
  - destruct (np_interp_from_origin x 0.08386924860853417 0.5363636363636364
                (tail (tail Airfoil.aoa_cl)) (tail (tail Airfoil.cl_list)))
      as (v & Hv & H0); [reflexivity | lra |].
    exists Airfoil.aoa_cl, Airfoil.cl_list, v. auto.
  - destruct (np_interp_from_origin x 0.13658937500000003 0.7739130434782606
                (tail (tail Airfoil.aoa_cl_modified))
                (tail (tail Airfoil.cl_list_modified)))
      as (v & Hv & H0); [reflexivity | lra |].
    exists Airfoil.aoa_cl_modified, Airfoil.cl_list_modified, v. auto.
Qed.

Lemma Airfoil_cd_table (x : R) :
  exists v, np_interp x Airfoil.aoa_cd Airfoil.cd_list = Ok v.
Proof.
  unfold Airfoil.aoa_cd, Airfoil.cd_list.
  rewrite np_interp_cons by reflexivity. eexists. reflexivity.
Qed.

(** What [_calculate_cn_ca] stores, in terms of the lift and drag [cl] and
    [cd] read from the tables at [Rabs aoa]; they do not depend on the sign
    of [aoa], and [cl] is [0] at [aoa = 0]. *)
Lemma Airfoil_calculate_cn_ca_Ok (aoa : R) (self : Airfoil.t) :
  Airfoil.use_windtunel self = true
  \/ Airfoil.use_windtunnel_modified self = true ->
  exists cl cd : R,
    (aoa = 0 -> cl = 0)
    /\ forall a : R, Rabs a = Rabs aoa ->
       exists self' : Airfoil.t,
         Airfoil._calculate_cn_ca a self = Ok self'
         /\ Airfoil.cn self' =
              Airfoil.__sign_correction a
              * (cl * cos (Rabs a) + cd * sin (Rabs a))
         /\ Airfoil.ca self' = - cl * sin (Rabs a) + cd * cos (Rabs a)
         /\ Airfoil.use_2pi self' = Airfoil.use_2pi self.
Proof.
  intros Hflags.
  destruct (Airfoil_cl_tables (Rabs aoa) self Hflags)
    as (xp & fp & cl & Htab & Hcl & Hcl0).
  destruct (Airfoil_cd_table (Rabs aoa)) as (cd & Hcd).
  exists cl, cd. split.
  - intros ->. apply Hcl0, Rabs_R0.
  - intros a Ha. unfold Airfoil._calculate_cn_ca.
    cbn [Airfoil.use_windtunel Airfoil.use_windtunnel_modified Airfoil.set_x
         Airfoil.set__sign Airfoil.x].
    rewrite Htab, Ha. cbn [bind]. rewrite Hcl.
    cbn [bind Airfoil.x Airfoil.set_cl Airfoil.set_x Airfoil.set__sign].
    rewrite Hcd. cbn [bind]. eexists. split; [reflexivity|].
    repeat split.
Qed.

Lemma Airfoil_sign_correction_opp (a : R) :
  a <> 0 -> Airfoil.__sign_correction (- a) = - Airfoil.__sign_correction a.
Proof.
  intros Ha. unfold Airfoil.__sign_correction.
  destruct (Rge_dec (- a) 0), (Rge_dec a 0); lra.
Qed.

Lemma Airfoil_calculate_cn_alpha_Ok (a : R) (self : Airfoil.t) :
  a <> 0 ->
  exists self',
    Airfoil._calculate_cn_alpha a self = Ok self'
    /\ Airfoil.cn self' = Airfoil.cn self
    /\ Airfoil.ca self' = Airfoil.ca self
    /\ Airfoil.cn_alpha self' =
         (if Airfoil.use_2pi self then 2 * PI else Airfoil.cn self / a).
Proof.
  intros Ha. unfold Airfoil._calculate_cn_alpha, np_div.
  destruct (Req_dec_T a 0) as [H|_]; [contradiction|]. cbn [bind].
  destruct (Airfoil.use_2pi self);
    (eexists; split; [reflexivity|]; repeat split).
Qed.

(** C2.  For an airfoil that reads one of the wind-tunnel tables (the
    constructor selects the modified one) and every angle [a]: the axial
    coefficient that [_calculate_cn_ca] computes at [a] equals the one at
    [-a], and the normal coefficient at [a] is the opposite of the one at
    [-a]; for [a <> 0] the same holds of the coefficients that
    [get_aero_coef] returns. *)
Theorem Airfoil_ca_even_cn_odd (a : R) (self : Airfoil.t) :
  Airfoil.use_windtunel self = true
  \/ Airfoil.use_windtunnel_modified self = true ->
  (exists s1 s2,
      Airfoil._calculate_cn_ca a self = Ok s1
      /\ Airfoil._calculate_cn_ca (- a) self = Ok s2
      /\ Airfoil.ca s1 = Airfoil.ca s2
      /\ Airfoil.cn s1 = - Airfoil.cn s2)
  /\ (a <> 0 ->
      exists s1 s2 cn1 ca1 slope1 cn2 ca2 slope2,
        Airfoil.get_aero_coef a self = Ok (s1, (cn1, ca1, slope1))
        /\ Airfoil.get_aero_coef (- a) self = Ok (s2, (cn2, ca2, slope2))
        /\ ca1 = ca2
        /\ cn1 = - cn2).
Proof.
  intros Hflags.
  destruct (Airfoil_calculate_cn_ca_Ok a self Hflags) as (cl & cd & H0 & Hall).
  destruct (Hall a eq_refl) as (s1 & Hs1 & Hcn1 & Hca1 & _).
  destruct (Hall (- a) (Rabs_Ropp a)) as (s2 & Hs2 & Hcn2 & Hca2 & _).
  rewrite Rabs_Ropp in Hcn2, Hca2.
  assert (Hca : Airfoil.ca s1 = Airfoil.ca s2) by congruence.
  assert (Hcn : Airfoil.cn s1 = - Airfoil.cn s2).
  { rewrite Hcn1, Hcn2. destruct (Req_dec_T a 0) as [->|Ha].
    - rewrite (H0 eq_refl), Rabs_R0, sin_0. ring.
    - rewrite (Airfoil_sign_correction_opp a Ha). ring. }
  split.
  - exists s1, s2. auto.
  - intros Ha. unfold Airfoil.get_aero_coef. rewrite Hs1, Hs2. cbn [bind].
    destruct (Airfoil_calculate_cn_alpha_Ok a s1 Ha) as (t1 & Ht1 & E1 & E2 & _).
    destruct (Airfoil_calculate_cn_alpha_Ok (- a) s2 ltac:(lra))
      as (t2 & Ht2 & E3 & E4 & _).
    rewrite Ht1, Ht2. cbn [bind].
    do 8 eexists. split; [reflexivity|]. split; [reflexivity|].
    split; congruence.
Qed.

Lemma Airfoil_ca_even_cn_odd_witness :
  (Airfoil.use_windtunel Airfoil.__init__ = true
   \/ Airfoil.use_windtunnel_modified Airfoil.__init__ = true)
  /\ exists s1 s2,
      Airfoil._calculate_cn_ca 1 Airfoil.__init__ = Ok s1
      /\ Airfoil._calculate_cn_ca (- 1) Airfoil.__init__ = Ok s2
      /\ Airfoil.ca s1 = Airfoil.ca s2
      /\ Airfoil.cn s1 = - Airfoil.cn s2.
Proof.
  split; [right; reflexivity|].
  exact (proj1 (Airfoil_ca_even_cn_odd 1 Airfoil.__init__
                  (or_intror eq_refl))).
Defined.

(** ** Loops and list accesses *)

Lemma for_loop_app {S : Type} (l1 l2 : list nat)
    (body : nat -> S -> result S) (s : S) :
  for_loop (l1 ++ l2) body s = (s' <- for_loop l1 body s ;; for_loop l2 body s').
Proof.
  revert s. induction l1 as [|i l1 IH]; intros s; cbn [for_loop app bind].
  - reflexivity.
  - destruct (body i s) as [s1|e]; cbn [bind]; [apply IH | reflexivity].
Qed.

Lemma for_range_S {S : Type} (n : nat) (body : nat -> S -> result S) (s : S) :
  for_range (Datatypes.S n) body s = (s' <- for_range n body s ;; body n s').
Proof.
  unfold for_range. rewrite seq_S, for_loop_app. cbn [Nat.add].
  destruct (for_loop (seq 0 n) body s) as [s1|e]; cbn [bind for_loop];
    [|reflexivity].
  now destruct (body n s1).
Qed.

(** A loop whose body keeps an invariant and does not raise, does not
    raise and ends in the invariant. *)
Lemma for_range_total {S : Type} (I : nat -> S -> Prop) (n : nat)
    (body : nat -> S -> result S) (s : S) :
  I 0%nat s ->
  (forall i s, (i < n)%nat -> I i s ->
     exists s', body i s = Ok s' /\ I (Datatypes.S i) s') ->
  exists s', for_range n body s = Ok s' /\ I n s'.
Proof.
  intros H0 Hstep. induction n as [|n IH].
  - exists s. split; [reflexivity | exact H0].
  - destruct IH as (s1 & Hs1 & HI1).
    { intros i s2 Hi. apply Hstep. lia. }
    destruct (Hstep n s1 ltac:(lia) HI1) as (s2 & Hs2 & HI2).
    exists s2. rewrite for_range_S, Hs1. cbn [bind]. auto.
Qed.

(** A loop that returns, ends in every invariant of its body. *)
Lemma for_range_partial {S : Type} (I : nat -> S -> Prop) (n : nat)
    (body : nat -> S -> result S) (s s' : S) :
  for_range n body s = Ok s' ->
  I 0%nat s ->
  (forall i s s', (i < n)%nat -> I i s -> body i s = Ok s' ->
     I (Datatypes.S i) s') ->
  I n s'.
Proof.
  revert s'. induction n as [|n IH]; intros s' Hrun H0 Hstep.
  - injection Hrun as <-. exact H0.
  - rewrite for_range_S in Hrun. apply bind_Ok in Hrun as (s1 & Hs1 & Hs2).
    apply (Hstep n s1 s' ltac:(lia)); [|exact Hs2].
    apply IH; [exact Hs1 | exact H0 |].
    intros i s2 s3 Hi. apply Hstep. lia.
Qed.

Lemma py_get_Ok {A : Type} (l : list A) (i : nat) (a : A) :
  l !! i = Some a -> py_get l i = Ok a.
Proof. intros H. unfold py_get. now rewrite H. Qed.

Lemma py_get_lt {A : Type} (l : list A) (i : nat) :
  (i < List.length l)%nat -> exists a, l !! i = Some a /\ py_get l i = Ok a.
Proof.
  intros H. destruct (lookup_lt_is_Some_2 l i H) as (a & Ha).
  exists a. split; [exact Ha | now apply py_get_Ok].
Qed.

Lemma py_get_inv {A : Type} (l : list A) (i : nat) (a : A) :
  py_get l i = Ok a -> l !! i = Some a.
Proof. unfold py_get. destruct (l !! i); congruence. Qed.

Lemma py_set_Ok {A : Type} (l : list A) (i : nat) (v : A) :
  (i < List.length l)%nat -> py_set l i v = Ok (<[i := v]> l).
Proof.
  intros H. unfold py_set. apply Nat.ltb_lt in H. now rewrite H.
Qed.

Lemma py_set_inv {A : Type} (l l' : list A) (i : nat) (v : A) :
  py_set l i v = Ok l' -> (i < List.length l)%nat /\ l' = <[i := v]> l.
Proof.
  unfold py_set. destruct (Nat.ltb_spec i (List.length l)); [|discriminate].
  intros H'. injection H' as <-. auto.
Qed.

Lemma py_last_Ok {A : Type} (l : list A) :
  l <> [] -> exists a, last l = Some a /\ py_last l = Ok a.
Proof.
  intros H. unfold py_last. destruct (last l) as [a|] eqn:Hl.
  - eauto.
  - apply last_None in Hl. contradiction.
Qed.

Lemma py_last_inv {A : Type} (l : list A) (a : A) :
  py_last l = Ok a -> last l = Some a.
Proof. unfold py_last. destruct (last l); congruence. Qed.

Lemma py_div_Ok (a b : R) : b <> 0 -> py_div a b = Ok (a / b).
Proof. intros H. unfold py_div. now destruct (Req_dec_T b 0). Qed.

Lemma py_div_inv (a b v : R) : py_div a b = Ok v -> b <> 0 /\ v = a / b.
Proof.
  unfold py_div. destruct (Req_dec_T b 0); [discriminate|].
  intros H. injection H as <-. auto.
Qed.

Lemma np_div_Ok (a b : R) : b <> 0 -> np_div a b = Ok (a / b).
Proof. intros H. unfold np_div. now destruct (Req_dec_T b 0). Qed.

Lemma np_div_inv (a b v : R) : np_div a b = Ok v -> b <> 0 /\ v = a / b.
Proof.
  unfold np_div. destruct (Req_dec_T b 0); [discriminate|].
  intros H. injection H as <-. auto.
Qed.

Lemma np_div_zero (a : R) : np_div a 0 = Raise NumpyInvalid.
Proof. unfold np_div. destruct (Req_dec_T 0 0); [reflexivity | congruence]. Qed.

Lemma np_sqrt_Ok (a : R) : 0 <= a -> np_sqrt a = Ok (sqrt a).
Proof. intros H. unfold np_sqrt. destruct (Rlt_dec a 0); [lra | reflexivity]. Qed.

Lemma np_sqrt_inv (a v : R) : np_sqrt a = Ok v -> 0 <= a /\ v = sqrt a.
Proof.
  unfold np_sqrt. destruct (Rlt_dec a 0); [discriminate|].
  intros H. injection H as <-. split; [lra | reflexivity].
Qed.

(** ** Rockets in constructor form *)

(** A rocket built by many setters is, unfolded, a constructor whose
    fifty-six arguments each mention the rocket inside; such terms are
    expensive to compare.  The proofs therefore take the rocket apart
    ([destruct self]) and keep every state as one constructor applied to
    its attribute values: [rflat] computes the setters and projections
    away. *)
Ltac rflat :=
  cbv beta iota zeta delta [Rocket.thrust Rocket.cn Rocket._sign_corr Rocket.xcp Rocket.ca
       Rocket.cp Rocket.xcg Rocket.q_damp Rocket.motor
       Rocket.is_in_the_pad_flag Rocket.component_cn
       Rocket.component_cn_alpha Rocket.component_cm
       Rocket.station_cross_area Rocket.component_plan_area
       Rocket.component_volume Rocket.component_centroid Rocket.ogive
       Rocket.reynolds_crit Rocket.relative_rough Rocket.use_fins
       Rocket.fins_attached Rocket.use_fins_control Rocket.rocket_dim
       Rocket.max_diam Rocket.length Rocket.diameter Rocket.fineness
       Rocket.area_ref Rocket.plan_area Rocket.area_wet_component
       Rocket.area_wet_body Rocket.avg_rad_aft Rocket.avg_rad_fore
       Rocket.v_loc_tot Rocket.mach Rocket.beta Rocket.actuator_angle
       Rocket.aoa_ctrl_fin Rocket.cn_alpha_og Rocket.cn_alpha_fin_control
       Rocket.cn_alpha_control_normal Rocket.cn_alpha_fin
       Rocket.cn_alpha_axial Rocket.reynolds Rocket.Cf
       Rocket.cd_pressure_component Rocket.base_drag Rocket.cd0_friction
       Rocket.pressure_cd Rocket.base_drag_cd Rocket.cd0 Rocket.q
       Rocket.q_damp_body Rocket.fin Rocket.stdout
       Rocket.set_thrust Rocket.set_cn Rocket.set__sign_corr Rocket.set_xcp
       Rocket.set_ca Rocket.set_cp Rocket.set_xcg Rocket.assign_motor
       Rocket.set_is_in_the_pad_flag Rocket.set_component_cn
       Rocket.set_component_cn_alpha Rocket.set_component_cm
       Rocket.set_station_cross_area Rocket.set_component_plan_area
       Rocket.set_component_volume Rocket.set_component_centroid
       Rocket.set_ogive Rocket.set_reynolds_crit Rocket.set_relative_rough
       Rocket.set_use_fins Rocket.set_fins_attached
       Rocket.set_use_fins_control Rocket.set_rocket_dim Rocket.set_max_diam
       Rocket.set_length Rocket.set_diameter Rocket.set_fineness
       Rocket.set_area_ref Rocket.set_plan_area Rocket.set_area_wet_component
       Rocket.set_area_wet_body Rocket.set_avg_rad_aft
       Rocket.set_avg_rad_fore Rocket.set_v_loc_tot Rocket.set_mach
       Rocket.set_beta Rocket.set_actuator_angle Rocket.set_aoa_ctrl_fin
       Rocket.set_cn_alpha_og Rocket.set_cn_alpha_fin_control
       Rocket.set_cn_alpha_control_normal Rocket.set_cn_alpha_fin
       Rocket.set_cn_alpha_axial Rocket.set_reynolds Rocket.set_Cf
       Rocket.set_cd_pressure_component Rocket.set_base_drag
       Rocket.set_cd0_friction Rocket.set_pressure_cd
       Rocket.set_base_drag_cd Rocket.set_cd0 Rocket.set_q
       Rocket.set_q_damp_body Rocket.set_fin Rocket.set_stdout
       Rocket.__initialize] in *.

Lemma bind_ret {A B : Type} (a : A) (k : A -> result B) :
  bind (Ok a) k = k a.
Proof. reflexivity. Qed.

Lemma bind_raise {A B : Type} (e : exn) (k : A -> result B) :
  bind (Raise e) k = Raise e.
Proof. reflexivity. Qed.

(** Passes the values of the operations that returned on to the code after
    them, and flattens the rocket again. *)
Ltac rstep :=
  rflat; repeat (rewrite bind_ret; rflat); cbn [fst snd] in *.

(** Runs the loop found in the goal under the invariant [Inv]: the first
    two goals are the invariant at entry and its preservation. *)
Ltac loop_total Inv :=
  match goal with
  | |- context [for_range ?n ?body ?s] =>
      let s' := fresh "s" in
      let Hrun := fresh "Hrun" in
      let Hinv := fresh "Hinv" in
      destruct (for_range_total Inv n body s) as (s' & Hrun & Hinv);
      [ | | rewrite Hrun; clear Hrun ]
  end.

(** ** Lists of segments *)

Lemma list_eq_lookup_lt {A : Type} (a b : list A) :
  List.length a = List.length b ->
  (forall j, (j < List.length a)%nat -> a !! j = b !! j) ->
  a = b.
Proof.
  intros Hlen H. apply list_eq. intros j.
  destruct (Nat.lt_ge_cases j (List.length a)) as [Hj|Hj]; [now apply H|].
  rewrite !lookup_ge_None_2; [reflexivity | lia | lia].
Qed.

Lemma lookup_map {A B : Type} (f : A -> B) (l : list A) (i : nat) :
  map f l !! i = option_map f (l !! i).
Proof.
  revert i. induction l as [|a l IH]; intros [|i]; cbn; auto.
Qed.

Lemma length_segments (l : list (R * R)) :
  List.length (segments l) = (List.length l - 1)%nat.
Proof.
  unfold segments. rewrite length_zip_with.
  destruct l as [|p l]; [reflexivity|]. cbn [tail List.length].
  rewrite Nat.min_r by lia. lia.
Qed.

Lemma lookup_segments (l : list (R * R)) (i : nat) (p0 p1 : R * R) :
  l !! i = Some p0 -> l !! S i = Some p1 -> segments l !! i = Some (p0, p1).
Proof.
  intros H0 H1. unfold segments.
  rewrite lookup_zip_with, H0, lookup_tail, H1. reflexivity.
Qed.

Lemma lookup_segments_inv (l : list (R * R)) (i : nat)
    (s : (R * R) * (R * R)) :
  segments l !! i = Some s -> l !! i = Some (fst s) /\ l !! S i = Some (snd s).
Proof.
  unfold segments. rewrite lookup_zip_with, lookup_tail.
  destruct (l !! i) as [p0|]; [|discriminate].
  destruct (l !! S i) as [p1|]; [|discriminate].
  cbn. intros H. injection H as <-. auto.
Qed.

Lemma lookup_segments_head (l : list (R * R)) (q0 q1 : R * R) :
  l !! 0%nat = Some q0 -> l !! 1%nat = Some q1 ->
  exists rest, segments l = (q0, q1) :: rest.
Proof.
  destruct l as [|a [|b rest]]; try discriminate.
  cbn. intros H0 H1. injection H0 as ->. injection H1 as ->. eauto.
Qed.

Lemma lookup_station_lt (l : list (R * R)) (i : nat) :
  (i < List.length l - 1)%nat ->
  exists p0 p1, l !! i = Some p0 /\ l !! S i = Some p1.
Proof.
  intros Hi.
  destruct (lookup_lt_is_Some_2 l i ltac:(lia)) as (p0 & Hp0).
  destruct (lookup_lt_is_Some_2 l (S i) ltac:(lia)) as (p1 & Hp1).
  eauto.
Qed.

Lemma fold_left_Rplus_take_S (a : list R) (i : nat) (x : R) :
  a !! i = Some x ->
  fold_left Rplus (take (S i) a) 0 = fold_left Rplus (take i a) 0 + x.
Proof.
  intros H. rewrite (take_S_r _ _ _ H), fold_left_app. reflexivity.
Qed.

(** ** Body geometry *)

Lemma fold_plan_area (l : list R) (v : R) (self : Rocket.t) :
  fold_left (fun self a => Rocket.set_plan_area (Rocket.plan_area self + a) self)
    l (Rocket.set_plan_area v self) =
  Rocket.set_plan_area (fold_left Rplus l v) self.
Proof.
  destruct self. revert v. induction l as [|a l IH]; intros v; [reflexivity|].
  cbn [fold_left]. rflat. apply IH.
Qed.

Lemma compute_total_rocket_plan_area_eq (self : Rocket.t) :
  Rocket._compute_total_rocket_plan_area self =
    Rocket.set_plan_area
      (fold_left Rplus (Rocket.component_plan_area self) 0) self.
Proof.
  unfold Rocket._compute_total_rocket_plan_area.
  rewrite <- fold_plan_area. destruct self. reflexivity.
Qed.

Lemma fold_left_Rplus_zeros (n : nat) :
  fold_left Rplus (replicate n 0) 0 = 0.
Proof.
  induction n as [|n IH]; [reflexivity|]. cbn [replicate fold_left].
  rewrite Rplus_0_l. exact IH.
Qed.

(** Names the state on which the loop of the goal starts. *)
Ltac loop_state S0 :=
  match goal with
  | |- context [for_range _ _ ?s] => pose (S0 := s)
  end.

(** [_calculate_wet_area_body] never raises: it stores the lateral areas of
    the frusta and their sum. *)
Lemma calculate_wet_area_body_eq (self : Rocket.t) :
  Rocket._calculate_wet_area_body self =
    Ok (Rocket.set_area_wet_body
          (fold_left Rplus
             (map frustum_wet_area (segments (Rocket.rocket_dim self))) 0)
          (Rocket.set_area_wet_component
             (map frustum_wet_area (segments (Rocket.rocket_dim self)))
             self)).
Proof.
  destruct self. unfold Rocket._calculate_wet_area_body. rflat.
  set (l := rocket_dim). set (F := map frustum_wet_area (segments l)).
  assert (HF : List.length F = (List.length l - 1)%nat)
    by (unfold F; rewrite length_map; apply length_segments).
  rewrite length_replicate. loop_state S0.
  loop_total (fun (i : nat) (s : Rocket.t) =>
    exists a, s = Rocket.set_area_wet_component a S0
              /\ List.length a = (List.length l - 1)%nat
              /\ forall j, (j < i)%nat -> a !! j = F !! j).
  - exists (replicate (List.length l - 1) 0). subst S0. rflat.
    split; [reflexivity|]. split; [apply length_replicate | lia].
  - intros i s Hi (a & -> & Ha & Hlook). subst S0. rflat.
    destruct (lookup_station_lt l i Hi) as (p0 & p1 & Hp0 & Hp1).
    rewrite Nat.add_1_r, (py_get_Ok _ _ _ Hp1), (py_get_Ok _ _ _ Hp0). rstep.
    rewrite np_sqrt_Ok by (apply Rplus_le_le_0_compat; apply pow2_ge_0).
    rstep. rewrite py_set_Ok by lia. rstep.
    eexists. split; [reflexivity|]. eexists. split; [reflexivity|].
    split; [rewrite length_insert; exact Ha|].
    intros j Hj. destruct (Nat.eq_dec j i) as [->|Hne].
    + rewrite list_lookup_insert_eq by lia. unfold F.
      rewrite lookup_map, (lookup_segments _ _ _ _ Hp0 Hp1).
      reflexivity.
    + rewrite list_lookup_insert_ne by lia. apply Hlook. lia.
  - destruct Hinv as (a & -> & Ha & Hlook). subst S0. rstep.
    assert (a = F) as ->
      by (apply list_eq_lookup_lt; [lia | intros j Hj; apply Hlook; lia]).
    clear Ha Hlook. rewrite HF. loop_state S0.
    loop_total (fun (i : nat) (s : Rocket.t) =>
      s = Rocket.set_area_wet_body (fold_left Rplus (take i F) 0) S0).
    + subst S0. rflat. reflexivity.
    + intros i s Hi ->. subst S0. rflat.
      destruct (py_get_lt F i ltac:(lia)) as (x & Hx & ->). rstep.
      eexists. split; [reflexivity|].
      rewrite (fold_left_Rplus_take_S _ _ _ Hx). reflexivity.
    + subst s S0. rflat. rewrite <- HF, firstn_all. reflexivity.
Qed.

Lemma length_ogive_override (ogive : bool) (l : list (R * R))
    (f : (R * R) * (R * R) -> R) (a : list R) :
  List.length (ogive_override ogive l f a) = List.length a.
Proof.
  unfold ogive_override. destruct ogive, (segments l);
    rewrite ?length_insert; reflexivity.
Qed.

(** Writing entry [i] and then the ogive entry extends the agreement with
    the final array by one index. *)
Lemma ogive_override_step (ogive : bool) (l : list (R * R))
    (f : (R * R) * (R * R) -> R) (a F : list R) (i : nat) (x : R) :
  List.length a = List.length F ->
  F !! i = Some x ->
  (forall j, (j < i)%nat -> a !! j = ogive_override ogive l f F !! j) ->
  forall j, (j < S i)%nat ->
    ogive_override ogive l f (<[i := x]> a) !! j
    = ogive_override ogive l f F !! j.
Proof.
  intros Hlen Hx Hlook j Hj.
  assert (Hi : (i < List.length F)%nat) by (apply lookup_lt_Some in Hx; lia).
  assert (Hplain : forall k, (k < S i)%nat -> (k < i)%nat \/ k = i)
    by (intros; lia).
  unfold ogive_override in *.
  destruct ogive, (segments l) as [|s0 rest].
  - destruct (Hplain j Hj) as [Hlt| ->].
    + rewrite list_lookup_insert_ne by lia. auto.
    + rewrite list_lookup_insert_eq by lia. auto.
  - destruct (Nat.eq_dec j 0%nat) as [->|Hj0].
    + rewrite !list_lookup_insert_eq by (rewrite ?length_insert; lia).
      reflexivity.
    + rewrite (list_lookup_insert_ne _ 0%nat j) by lia.
      rewrite (list_lookup_insert_ne F 0%nat j) by lia.
      destruct (Hplain j Hj) as [Hlt| ->].
      * rewrite list_lookup_insert_ne by lia.
        rewrite (Hlook j Hlt), list_lookup_insert_ne by lia. reflexivity.
      * rewrite list_lookup_insert_eq by lia. auto.
  - destruct (Hplain j Hj) as [Hlt| ->].
    + rewrite list_lookup_insert_ne by lia. auto.
    + rewrite list_lookup_insert_eq by lia. auto.
  - destruct (Hplain j Hj) as [Hlt| ->].
    + rewrite list_lookup_insert_ne by lia. auto.
    + rewrite list_lookup_insert_eq by lia. auto.
Qed.

Lemma lookup_cross_areas_S (l : list (R * R)) (i : nat) (p : R * R) :
  l !! S i = Some p -> cross_areas l !! S i = Some (PI * (snd p / 2) ^ 2).
Proof.
  destruct l as [|p0 rest]; [discriminate|]. intros H.
  change (map (fun q => PI * (snd q / 2) ^ 2) rest !! i
          = Some (PI * (snd p / 2) ^ 2)).
  change (rest !! i = Some p) in H. rewrite lookup_map, H. reflexivity.
Qed.

Lemma length_cross_areas (l : list (R * R)) :
  List.length (cross_areas l) = List.length l.
Proof. destruct l; cbn; rewrite ?length_map; reflexivity. Qed.

(** One iteration of the loop of [_update_rocket_dim] as one step on the
    four arrays, when every subscript is in range. *)
Lemma update_rocket_dim_body_eq (i : nat) (p0 p1 : R * R) (self : Rocket.t) :
  let l := Rocket.rocket_dim self in
  l !! i = Some p0 -> l !! S i = Some p1 ->
  List.length (Rocket.station_cross_area self) = List.length l ->
  List.length (Rocket.component_plan_area self) = (List.length l - 1)%nat ->
  List.length (Rocket.component_volume self) = (List.length l - 1)%nat ->
  List.length (Rocket.component_centroid self) = (List.length l - 1)%nat ->
  Rocket._update_rocket_dim_body i self =
    (centroid <-
       py_div (seg_length (p0, p1) * (2 * seg_r2 (p0, p1) + seg_r1 (p0, p1)))
         (3 * (seg_r1 (p0, p1) + seg_r2 (p0, p1))) ;;
     Ok (Rocket.set_component_centroid
           (ogive_override (Rocket.ogive self) l
              (fun s => 0.4625 * seg_length s)
              (<[i := centroid]> (Rocket.component_centroid self)))
           (Rocket.set_component_volume
              (<[i := frustum_volume (p0, p1)]> (Rocket.component_volume self))
              (Rocket.set_component_plan_area
                 (ogive_override (Rocket.ogive self) l
                    (fun s => 2 / 3 * seg_length s * snd (snd s))
                    (<[i := frustum_plan_area (p0, p1)]>
                       (Rocket.component_plan_area self)))
                 (Rocket.set_station_cross_area
                    (<[S i := PI * (snd p1 / 2) ^ 2]>
                       (Rocket.station_cross_area self))
                    self))))).
Proof.
  destruct self. rflat. intros Hp0 Hp1 Hsca Hcpa Hcv Hcc.
  assert (Hi : (S i < List.length rocket_dim)%nat)
    by (apply lookup_lt_Some in Hp1; exact Hp1).
  destruct (lookup_station_lt rocket_dim 0 ltac:(lia))
    as (q0 & q1 & Hq0 & Hq1).
  unfold Rocket._update_rocket_dim_body.
  unfold seg_length, seg_r1, seg_r2, frustum_volume, frustum_plan_area,
    ogive_override, seg_length, seg_r1, seg_r2.
  destruct (lookup_segments_head _ _ _ Hq0 Hq1) as (rest & ->).
  rstep.
  rewrite Nat.add_1_r, (py_get_Ok _ _ _ Hp1), (py_get_Ok _ _ _ Hp0). rstep.
  rewrite py_set_Ok by lia. rstep.
  rewrite py_set_Ok by lia. rstep.
  rewrite py_set_Ok by lia. rstep.
  destruct (py_div _ _) as [c|e]; [|reflexivity]. rstep.
  rewrite py_set_Ok by lia. rstep.
  destruct ogive; [|reflexivity].
  rewrite (py_get_Ok _ _ _ Hq1), (py_get_Ok _ _ _ Hq0). rstep.
  rewrite py_set_Ok by (rewrite length_insert; lia). rstep.
  rewrite py_set_Ok by (rewrite length_insert; lia). rstep.
  reflexivity.
Qed.

(** One iteration of that loop under its invariant: it raises exactly when
    the radii of segment [i] add up to zero, and otherwise keeps the
    invariant. *)
Lemma dim_loop_step (l : list (R * R)) (s0 s : Rocket.t) (i : nat)
    (p0 p1 : R * R) :
  Rocket.rocket_dim s0 = l ->
  l !! i = Some p0 -> l !! S i = Some p1 ->
  dim_loop_inv l s0 i s ->
  (seg_r1 (p0, p1) + seg_r2 (p0, p1) = 0 ->
   Rocket._update_rocket_dim_body i s = Raise ZeroDivisionError)
  /\ (seg_r1 (p0, p1) + seg_r2 (p0, p1) <> 0 ->
      exists s', Rocket._update_rocket_dim_body i s = Ok s'
                 /\ dim_loop_inv l s0 (S i) s').
Proof.
  intros Hl Hp0 Hp1
    (sca & cpa & cv & cc & -> & Hsca & Hcpa & Hcv & Hcc & Asca & Acpa & Acv & Acc).
  assert (Hi : (S i < List.length l)%nat)
    by (apply lookup_lt_Some in Hp1; exact Hp1).
  pose proof (lookup_segments _ _ _ _ Hp0 Hp1) as Hseg.
  unfold dim_loop_inv. destruct s0. rflat. subst rocket_dim.
  rewrite (update_rocket_dim_body_eq i p0 p1) by assumption. rflat.
  split.
  - intros Hz. unfold py_div.
    destruct (Req_dec_T _ 0) as [_|Hne]; [reflexivity|].
    exfalso. apply Hne. rewrite Hz. ring.
  - intros Hnz. rewrite py_div_Ok by (intros Hz; apply Hnz; lra). rstep.
    eexists. split; [reflexivity|].
    do 4 eexists. split; [reflexivity|].
    rewrite !length_ogive_override, !length_insert.
    do 4 (split; [assumption|]).
    split; [|split; [|split]].
    + intros j Hj. destruct (Nat.eq_dec j (S i)) as [->|Hne].
      * rewrite list_lookup_insert_eq by lia.
        symmetry. apply lookup_cross_areas_S. exact Hp1.
      * rewrite list_lookup_insert_ne by lia. apply Asca. lia.
    + apply ogive_override_step.
      * rewrite length_map, length_segments. exact Hcpa.
      * rewrite lookup_map, Hseg. reflexivity.
      * exact Acpa.
    + intros j Hj. destruct (Nat.eq_dec j i) as [->|Hne].
      * rewrite list_lookup_insert_eq by lia.
        rewrite lookup_map, Hseg. reflexivity.
      * rewrite list_lookup_insert_ne by lia. apply Acv. lia.
    + apply ogive_override_step.
      * rewrite length_map, length_segments. exact Hcc.
      * rewrite lookup_map, Hseg. reflexivity.
      * exact Acc.
Qed.

Lemma py_last_Some {A : Type} (l : list A) (a : A) :
  last l = Some a -> py_last l = Ok a.
Proof. intros H. unfold py_last. now rewrite H. Qed.

Lemma maximum_diameter_eq (self : Rocket.t) :
  Rocket._maximum_diameter self = max_diameter (Rocket.rocket_dim self).
Proof. reflexivity. Qed.

(** [_update_rocket_dim] up to its loop. *)
Lemma update_rocket_dim_prefix (l : list (R * R)) (self : Rocket.t) :
  Rocket._update_rocket_dim l self =
    (p <- py_last l ;;
     p1 <- py_get l 1 ;;
     v <- py_div (fst p) (max_diameter l) ;;
     for_range (List.length l - 1) Rocket._update_rocket_dim_body
       (pre_geometry l p p1 self)).
Proof.
  destruct self. unfold Rocket._update_rocket_dim, pre_geometry. rflat.
  destruct (py_last l) as [p|e]; [|reflexivity]. rstep.
  destruct (py_get l 1) as [p1|e]; [|reflexivity]. rstep.
  rewrite maximum_diameter_eq. rflat.
  destruct (py_div (fst p) (max_diameter l)) as [v|e] eqn:Hv; [|reflexivity].
  apply py_div_inv in Hv as [_ ->]. rstep.
  rewrite compute_total_rocket_plan_area_eq. rflat.
  rewrite fold_left_Rplus_zeros, calculate_wet_area_body_eq. rstep.
  reflexivity.
Qed.

Lemma dim_loop_entry (l : list (R * R)) (p p1 : R * R) (self : Rocket.t) :
  l <> [] ->
  dim_loop_inv l (pre_geometry l p p1 self) 0 (pre_geometry l p p1 self).
Proof.
  intros Hl.
  exists (replicate (List.length l) 0), (replicate (List.length l - 1) 0),
    (replicate (List.length l - 1) 0), (replicate (List.length l - 1) 0).
  rewrite !length_replicate.
  split; [destruct self; unfold pre_geometry; rflat; reflexivity|].
  do 4 (split; [reflexivity|]).
  split; [|repeat split; intros j Hj; lia].
  intros j Hj. replace j with 0%nat by lia.
  destruct l; [contradiction | reflexivity].
Qed.

Lemma dim_loop_exit (l : list (R * R)) (p p1 : R * R) (self s : Rocket.t) :
  dim_loop_inv l (pre_geometry l p p1 self) (List.length l - 1) s ->
  s = with_geometry l p p1 self.
Proof.
  intros (sca & cpa & cv & cc & -> & Hsca & Hcpa & Hcv & Hcc
          & Asca & Acpa & Acv & Acc).
  assert (sca = cross_areas l) as ->.
  { apply list_eq_lookup_lt; [now rewrite length_cross_areas|].
    intros j Hj. apply Asca. lia. }
  assert (cv = map frustum_volume (segments l)) as ->.
  { apply list_eq_lookup_lt; [now rewrite length_map, length_segments|].
    intros j Hj. apply Acv. lia. }
  assert (cpa = plan_areas (Rocket.ogive (pre_geometry l p p1 self)) l) as ->.
  { apply list_eq_lookup_lt.
    - unfold plan_areas.
      now rewrite length_ogive_override, length_map, length_segments.
    - intros j Hj. apply Acpa. lia. }
  assert (cc = centroids (Rocket.ogive (pre_geometry l p p1 self)) l) as ->.
  { apply list_eq_lookup_lt.
    - unfold centroids.
      now rewrite length_ogive_override, length_map, length_segments.
    - intros j Hj. apply Acc. lia. }
  destruct self. unfold with_geometry, pre_geometry. rflat. reflexivity.
Qed.

Lemma rocket_dim_pre_geometry (l : list (R * R)) (p p1 : R * R)
    (self : Rocket.t) :
  Rocket.rocket_dim (pre_geometry l p p1 self) = l.
Proof. destruct self. reflexivity. Qed.

(** On a body of at least two stations whose divisions are not by zero,
    [_update_rocket_dim] returns the rocket with the geometry of the
    frustum formulas. *)
Lemma update_rocket_dim_total (l : list (R * R)) (p p1 : R * R)
    (self : Rocket.t) :
  last l = Some p -> l !! 1%nat = Some p1 -> nondegenerate l ->
  Rocket._update_rocket_dim l self = Ok (with_geometry l p p1 self).
Proof.
  intros Hp Hp1 (Hmd & Hseg).
  rewrite update_rocket_dim_prefix, (py_last_Some _ _ Hp), bind_ret,
    (py_get_Ok _ _ _ Hp1), bind_ret, (py_div_Ok _ _ Hmd), bind_ret.
  destruct (for_range_total (dim_loop_inv l (pre_geometry l p p1 self))
              (List.length l - 1) Rocket._update_rocket_dim_body
              (pre_geometry l p p1 self)) as (s & -> & Hinv).
  - apply dim_loop_entry. intros ->. discriminate.
  - intros i s Hi Hinv.
    destruct (lookup_station_lt l i Hi) as (q0 & q1 & Hq0 & Hq1).
    apply (dim_loop_step l _ s i q0 q1 (rocket_dim_pre_geometry _ _ _ _)
             Hq0 Hq1 Hinv).
    rewrite Forall_lookup in Hseg.
    apply (Hseg i (q0, q1)). now apply lookup_segments.
  - f_equal. now apply dim_loop_exit.
Qed.

(** Whenever [_update_rocket_dim] returns, the body had at least two
    stations and no division by zero, and the rocket has that geometry. *)
Lemma update_rocket_dim_inv (l : list (R * R)) (self s' : Rocket.t) :
  Rocket._update_rocket_dim l self = Ok s' ->
  exists p p1,
    last l = Some p /\ l !! 1%nat = Some p1 /\ nondegenerate l
    /\ s' = with_geometry l p p1 self.
Proof.
  rewrite update_rocket_dim_prefix. intros H.
  apply bind_Ok in H as (p & Hp & H). apply py_last_inv in Hp.
  apply bind_Ok in H as (p1 & Hp1 & H). apply py_get_inv in Hp1.
  apply bind_Ok in H as (v & Hv & H). apply py_div_inv in Hv as (Hmd & _).
  exists p, p1. split; [exact Hp|]. split; [exact Hp1|].
  set (s0 := pre_geometry l p p1 self) in *.
  assert (Hinv : dim_loop_inv l s0 (List.length l - 1) s'
                 /\ forall j sg, (j < List.length l - 1)%nat ->
                      segments l !! j = Some sg ->
                      seg_r1 sg + seg_r2 sg <> 0).
  { apply (for_range_partial
             (fun i s => dim_loop_inv l s0 i s
                         /\ forall j sg, (j < i)%nat ->
                              segments l !! j = Some sg ->
                              seg_r1 sg + seg_r2 sg <> 0) _ _ _ _ H).
    - split; [apply dim_loop_entry; intros ->; discriminate|].
      intros j sg Hj. lia.
    - intros i s1 s2 Hi (Hinv & Hok) Hbody.
      destruct (lookup_station_lt l i Hi) as (q0 & q1 & Hq0 & Hq1).
      destruct (dim_loop_step l s0 s1 i q0 q1
                  (rocket_dim_pre_geometry _ _ _ _) Hq0 Hq1 Hinv)
        as (Hraise & Hgo).
      destruct (Req_dec_T (seg_r1 (q0, q1) + seg_r2 (q0, q1)) 0) as [Hz|Hnz].
      + rewrite (Hraise Hz) in Hbody. discriminate.
      + destruct (Hgo Hnz) as (s3 & Hs3 & Hinv3).
        rewrite Hs3 in Hbody. injection Hbody as <-.
        split; [exact Hinv3|].
        intros j sg Hj Hsg. destruct (Nat.eq_dec j i) as [->|Hne].
        * rewrite (lookup_segments _ _ _ _ Hq0 Hq1) in Hsg.
          injection Hsg as <-. exact Hnz.
        * apply (Hok j sg); [lia | exact Hsg]. }
  destruct Hinv as (Hinv & Hok). split; [split; [exact Hmd|]|].
  - apply Forall_lookup. intros j sg Hsg. apply (Hok j sg); [|exact Hsg].
    apply lookup_lt_Some in Hsg. now rewrite length_segments in Hsg.
  - now apply dim_loop_exit.
Qed.

Lemma with_geometry_arrays (l : list (R * R)) (p p1 : R * R)
    (self : Rocket.t) :
  l <> [] ->
  let s := with_geometry l p p1 self in
  let n := List.length l in
  List.length (Rocket.station_cross_area s) = n
  /\ Rocket.station_cross_area s !! 0%nat = Some 0
  /\ List.length (Rocket.component_plan_area s) = (n - 1)%nat
  /\ List.length (Rocket.component_volume s) = (n - 1)%nat
  /\ List.length (Rocket.component_centroid s) = (n - 1)%nat
  /\ List.length (Rocket.component_cn s) = (n - 1)%nat
  /\ List.length (Rocket.component_cn_alpha s) = (n - 1)%nat
  /\ List.length (Rocket.component_cm s) = (n - 1)%nat.
Proof.
  intros Hl. destruct self. unfold with_geometry, pre_geometry. rflat.
  unfold plan_areas, centroids.
  rewrite length_cross_areas, !length_ogive_override, !length_map,
    length_segments, !length_replicate.
  repeat split. destruct l; [contradiction | reflexivity].
Qed.

Lemma nondegenerate_example_body : nondegenerate example_body.
Proof.
  split.
  - unfold max_diameter, example_body. cbn [fold_left snd].
    destruct (Rgt_dec 0 0) as [H|_]; [exfalso; lra|].
    destruct (Rgt_dec 0.1 0) as [_|H]; [|exfalso; lra].
    destruct (Rgt_dec 0.1 0.1) as [H|_]; [exfalso; lra|]. lra.
  - unfold example_body, segments. cbn [zip_with tail].
    repeat constructor; unfold seg_r1, seg_r2; cbn [fst snd]; lra.
Qed.

(** C6.  For a body of at least two stations: whenever
    [_update_rocket_dim] returns, [station_cross_area] has one entry per
    station, the first one [0], and [component_plan_area],
    [component_volume], [component_centroid], [component_cn],
    [component_cn_alpha] and [component_cm] have one entry less; and it
    returns whenever no division is by zero (the largest diameter is not
    zero and no segment has radii adding up to zero). *)
Theorem update_rocket_dim_array_lengths (l : list (R * R)) (self : Rocket.t) :
  (2 <= List.length l)%nat ->
  let n := List.length l in
  (forall s', Rocket._update_rocket_dim l self = Ok s' ->
     List.length (Rocket.station_cross_area s') = n
     /\ Rocket.station_cross_area s' !! 0%nat = Some 0
     /\ List.length (Rocket.component_plan_area s') = (n - 1)%nat
     /\ List.length (Rocket.component_volume s') = (n - 1)%nat
     /\ List.length (Rocket.component_centroid s') = (n - 1)%nat
     /\ List.length (Rocket.component_cn s') = (n - 1)%nat
     /\ List.length (Rocket.component_cn_alpha s') = (n - 1)%nat
     /\ List.length (Rocket.component_cm s') = (n - 1)%nat)
  /\ (nondegenerate l ->
      exists s', Rocket._update_rocket_dim l self = Ok s').
Proof.
  intros Hn n. split.
  - intros s' H.
    apply update_rocket_dim_inv in H as (p & p1 & _ & _ & _ & ->).
    apply with_geometry_arrays. intros ->. simpl in Hn. lia.
  - intros Hnd.
    destruct (lookup_lt_is_Some_2 l 1 ltac:(lia)) as (p1 & Hp1).
    destruct (last l) as [p|] eqn:Hp.
    + exists (with_geometry l p p1 self).
      now apply update_rocket_dim_total.
    + apply last_None in Hp. subst l. simpl in Hn. lia.
Qed.

Lemma update_rocket_dim_array_lengths_witness :
  (2 <= List.length example_body)%nat
  /\ exists s', Rocket._update_rocket_dim example_body fresh_rocket = Ok s'
                /\ List.length (Rocket.station_cross_area s') = 3%nat
                /\ List.length (Rocket.component_cn s') = 2%nat.
Proof.
  assert (Hn : (2 <= List.length example_body)%nat) by (simpl; lia).
  split; [exact Hn|].
  destruct (update_rocket_dim_array_lengths example_body fresh_rocket Hn)
    as (Hlen & Hex).
  destruct (Hex nondegenerate_example_body) as (s' & Hs').
  exists s'. split; [exact Hs'|].
  destruct (Hlen s' Hs') as (H1 & _ & _ & _ & _ & H6 & _).
  split; [exact H1 | exact H6].
Defined.

(** ** Partial correctness *)

Lemma ensures_Ok {A : Type} (m : result A) (Q : A -> Prop) (a : A) :
  ensures m Q -> m = Ok a -> Q a.
Proof. intros H ->. exact H. Qed.

Lemma ensures_intro {A : Type} (m : result A) (Q : A -> Prop) :
  (forall a, m = Ok a -> Q a) -> ensures m Q.
Proof. intros H. destruct m; cbn; auto. Qed.

Lemma ensures_bind {A B : Type} (m : result A) (k : A -> result B)
    (Q : B -> Prop) :
  ensures m (fun a => ensures (k a) Q) -> ensures (bind m k) Q.
Proof. destruct m; cbn; auto. Qed.

Lemma ensures_weaken {A : Type} (m : result A) (P Q : A -> Prop) :
  ensures m P -> (forall a, P a -> Q a) -> ensures m Q.
Proof. destruct m; cbn; auto. Qed.

(** A loop that returns ends in every invariant of its body. *)
Lemma ensures_for_range {S : Type} (I : nat -> S -> Prop) (n : nat)
    (body : nat -> S -> result S) (s : S) :
  I 0%nat s ->
  (forall i s, (i < n)%nat -> I i s -> ensures (body i s) (I (Datatypes.S i))) ->
  ensures (for_range n body s) (I n).
Proof.
  intros H0 Hstep. apply ensures_intro. intros s' Hrun.
  apply (for_range_partial I n body s s' Hrun H0).
  intros i s1 s2 Hi HI Hbody. exact (ensures_Ok _ _ _ (Hstep i s1 Hi HI) Hbody).
Qed.

(** ** Loops that fill an array or add up a list *)

Lemma length_take_drop {A : Type} (F a : list A) (i : nat) :
  List.length a = List.length F ->
  List.length (take i F ++ drop i a) = List.length F.
Proof.
  intros H. rewrite length_app, length_take, length_drop. lia.
Qed.

Lemma lookup_take_drop {A : Type} (F a : list A) (i : nat) :
  List.length a = List.length F ->
  (i < List.length F)%nat ->
  (take i F ++ drop i a) !! i = a !! i.
Proof.
  intros H Hi. rewrite lookup_app_r by (rewrite length_take; lia).
  rewrite length_take, lookup_drop. f_equal. lia.
Qed.

Lemma insert_take_drop {A : Type} (F a : list A) (i : nat) (x : A) :
  List.length a = List.length F ->
  F !! i = Some x ->
  <[i := x]> (take i F ++ drop i a) = take (S i) F ++ drop (S i) a.
Proof.
  intros H Hx.
  assert (Hi : (i < List.length F)%nat) by (now apply lookup_lt_Some in Hx).
  destruct (lookup_lt_is_Some_2 a i ltac:(lia)) as (y & Hy).
  rewrite (take_S_r _ _ _ Hx), (drop_S _ _ _ Hy).
  rewrite insert_app_r_alt by (rewrite length_take; lia).
  rewrite length_take, Nat.min_l, Nat.sub_diag by lia.
  cbn. now rewrite <- app_assoc.
Qed.

(** [for i in range(len(F)): a[i] = F[i]], whatever else the body reads:
    the loop turns the array [a0] into [F]. *)
Lemma for_range_build {S : Type} (set : list R -> S) (F a0 : list R)
    (body : nat -> S -> result S) :
  List.length a0 = List.length F ->
  (forall i x, F !! i = Some x ->
     body i (set (take i F ++ drop i a0))
     = Ok (set (<[i := x]> (take i F ++ drop i a0)))) ->
  for_range (List.length F) body (set a0) = Ok (set F).
Proof.
  intros Hlen Hstep.
  destruct (for_range_total
              (fun i s => s = set (take i F ++ drop i a0))
              (List.length F) body (set a0)) as (s & -> & ->).
  - reflexivity.
  - intros i s Hi ->.
    destruct (lookup_lt_is_Some_2 F i Hi) as (x & Hx).
    rewrite (Hstep i x Hx). eexists. split; [reflexivity|].
    now rewrite (insert_take_drop _ _ _ _ Hlen Hx).
  - rewrite firstn_all, drop_ge, app_nil_r by lia. reflexivity.
Qed.

(** [for i in range(len(L)): acc += L[i]]. *)
Lemma for_range_sum {S : Type} (set : R -> S) (L : list R) (v0 : R)
    (body : nat -> S -> result S) :
  (forall i x v, L !! i = Some x -> body i (set v) = Ok (set (v + x))) ->
  for_range (List.length L) body (set v0) = Ok (set (fold_left Rplus L v0)).
Proof.
  intros Hstep.
  destruct (for_range_total
              (fun i s => s = set (fold_left Rplus (take i L) v0))
              (List.length L) body (set v0)) as (s & -> & ->).
  - reflexivity.
  - intros i s Hi ->.
    destruct (lookup_lt_is_Some_2 L i Hi) as (x & Hx).
    rewrite (Hstep i x _ Hx). eexists. split; [reflexivity|].
    now rewrite (take_S_r _ _ _ Hx), fold_left_app.
  - now rewrite firstn_all.
Qed.

(** ** Normal force of the body *)

Lemma length_barrowman_list (aoa area_ref : R) (sca : list R) :
  List.length (barrowman_list aoa area_ref sca) = (List.length sca - 1)%nat.
Proof.
  unfold barrowman_list. rewrite length_zip_with.
  destruct sca as [|a sca]; [reflexivity|]. cbn [tail List.length].
  rewrite Nat.min_r by lia. lia.
Qed.

Lemma length_crossflow_list (aoa area_ref : R) (cpa : list R) :
  List.length (crossflow_list aoa area_ref cpa) = List.length cpa.
Proof. apply length_map. Qed.

Lemma effective_aoa_nonzero (aoa : R) : effective_aoa aoa <> 0.
Proof.
  unfold effective_aoa. destruct (Req_dec_T aoa 0) as [_|H]; [lra|].
  now apply Rabs_no_R0.
Qed.

Lemma effective_aoa_pos (aoa : R) : 0 < effective_aoa aoa.
Proof.
  unfold effective_aoa. destruct (Req_dec_T aoa 0) as [_|H]; [lra|].
  now apply Rabs_pos_lt.
Qed.

(** Runs the array-filling loop of the goal, of the array [a0] set by
    [setter], towards the array [F]; the goals left are the two premises of
    [for_range_build]. *)
Ltac build_loop setter F a0 :=
  match goal with
  | |- context [for_range ?n ?body ?s] =>
      let H := fresh "Hloop" in
      assert (H : for_range n body s = Ok (setter F s));
      [ refine (for_range_build (fun a => setter a s) F a0 body _ _)
      | rewrite H; clear H ]
  end.

(** Runs the adding loop of the goal over the list [L], of the accumulator
    set by [setter] and starting at [v0]; the goal left first is the
    premise of [for_range_sum]. *)
Ltac sum_loop setter L v0 :=
  match goal with
  | |- context [for_range ?n ?body ?s] =>
      let H := fresh "Hloop" in
      assert (H : for_range n body s = Ok (setter (fold_left Rplus L v0) s));
      [ refine (for_range_sum (fun v => setter v s) L v0 body _)
      | rewrite H; clear H ]
  end.

Lemma barrowman_cn_eq (aoa : R) (self : Rocket.t) :
  Rocket.area_ref self <> 0 ->
  List.length (Rocket.component_cn self)
  = (List.length (Rocket.station_cross_area self) - 1)%nat ->
  Rocket._barrowman_cn aoa self =
    Ok (Rocket.set_component_cn
          (barrowman_list aoa (Rocket.area_ref self)
             (Rocket.station_cross_area self)) self).
Proof.
  destruct self. rflat. intros Href Hlen. unfold Rocket._barrowman_cn. rflat.
  set (F := barrowman_list aoa area_ref station_cross_area).
  rewrite <- (length_barrowman_list aoa area_ref). fold F.
  build_loop Rocket.set_component_cn F component_cn.
  - unfold F. now rewrite length_barrowman_list.
  - intros i x Hx. rflat.
    unfold F, barrowman_list in Hx.
    apply lookup_zip_with_Some in Hx as (a0 & a1 & -> & Ha0 & Ha1).
    rewrite lookup_tail in Ha1.
    rewrite (np_div_Ok _ _ Href). rstep.
    rewrite Nat.add_1_r, (py_get_Ok _ _ _ Ha1), (py_get_Ok _ _ _ Ha0). rstep.
    rewrite py_set_Ok; [reflexivity|].
    rewrite length_take_drop
      by (unfold F; now rewrite length_barrowman_list).
    apply lookup_lt_Some in Ha1. unfold F.
    rewrite length_barrowman_list. lia.
  - rflat. reflexivity.
Qed.

Lemma body_cn_eq (aoa : R) (self : Rocket.t) :
  Rocket.area_ref self <> 0 ->
  List.length (Rocket.component_cn self)
  = List.length (Rocket.component_plan_area self) ->
  Rocket._body_cn aoa self =
    Ok (Rocket.set_component_cn
          (zip_with Rplus (Rocket.component_cn self)
             (crossflow_list aoa (Rocket.area_ref self)
                (Rocket.component_plan_area self))) self).
Proof.
  destruct self. rflat. intros Href Hlen. unfold Rocket._body_cn. rflat.
  set (C := crossflow_list aoa area_ref component_plan_area).
  assert (HC : List.length C = List.length component_plan_area)
    by apply length_crossflow_list.
  rewrite <- HC at 1.
  rewrite (for_range_build (fun a => a) C
             (replicate (List.length component_plan_area) 0)).
  - rstep. set (F := zip_with Rplus component_cn C).
    assert (HF : List.length F = List.length component_cn)
      by (unfold F; rewrite length_zip_with; lia).
    rewrite <- HF.
    build_loop Rocket.set_component_cn F component_cn.
    + now rewrite HF.
    + intros i x Hx. rflat.
      assert (Hi : (i < List.length F)%nat) by (now apply lookup_lt_Some in Hx).
      rewrite py_get_Ok with (a := default 0 (component_cn !! i)).
      2:{ rewrite lookup_take_drop by lia.
          destruct (lookup_lt_is_Some_2 component_cn i ltac:(lia)) as (c & ->).
          reflexivity. }
      unfold F in Hx.
      apply lookup_zip_with_Some in Hx as (c & d & -> & Hc & Hd).
      rewrite Hc. cbn [default]. rstep.
      rewrite (py_get_Ok _ _ _ Hd). rstep.
      rewrite py_set_Ok by (rewrite length_take_drop; lia). reflexivity.
    + rflat. reflexivity.
  - now rewrite length_replicate.
  - intros i x Hx. unfold C, crossflow_list in Hx.
    rewrite lookup_map in Hx.
    destruct (component_plan_area !! i) as [a|] eqn:Ha; [|discriminate].
    injection Hx as <-.
    rewrite (py_get_Ok _ _ _ Ha). rstep. rewrite (py_div_Ok _ _ Href). rstep.
    apply py_set_Ok. rewrite length_take_drop by now rewrite length_replicate.
    apply lookup_lt_Some in Ha. lia.
Qed.

Lemma calculate_cn_alpha_eq (aoa : R) (self : Rocket.t) :
  aoa <> 0 ->
  List.length (Rocket.component_cn_alpha self)
  = List.length (Rocket.component_cn self) ->
  Rocket._calculate_cn_alpha aoa self =
    Ok (Rocket.set_component_cn_alpha
          (map (fun c => c / aoa) (Rocket.component_cn self)) self).
Proof.
  destruct self. rflat. intros Haoa Hlen.
  unfold Rocket._calculate_cn_alpha. rflat.
  set (F := map (fun c => c / aoa) component_cn).
  assert (HF : List.length F = List.length component_cn) by apply length_map.
  rewrite <- HF.
  build_loop Rocket.set_component_cn_alpha F component_cn_alpha.
  - now rewrite HF.
  - intros i x Hx. rflat.
    destruct (Req_dec_T aoa 0) as [H|_]; [contradiction|].
    unfold F in Hx. rewrite lookup_map in Hx.
    destruct (component_cn !! i) as [c|] eqn:Hc; [|discriminate].
    injection Hx as <-.
    rewrite (py_get_Ok _ _ _ Hc). rstep.
    rewrite py_set_Ok; [reflexivity|].
    rewrite length_take_drop by lia. apply lookup_lt_Some in Hc. lia.
  - rflat. reflexivity.
Qed.

(** [_calculate_total_cn] without fins: the sum of the component
    coefficients at the effective angle, with the sign of the convention. *)
Lemma calculate_total_cn_nofins (aoa actuator_angle : R) (self : Rocket.t) :
  configured self ->
  Rocket.use_fins self = false ->
  let CN := body_cn_list (effective_aoa aoa) self in
  Rocket._calculate_total_cn aoa actuator_angle self =
    Ok (Rocket.set_cn (Rocket.__sign_correction aoa * fold_left Rplus CN 0)
          (Rocket.set_component_cn_alpha
             (body_cn_alpha_list (effective_aoa aoa) self)
             (Rocket.set_component_cn CN
                (Rocket.set__sign_corr (Rocket.__sign_correction aoa) self)))).
Proof.
  unfold configured, body_cn_alpha_list, body_cn_list. destruct self. rflat.
  intros (Hn & Hsca & Hcpa & Hcc & Hcn & Hcna & Href & _) ->.
  unfold Rocket._calculate_total_cn. rflat. fold (effective_aoa aoa).
  pose proof (effective_aoa_nonzero aoa) as Hnz.
  set (a := effective_aoa aoa) in *.
  rewrite barrowman_cn_eq by (rflat; (assumption || lia)). rstep.
  rewrite body_cn_eq
    by (rflat; first [assumption | rewrite length_barrowman_list; lia]).
  rstep.
  rewrite calculate_cn_alpha_eq
    by (rflat; first [assumption
                     | rewrite length_zip_with, length_barrowman_list,
                         length_crossflow_list; lia]).
  rstep.
  sum_loop Rocket.set_cn
    (zip_with Rplus (barrowman_list a area_ref station_cross_area)
       (crossflow_list a area_ref component_plan_area)) 0.
  - intros i x v Hx. rflat. rewrite (py_get_Ok _ _ _ Hx). rstep. reflexivity.
  - rstep. reflexivity.
Qed.

(** ** Centre of pressure *)

(** Handles [x <- m ;; k] in an [ensures] goal for an operation [m] of
    Python or NumPy: nothing is to prove if it raises. *)
Ltac ens_prim :=
  apply ensures_bind;
  match goal with
  | |- ensures ?m _ =>
      let a := fresh "a" in
      let e := fresh "e" in
      let E := fresh "E" in
      destruct m as [a|e] eqn:E; [cbn [ensures]; rflat | exact I]
  end.

Lemma fold_left_Rplus_acc (l : list R) (v : R) :
  fold_left Rplus l v = v + fold_left Rplus l 0.
Proof.
  revert v. induction l as [|x l IH]; intros v; cbn [fold_left].
  - lra.
  - rewrite (IH (v + x)), (IH (0 + x)). lra.
Qed.

Lemma moment_sum_app (c1 c2 : list (R * R)) :
  moment_sum (c1 ++ c2) = moment_sum c1 + moment_sum c2.
Proof.
  unfold moment_sum. rewrite map_app, fold_left_app.
  apply fold_left_Rplus_acc.
Qed.

Lemma slope_sum_app (c1 c2 : list (R * R)) :
  slope_sum (c1 ++ c2) = slope_sum c1 + slope_sum c2.
Proof.
  unfold slope_sum. rewrite map_app, fold_left_app.
  apply fold_left_Rplus_acc.
Qed.


(** Whenever [_calculate_cp_position] returns, it has stored the centre of
    pressure and nothing else. *)
Lemma calculate_cp_position_ensures (self : Rocket.t) :
  ensures (Rocket._calculate_cp_position self)
    (fun s' => exists v, s' = Rocket.set_cp v self /\ cp_spec self v).
Proof.
  unfold cp_spec, cp_contributors.
  rewrite moment_sum_app, slope_sum_app.
  unfold fin_contributors, body_contributors.
  destruct self. unfold Rocket._calculate_cp_position. rflat.
  set (BC := zip_with (fun loc s => (loc, s))
               (zip_with (fun c p => c + fst p) component_centroid rocket_dim)
               component_cn_alpha).
  apply ensures_bind.
  eapply ensures_weaken.
  { apply (ensures_for_range
             (fun i ab => ab = (moment_sum (take i BC), slope_sum (take i BC)))).
    - reflexivity.
    - intros i ab Hi ->. cbn [fst snd].
      ens_prim. ens_prim. ens_prim.
      apply py_get_inv in E, E0, E1.
      assert (HBC : BC !! i = Some (a + fst a0, a1)).
      { unfold BC. rewrite !lookup_zip_with, E, E0, E1. reflexivity. }
      rewrite (take_S_r _ _ _ HBC), moment_sum_app, slope_sum_app.
      unfold moment_sum, slope_sum. cbn [map fold_left fst snd].
      f_equal; ring. }
  intros ab ->.
  rewrite firstn_all2
    by (unfold BC; rewrite !length_zip_with; lia).
  cbn beta iota.
  set (A := moment_sum BC). set (B := slope_sum BC).
  destruct use_fins.
  - unfold moment_sum, slope_sum. cbn [map fold_left fst snd].
    match goal with
    | |- context [Req_dec_T ?b 0] =>
        replace b with (B + (0 + fst cn_alpha_fin + snd cn_alpha_fin)) by ring;
        destruct (Req_dec_T (B + (0 + fst cn_alpha_fin + snd cn_alpha_fin)) 0)
          as [Hz|Hnz]
    end.
    + ens_prim. apply py_get_inv in E.
      eexists. split; [reflexivity|]. right. auto.
    + cbn [ensures]. rflat. eexists. split; [reflexivity|]. left.
      split; [exact Hnz|]. f_equal. ring.
  - unfold moment_sum, slope_sum. cbn [map fold_left].
    rewrite !Rplus_0_r.
    destruct (Req_dec_T B 0) as [Hz|Hnz].
    + ens_prim. apply py_get_inv in E.
      eexists. split; [reflexivity|]. right. auto.
    + cbn [ensures]. rflat. eexists. split; [reflexivity|]. left. auto.
Qed.

(** ** What the drag methods assign *)

Ltac ens_prim_head m :=
  lazymatch m with
  | py_get _ _ => idtac
  | py_set _ _ _ => idtac
  | py_last _ => idtac
  | py_div _ _ => idtac
  | py_pow _ _ => idtac
  | np_div _ _ => idtac
  | np_sqrt _ => idtac
  | np_log _ => idtac
  | np_power _ _ => idtac
  | np_interp _ _ _ => idtac
  | Fin.dim_get _ _ => idtac
  | Fin.update _ _ _ => idtac
  | Fin.calculate_cn_alpha _ _ _ _ => idtac
  | Rocket.fore_scan _ _ _ => idtac
  | Rocket.aft_scan _ _ _ => idtac
  end.

(** One step through code that may raise: nothing is to prove where it
    does. *)
Ltac ens_step :=
  lazymatch goal with
  | |- ensures (Raise _) _ => exact I
  | |- ensures (Ok _) _ => cbn [ensures]; rflat
  | |- ensures (bind _ _) _ => apply ensures_bind
  | |- ensures (if ?c then _ else _) _ => destruct c; rflat
  | |- ensures ?m _ =>
      ens_prim_head m;
      let E := fresh "E" in
      destruct m eqn:E; [cbn [ensures]; rflat | exact I]
  end.

Ltac ens_run := rflat; repeat ens_step.

(** Uses the lemma [L] for the method that the goal calls first. *)
Ltac ens_call L :=
  apply ensures_bind; eapply ensures_weaken; [apply L|]; cbv beta.

Lemma calculate_reynolds_ensures (velocity_0 rho mu : R) (self : Rocket.t) :
  ensures (Rocket._calculate_reynolds velocity_0 rho mu self)
    (fun s' => exists v, s' = Rocket.set_reynolds v self).
Proof.
  destruct self. unfold Rocket._calculate_reynolds. ens_run.
  eexists. rflat. reflexivity.
Qed.

Lemma calculate_cf_ensures (self : Rocket.t) :
  ensures (Rocket._calculate_cf self)
    (fun s' => exists v, s' = Rocket.set_Cf v self).
Proof.
  destruct self. unfold Rocket._calculate_cf. rflat.
  apply ensures_bind.
  destruct (Rlt_dec reynolds 10e4); [|destruct reynolds_crit as [crit|]];
    ens_run; try (eexists; rflat; reflexivity).
Qed.

Lemma filter_zero_length_take_S (segs : list ((R * R) * (R * R))) (i : nat)
    (s : (R * R) * (R * R)) :
  segs !! i = Some s ->
  List.length (List.filter zero_length (take (S i) segs))
  = (List.length (List.filter zero_length (take i segs))
     + (if zero_length s then 1 else 0))%nat.
Proof.
  intros Hs. rewrite (take_S_r _ _ _ Hs), List.filter_app, length_app.
  cbn [List.filter]. destruct (zero_length s); reflexivity.
Qed.

(** Whenever [_calculate_pressure_drag] returns, it has assigned the
    pressure drag of the components, and printed one line for every segment
    of length zero. *)
Lemma calculate_pressure_drag_ensures (self : Rocket.t) :
  ensures (Rocket._calculate_pressure_drag self)
    (fun s' => exists c,
       s' = Rocket.set_stdout
              (Rocket.stdout self
               ++ zero_length_report (Rocket.rocket_dim self))
              (Rocket.set_cd_pressure_component c self)).
Proof.
  destruct self. unfold Rocket._calculate_pressure_drag. rflat.
  unfold zero_length_report, zero_length_count.
  set (segs := segments rocket_dim).
  set (line := "Component length is zero"%string).
  apply ensures_bind.
  match goal with
  | |- context [for_range _ _ (?s, _)] => pose (S0 := s)
  end.
  eapply ensures_weaken.
  { apply (ensures_for_range
             (fun i (st : Rocket.t * option R) =>
                exists c,
                  fst st =
                  Rocket.set_stdout
                    (stdout
                     ++ replicate
                          (List.length
                             (List.filter zero_length (take i segs))) line)
                    (Rocket.set_cd_pressure_component c S0))).
    - eexists. subst S0. cbn [take List.filter List.length replicate fst].
      rewrite app_nil_r. rflat. reflexivity.
    - intros i [s phi] Hi (c & Hs). cbn [fst] in Hs. subst s S0.
      unfold Rocket._calculate_pressure_drag_body. rflat.
      ens_step. ens_step. ens_step. ens_step.
      repeat match goal with
             | H : py_get _ _ = Ok _ |- _ => apply py_get_inv in H
             end.
      rewrite Nat.add_1_r in *.
      match goal with
      | H0 : rocket_dim !! i = Some ?p0, H1 : rocket_dim !! S i = Some ?p1
        |- _ =>
          pose proof (lookup_segments _ _ _ _ H0 H1) as Hseg;
          fold segs in Hseg;
          rewrite (filter_zero_length_take_S _ _ _ Hseg);
          unfold zero_length, seg_length, py_div; cbn [fst snd];
          apply ensures_bind;
          destruct (Req_dec_T (fst p1 - fst p0) 0) as [Hz|Hnz];
          cbn [ensures]; rflat
      end.
      + destruct phi as [ph|]; [|exact I].
        ens_run. eexists. cbn [fst].
        rewrite replicate_add, app_assoc. rflat. reflexivity.
      + ens_run. eexists. cbn [fst].
        rewrite Nat.add_0_r. rflat. reflexivity. }
  intros [s phi] (c & Hs). cbn [fst] in Hs |- *. subst s S0. rflat.
  rewrite firstn_all2 by (unfold segs; rewrite length_segments; lia).
  destruct ogive; ens_run; eexists; rflat; reflexivity.
Qed.

Lemma calculate_cd_ensures (aoa : R) (self : Rocket.t) :
  ensures (Rocket._calculate_cd aoa self)
    (fun s' => exists a b c d e,
       s' = Rocket.set_cd0 a
              (Rocket.set_base_drag_cd b
                 (Rocket.set_pressure_cd c
                    (Rocket.set_cd_pressure_component d
                       (Rocket.set_cd0_friction e self))))).
Proof.
  destruct self. unfold Rocket._calculate_cd. rflat.
  ens_step. ens_step. ens_step. ens_step.
  loop_state S0.
  apply ensures_bind. eapply ensures_weaken.
  { apply (ensures_for_range
             (fun (i : nat) s =>
                exists c d,
                  s = Rocket.set_pressure_cd c
                        (Rocket.set_cd_pressure_component d S0))).
    - do 2 eexists. subst S0. rflat. reflexivity.
    - intros i s Hi (c & d & ->). subst S0. ens_run;
        do 2 eexists; rflat; reflexivity. }
  intros s (c & d & ->). subst S0. ens_run.
  do 5 eexists. rflat. reflexivity.
Qed.

Lemma calculate_ca_ensures (aoa : R) (self : Rocket.t) :
  ensures (Rocket._calculate_ca aoa self)
    (fun s' => exists v, s' = Rocket.set_ca v self).
Proof.
  destruct self.
  unfold Rocket._calculate_ca, Rocket._fin_ca, Rocket._control_fin_drag.
  ens_run; eexists; rflat; reflexivity.
Qed.

(** Whenever [_calculate_total_ca] returns, it has assigned drag attributes
    only, and printed one line for every segment of length zero. *)
Lemma calculate_total_ca_ensures (aoa velocity_0 rho mu : R)
    (self : Rocket.t) :
  ensures (Rocket._calculate_total_ca aoa velocity_0 rho mu self)
    (fun s' =>
       drag_frame self s'
       /\ Rocket.stdout s'
          = Rocket.stdout self ++ zero_length_report (Rocket.rocket_dim self)).
Proof.
  destruct self. unfold Rocket._calculate_total_ca.
  ens_call calculate_reynolds_ensures. intros s (re & ->). rflat.
  ens_call calculate_cf_ensures. intros s (cf & ->). rflat.
  ens_call calculate_pressure_drag_ensures. intros s (cdp & ->).
  unfold Rocket._calculate_base_drag. rflat.
  ens_call calculate_cd_ensures. intros s (a & b & c & d & e & ->). rflat.
  eapply ensures_weaken; [apply calculate_ca_ensures|]. cbv beta.
  intros s (v & ->). unfold drag_frame. rflat. split; reflexivity.
Qed.

(** ** What the normal-force methods assign *)

Lemma barrowman_cn_ensures (aoa : R) (self : Rocket.t) :
  ensures (Rocket._barrowman_cn aoa self)
    (fun s' => exists c, s' = Rocket.set_component_cn c self).
Proof.
  destruct self. unfold Rocket._barrowman_cn. rflat. loop_state S0.
  eapply ensures_weaken.
  { apply (ensures_for_range
             (fun (i : nat) s => exists c, s = Rocket.set_component_cn c S0)).
    - eexists. subst S0. rflat. reflexivity.
    - intros i s Hi (c & ->). subst S0. ens_run. eexists. rflat.
      reflexivity. }
  intros s (c & ->). subst S0. eexists. rflat. reflexivity.
Qed.

Lemma body_cn_ensures (aoa : R) (self : Rocket.t) :
  ensures (Rocket._body_cn aoa self)
    (fun s' => exists c, s' = Rocket.set_component_cn c self).
Proof.
  destruct self. unfold Rocket._body_cn. rflat.
  apply ensures_bind.
  match goal with
  | |- ensures ?m _ => destruct m as [cn'|]; [cbn [ensures]|exact I]
  end.
  loop_state S0.
  eapply ensures_weaken.
  { apply (ensures_for_range
             (fun (i : nat) s => exists c, s = Rocket.set_component_cn c S0)).
    - eexists. subst S0. rflat. reflexivity.
    - intros i s Hi (c & ->). subst S0. ens_run. eexists. rflat.
      reflexivity. }
  intros s (c & ->). subst S0. eexists. rflat. reflexivity.
Qed.

Lemma calculate_cn_alpha_ensures (aoa : R) (self : Rocket.t) :
  ensures (Rocket._calculate_cn_alpha aoa self)
    (fun s' => exists c, s' = Rocket.set_component_cn_alpha c self).
Proof.
  destruct self. unfold Rocket._calculate_cn_alpha. rflat. loop_state S0.
  eapply ensures_weaken.
  { apply (ensures_for_range
             (fun (i : nat) s =>
                exists c, s = Rocket.set_component_cn_alpha c S0)).
    - eexists. subst S0. rflat. reflexivity.
    - intros i s Hi (c & ->). subst S0. ens_run; eexists; rflat;
        reflexivity. }
  intros s (c & ->). subst S0. eexists. rflat. reflexivity.
Qed.

Ltac ens_fin :=
  lazymatch goal with
  | |- ensures (Fin.calculate_cn_alpha _ _ _ _) _ =>
      let r := fresh "r" in
      destruct (Fin.calculate_cn_alpha _ _ _ _) as [r|];
      [cbn [ensures]; rflat | exact I]
  end.

Lemma fin_cn_ensures (aoa actuator_angle : R) (self : Rocket.t) :
  ensures (Rocket._fin_cn aoa actuator_angle self)
    (fun s' => exists f og fc cf cnorm ax,
       s' = Rocket.set_cn_alpha_axial ax
              (Rocket.set_cn_alpha_control_normal cnorm
                 (Rocket.set_cn_alpha_fin cf
                    (Rocket.set_cn_alpha_fin_control fc
                       (Rocket.set_cn_alpha_og og
                          (Rocket.set_fin f self)))))).
Proof.
  destruct self. unfold Rocket._fin_cn. rflat.
  ens_step. ens_fin. ens_step. ens_fin. ens_step. ens_step. ens_step.
  ens_step.
  destruct (fst fins_attached); destruct (snd fins_attached);
    ens_run; do 6 eexists; rflat; reflexivity.
Qed.

(** Whenever [_calculate_total_cn] returns, it has assigned normal-force
    attributes only. *)
Lemma calculate_total_cn_ensures (aoa actuator_angle : R) (self : Rocket.t) :
  ensures (Rocket._calculate_total_cn aoa actuator_angle self)
    (cn_frame self).
Proof.
  destruct self. unfold Rocket._calculate_total_cn. rflat.
  ens_call barrowman_cn_ensures. intros s (c1 & ->). rflat.
  ens_call body_cn_ensures. intros s (c2 & ->). rflat.
  ens_call calculate_cn_alpha_ensures. intros s (c3 & ->). rflat.
  apply ensures_bind.
  match goal with
  | |- ensures (if _ then _ else Ok ?S) _ =>
      apply ensures_weaken with
        (P := fun s => exists f og fc cf cnorm ax,
                s = Rocket.set_cn_alpha_axial ax
                      (Rocket.set_cn_alpha_control_normal cnorm
                         (Rocket.set_cn_alpha_fin cf
                            (Rocket.set_cn_alpha_fin_control fc
                               (Rocket.set_cn_alpha_og og
                                  (Rocket.set_fin f S))))))
  end.
  { destruct use_fins.
    - apply fin_cn_ensures.
    - cbn [ensures]. do 6 eexists. rflat. reflexivity. }
  intros s (f & og & fc & cf & cnorm & ax & ->). rflat.
  apply ensures_bind. loop_state S0. eapply ensures_weaken.
  { apply (ensures_for_range
             (fun (i : nat) s => exists v, s = Rocket.set_cn v S0)).
    - eexists. subst S0. rflat. reflexivity.
    - intros i s Hi (v & ->). subst S0. ens_run. eexists. rflat.
      reflexivity. }
  intros s (v & ->). subst S0. rflat. cbn [ensures]. unfold cn_frame.
  destruct use_fins; rflat; reflexivity.
Qed.

(** Reads a frame between two rockets in constructor form as equations
    between their attributes. *)
Ltac frame_inv H :=
  unfold cn_frame, drag_frame in H; rflat; injection H; clear H; intros;
  subst.

(** Whenever [calculate_aero_coef] returns, it returns the three
    coefficients that it has stored; the Mach number stored is the argument
    or [0.001], [beta] is computed from the argument, the centre of pressure
    is the one of the rocket as the call leaves it, and the lines printed
    are those of the pressure drag. *)
Lemma calculate_aero_coef_ensures (aoa : R) (v_loc_tot : R * R)
    (rho mu mach actuator_angle q : R) (self : Rocket.t) :
  ensures
    (Rocket.calculate_aero_coef aoa v_loc_tot rho mu mach actuator_angle q
       self)
    (fun r =>
       snd r = (Rocket.cn (fst r), Rocket.cp (fst r), Rocket.ca (fst r))
       /\ Rocket.mach (fst r) = (if Rlt_dec mach 0.001 then 0.001 else mach)
       /\ Rocket.beta (fst r) = sqrt (1 - mach ^ 2)
       /\ cp_spec (fst r) (Rocket.cp (fst r))
       /\ Rocket.stdout (fst r)
          = Rocket.stdout self ++ zero_length_report (Rocket.rocket_dim self)
       /\ aero_frame self (fst r)).
Proof.
  destruct self. unfold Rocket.calculate_aero_coef.
  destruct (Rlt_dec mach 0.001) as [Hm|Hm]; rflat.
  all: ens_step; ens_step; ens_step; ens_step.
  all: match goal with
       | H : np_sqrt (1 - _) = Ok _ |- _ =>
           apply np_sqrt_inv in H; destruct H as (_ & ->)
       end.
  all: ens_call calculate_total_cn_ensures; intros s1 H1; destruct s1;
    frame_inv H1.
  all: ens_call calculate_cp_position_ensures; intros s2 (v & -> & Hcp);
    rflat.
  all: ens_call calculate_total_ca_ensures; intros s3 (H3 & Hout);
    destruct s3; frame_inv H3.
  all: cbn [ensures fst snd]; rflat.
  all: repeat split; try reflexivity.
  all: try (unfold cp_spec, cp_contributors, body_contributors,
            fin_contributors in *; rflat; exact Hcp).
  all: unfold aero_frame; rflat; reflexivity.
Qed.

(** ** The methods return on a configured rocket *)

Lemma calculate_cp_position_total (self : Rocket.t) :
  configured self -> exists s', Rocket._calculate_cp_position self = Ok s'.
Proof.
  unfold configured. destruct self. unfold Rocket._calculate_cp_position.
  rflat. intros (Hn & _ & _ & Hcc & _ & Hca & _).
  loop_total (fun (i : nat) (ab : R * R) => True).
  - exact I.
  - intros i ab Hi _.
    destruct (py_get_lt component_centroid i ltac:(lia)) as (c & _ & ->).
    destruct (py_get_lt rocket_dim i ltac:(lia)) as (p & _ & ->).
    destruct (py_get_lt component_cn_alpha i ltac:(lia)) as (s & _ & ->).
    rstep. eauto.
  - rstep. destruct s as [a b]. cbv beta iota.
    destruct (py_get_lt component_centroid 0%nat ltac:(lia)) as (c & _ & Hc).
    destruct use_fins;
      match goal with
      | |- context [Req_dec_T ?x 0] => destruct (Req_dec_T x 0)
      end; try rewrite Hc; rstep; eauto.
Qed.

Lemma ln_lower_bound (x : R) : 10e4 <= x -> 4 < ln x.
Proof.
  intros Hx. rewrite <- (ln_exp 4). apply ln_increasing; [apply exp_pos|].
  replace 4 with (1 + 1 + 1 + 1) by ring. rewrite !exp_plus.
  pose proof exp_le_3 as H3. pose proof (exp_pos 1) as H0.
  assert (H2 : exp 1 * exp 1 <= 9) by nra.
  assert (H4 : exp 1 * exp 1 * exp 1 * exp 1 <= 81) by nra.
  lra.
Qed.

Lemma calculate_cf_total (self : Rocket.t) :
  0 < Rocket.length self ->
  0 < Rocket.relative_rough self ->
  (exists crit, Rocket.reynolds_crit self = PyFloat crit) ->
  exists v, Rocket._calculate_cf self = Ok (Rocket.set_Cf v self).
Proof.
  destruct self. unfold Rocket._calculate_cf. rflat.
  intros Hlen Hrough (crit & ->).
  destruct (Rlt_dec reynolds 10e4) as [Hre|Hre]; [|destruct (Rlt_dec reynolds crit)].
  - rstep. eauto.
  - assert (Hln : 4 < ln reynolds) by (apply ln_lower_bound; lra).
    unfold np_log. destruct (Rlt_dec 0 reynolds); [|exfalso; lra]. rstep.
    rewrite np_div_Ok by (apply pow_nonzero; lra). rstep. eauto.
  - rewrite py_div_Ok by lra. rstep.
    unfold np_power.
    destruct (Rlt_dec 0 (relative_rough / length)) as [_|Hn];
      [|exfalso; apply Hn; apply Rdiv_lt_0_compat; assumption].
    rstep. eauto.
Qed.

(** [_calculate_pressure_drag] returns on every body of at least two
    stations whose first segment has a length: the angle of a segment of
    length zero is the one of the segment before it. *)
Lemma calculate_pressure_drag_total (self : Rocket.t) (p0 p1 : R * R) :
  Rocket.rocket_dim self !! 0%nat = Some p0 ->
  Rocket.rocket_dim self !! 1%nat = Some p1 ->
  fst p1 - fst p0 <> 0 ->
  exists c out,
    Rocket._calculate_pressure_drag self
    = Ok (Rocket.set_stdout out (Rocket.set_cd_pressure_component c self))
    /\ List.length c = (List.length (Rocket.rocket_dim self) - 1)%nat.
Proof.
  destruct self. unfold Rocket._calculate_pressure_drag. rflat.
  intros Hp0 Hp1 Hl.
  assert (Hn : (2 <= List.length rocket_dim)%nat)
    by (apply lookup_lt_Some in Hp1; lia).
  match goal with
  | |- context [for_range _ _ (?s, _)] => pose (S0 := s)
  end.
  loop_total (fun (i : nat) (st : Rocket.t * option R) =>
    (exists c out,
       fst st = Rocket.set_stdout out (Rocket.set_cd_pressure_component c S0)
       /\ List.length c = (List.length rocket_dim - 1)%nat)
    /\ ((0 < i)%nat -> snd st <> None)).
  - split; [|lia]. exists (replicate (List.length rocket_dim - 1) 0), stdout.
    subst S0. cbn [fst]. rflat. split; [reflexivity | apply length_replicate].
  - intros i [s phi] Hi ((c & out & Hs & Hc) & Hphi). cbn [fst snd] in *.
    subst s S0. unfold Rocket._calculate_pressure_drag_body. rflat.
    destruct (lookup_station_lt rocket_dim i Hi) as (q0 & q1 & Hq0 & Hq1).
    rewrite Nat.add_1_r, (py_get_Ok _ _ _ Hq1), (py_get_Ok _ _ _ Hq0). rstep.
    unfold py_div. destruct (Req_dec_T (fst q1 - fst q0) 0) as [Hz|Hnz].
    + destruct i as [|i].
      { exfalso. rewrite Hp0 in Hq0. rewrite Hp1 in Hq1.
        injection Hq0 as <-. injection Hq1 as <-. contradiction. }
      destruct phi as [ph|]; [|exfalso; apply Hphi; [lia | reflexivity]].
      rstep. rewrite py_set_Ok by lia. rstep.
      eexists. split; [reflexivity|]. cbn [fst snd]. split; [|discriminate].
      do 2 eexists. rflat. split; [reflexivity|].
      rewrite length_insert. exact Hc.
    + rstep. rewrite py_set_Ok by lia. rstep.
      eexists. split; [reflexivity|]. cbn [fst snd]. split; [|discriminate].
      do 2 eexists. rflat. split; [reflexivity|].
      rewrite length_insert. exact Hc.
  - destruct s as [s phi]. destruct Hinv as ((c & out & Hs & Hc) & _).
    cbn [fst] in Hs. subst s S0. rstep. destruct ogive.
    + rewrite py_set_Ok by lia. rstep. do 2 eexists. rflat.
      split; [reflexivity|]. rewrite length_insert. exact Hc.
    + rstep. do 2 eexists. rflat. split; [reflexivity | exact Hc].
Qed.

Lemma calculate_cd_total (aoa : R) (self : Rocket.t) :
  Rocket.fineness self <> 0 ->
  Rocket.area_ref self <> 0 ->
  (1 <= List.length (Rocket.station_cross_area self))%nat ->
  List.length (Rocket.cd_pressure_component self)
  = (List.length (Rocket.station_cross_area self) - 1)%nat ->
  exists s', Rocket._calculate_cd aoa self = Ok s'.
Proof.
  destruct self. unfold Rocket._calculate_cd. rflat.
  intros Hf Ha Hn Hc.
  rewrite py_div_Ok by lra. rstep. rewrite np_div_Ok by exact Ha. rstep.
  loop_state S0.
  loop_total (fun (i : nat) (s : Rocket.t) =>
    exists c d,
      s = Rocket.set_pressure_cd c (Rocket.set_cd_pressure_component d S0)
      /\ List.length d = (List.length station_cross_area - 1)%nat).
  - do 2 eexists. subst S0. rflat. split; [reflexivity | exact Hc].
  - intros i s Hi (c & d & -> & Hd). subst S0. rflat.
    destruct (py_get_lt station_cross_area (i + 1) ltac:(lia))
      as (a1 & _ & ->).
    destruct (py_get_lt station_cross_area i ltac:(lia)) as (a0 & _ & ->).
    match goal with
    | |- context [if ?b then _ else _] => destruct b
    end; rstep.
    + rewrite py_set_Ok by lia. rstep. rewrite py_div_Ok by exact Ha. rstep.
      destruct (py_get_lt (<[i := 1]> d) i
                  ltac:(rewrite length_insert; lia)) as (x & _ & ->).
      rstep. eexists. split; [reflexivity|]. do 2 eexists. rflat.
      split; [reflexivity|]. rewrite length_insert. exact Hd.
    + rewrite py_div_Ok by exact Ha. rstep.
      destruct (py_get_lt d i ltac:(lia)) as (x & _ & ->).
      rstep. eexists. split; [reflexivity|]. do 2 eexists. rflat.
      split; [reflexivity | exact Hd].
  - destruct Hinv as (c & d & -> & Hd). subst S0. rstep.
    destruct (py_last_Ok station_cross_area) as (a & _ & ->).
    { intros ->. cbn in Hn. lia. }
    rstep. rewrite py_div_Ok by exact Ha. rstep. eauto.
Qed.

Lemma np_interp_ca_scale (aoa : R) :
  exists v, np_interp aoa Rocket.aoa_list_ca Rocket.ca_scale = Ok v.
Proof.
  unfold np_interp, Rocket.aoa_list_ca, Rocket.ca_scale.
  cbn [List.length Nat.eqb]. eauto.
Qed.

Lemma calculate_ca_total (aoa : R) (self : Rocket.t) :
  Rocket.area_ref self <> 0 ->
  exists s', Rocket._calculate_ca aoa self = Ok s'.
Proof.
  destruct self.
  unfold Rocket._calculate_ca, Rocket._fin_ca, Rocket._control_fin_drag.
  rflat. intros Ha. destruct (np_interp_ca_scale aoa) as (v & ->). rstep.
  destruct use_fins; rstep; [|eauto].
  rewrite py_div_Ok by exact Ha. rstep.
  rewrite py_div_Ok by exact Ha. rstep. eauto.
Qed.

(** The drag methods return on a configured rocket whose first segment has
    a length, in air of non-zero viscosity. *)
Lemma calculate_total_ca_total (aoa velocity_0 rho mu : R) (self : Rocket.t)
    (p0 p1 : R * R) :
  configured self ->
  Rocket.rocket_dim self !! 0%nat = Some p0 ->
  Rocket.rocket_dim self !! 1%nat = Some p1 ->
  fst p1 - fst p0 <> 0 ->
  mu <> 0 ->
  exists s', Rocket._calculate_total_ca aoa velocity_0 rho mu self = Ok s'.
Proof.
  unfold configured. destruct self. rflat.
  intros (Hn & Hsca & _ & _ & _ & _ & Ha & Hf & Hlen & Hrough & Hcrit)
    Hp0 Hp1 Hl Hmu.
  unfold Rocket._calculate_total_ca, Rocket._calculate_reynolds. rflat.
  rewrite np_div_Ok by exact Hmu. rstep.
  match goal with
  | |- context [Rocket._calculate_cf ?s] =>
      destruct (calculate_cf_total s) as (cf & ->);
      [rflat; assumption ..|]
  end.
  rstep.
  match goal with
  | |- context [Rocket._calculate_pressure_drag ?s] =>
      destruct (calculate_pressure_drag_total s p0 p1)
        as (c & out & -> & Hc); [rflat; assumption ..|]
  end.
  unfold Rocket._calculate_base_drag. rstep.
  match goal with
  | |- context [Rocket._calculate_cd aoa ?s] =>
      destruct (calculate_cd_total aoa s) as (s4 & E4);
      [rflat; first [assumption | lia] ..|]
  end.
  rewrite E4. rstep.
  pose proof (ensures_Ok _ _ _ (calculate_cd_ensures _ _) E4)
    as (a & b & c' & d & e & ->).
  apply calculate_ca_total. rflat. exact Ha.
Qed.

(** ** Evaluation without fins *)

Lemma length_body_cn_list (aoa : R) (self : Rocket.t) :
  configured self ->
  List.length (body_cn_list aoa self)
  = (List.length (Rocket.rocket_dim self) - 1)%nat.
Proof.
  unfold configured, body_cn_list.
  intros (Hn & Hsca & Hcpa & _).
  rewrite length_zip_with, length_barrowman_list, length_crossflow_list.
  lia.
Qed.

(** On a configured rocket without fins whose first segment has a length,
    at a Mach number of at most [1] and in air of non-zero viscosity,
    [calculate_aero_coef] returns and leaves the rocket configured; the
    normal-force coefficient is the sum of those of the body components at
    the angle that the solver works with, with the sign of the
    convention. *)
Lemma calculate_aero_coef_nofins (aoa : R) (v_loc_tot : R * R)
    (rho mu mach actuator_angle q : R) (self : Rocket.t) (p0 p1 : R * R) :
  configured self ->
  Rocket.use_fins self = false ->
  Rocket.rocket_dim self !! 0%nat = Some p0 ->
  Rocket.rocket_dim self !! 1%nat = Some p1 ->
  fst p1 - fst p0 <> 0 ->
  mu <> 0 ->
  mach ^ 2 <= 1 ->
  exists s' cp ca,
    Rocket.calculate_aero_coef aoa v_loc_tot rho mu mach actuator_angle q self
    = Ok (s',
          (Rocket.__sign_correction aoa
           * fold_left Rplus (body_cn_list (effective_aoa aoa) self) 0,
           cp, ca))
    /\ configured s'.
Proof.
  intros Hconf Hfins Hp0 Hp1 Hl Hmu Hmach.
  pose proof (length_body_cn_list (effective_aoa aoa) self Hconf) as Hlen.
  revert Hconf Hfins Hp0 Hp1 Hlen.
  unfold configured, body_cn_list. destruct self. rflat.
  intros Hconf -> Hp0 Hp1 Hlen.
  unfold Rocket.calculate_aero_coef.
  rewrite np_sqrt_Ok by (apply Rplus_le_le_0_compat; apply pow2_ge_0).
  rewrite (np_sqrt_Ok (1 - mach ^ 2)) by lra.
  destruct (Rlt_dec mach 0.001) as [Hm|Hm]; rstep.
  all: rewrite calculate_total_cn_nofins
         by (unfold configured; rflat; first [exact Hconf | reflexivity]).
  all: unfold body_cn_alpha_list, body_cn_list; rstep.
  all: match goal with
       | |- context [Rocket._calculate_cp_position ?s] =>
           let s2 := fresh "s" in
           let E := fresh "E" in
           let v := fresh "v" in
           destruct (calculate_cp_position_total s) as (s2 & E);
           [ unfold configured; rflat;
             rewrite ?length_map, ?Hlen; tauto
           | rewrite E;
             pose proof (ensures_Ok _ _ _ (calculate_cp_position_ensures _) E)
               as (v & -> & _); clear E; rstep ]
       end.
  all: match goal with
       | |- context [Rocket._calculate_total_ca ?a ?b ?c ?d ?s] =>
           let s3 := fresh "s" in
           let E := fresh "E" in
           let H := fresh "H" in
           destruct (calculate_total_ca_total a b c d s p0 p1) as (s3 & E);
           [ unfold configured; rflat;
             rewrite ?length_map, ?Hlen; tauto
           | rflat; assumption ..
           | rewrite E;
             pose proof (ensures_Ok _ _ _
                           (calculate_total_ca_ensures _ _ _ _ _) E)
               as (H & _); clear E; destruct s3; frame_inv H; rstep ]
       end.
  all: do 3 eexists; split; [reflexivity|].
  all: unfold configured; rflat; rewrite ?length_map, ?Hlen; tauto.
Qed.

(** ** Fins *)

(** Brings every fin of the goal and the hypotheses into constructor
    form. *)
Ltac fflat :=
  cbv beta iota zeta delta
    [Fin._dim Fin.flat_plate Fin.fin_attached Fin.c_root Fin.c_tip
     Fin.x_tail Fin.wingspan Fin.area Fin.y_mac Fin.x_force_fin
     Fin.aspect_ratio Fin.cp_total Fin.sb_angle Fin.beta Fin.mach Fin.cn0
     Fin.ca Fin.cn_alpha_0 Fin.cn_alpha Fin.cp Fin.dim
     Fin.set__dim Fin.set_flat_plate Fin.set_fin_attached Fin.set_c_root
     Fin.set_c_tip Fin.set_x_tail Fin.set_wingspan Fin.set_area
     Fin.set_y_mac Fin.set_x_force_fin Fin.set_aspect_ratio
     Fin.set_cp_total Fin.set_sb_angle Fin.set_beta Fin.set_mach
     Fin.set_cn0 Fin.set_ca Fin.set_cn_alpha_0 Fin.set_cn_alpha
     Fin.dim_get Fin._calculate_area] in *.

Ltac fstep := fflat; repeat (rewrite bind_ret; fflat); cbn [fst snd] in *.

(** [_calculate_mac_xf_ar] assigns the mean chord position, the point of
    application of the force and the aspect ratio, and nothing else. *)
Lemma Fin_calculate_mac_xf_ar_shape (self : Fin.t) :
  exists y x ar,
    Fin._calculate_mac_xf_ar self
    = Fin.set_aspect_ratio ar (Fin.set_x_force_fin x (Fin.set_y_mac y self))
    /\ (Fin.area self <> 0 ->
        ar = 2 * Fin.wingspan self ^ 2 / Fin.area self
             * (if Fin.fin_attached self then 1 else 0.625)).
Proof.
  destruct self. unfold Fin._calculate_mac_xf_ar. cbv zeta.
  repeat match goal with
         | |- context [Req_dec_T ?x 0] =>
             destruct (Req_dec_T x 0); cbv beta iota
         end;
    destruct fin_attached; fflat; do 3 eexists;
    (split; [reflexivity|]); intros Hne; try contradiction; lra.
Qed.

(** [update] returns on a planform of four points with a span: it stores
    the planform, the chords, the span, the area, the centre of pressure
    behind the leading edge of the root, the sweepback angle and, for a
    planform with an area, the aspect ratio of two fins joined at the
    root, reduced for a fin away from the body. *)
Lemma Fin_update_total (l : list (R * R)) (att : bool) (self : Fin.t)
    (p0 p1 p2 p3 : R * R) :
  l !! 0%nat = Some p0 -> l !! 1%nat = Some p1 ->
  l !! 2%nat = Some p2 -> l !! 3%nat = Some p3 ->
  snd p1 - snd p0 <> 0 ->
  exists f',
    Fin.update l att self = Ok f'
    /\ Fin.dim f' = Some l
    /\ Fin.fin_attached f' = att
    /\ Fin.c_root f' = fst p3 - fst p0
    /\ Fin.c_tip f' = fst p2 - fst p1
    /\ Fin.x_tail f' = fst p1 - fst p0
    /\ Fin.wingspan f' = snd p1 - snd p0
    /\ Fin.area f' = (Fin.c_root f' + Fin.c_tip f') * Fin.wingspan f' / 2
    /\ Fin.cp f' = fst p0 + Fin.x_force_fin f'
    /\ Fin.sb_angle f'
       = atan ((fst p1 + 0.25 * Fin.c_tip f'
                - (fst p0 + 0.25 * Fin.c_root f')) / Fin.wingspan f')
    /\ Fin.flat_plate f' = Fin.flat_plate self
    /\ (Fin.area f' <> 0 ->
        Fin.aspect_ratio f'
        = 2 * Fin.wingspan f' ^ 2 / Fin.area f'
          * (if att then 1 else 0.625)).
Proof.
  intros H0 H1 H2 H3 Hw. destruct self.
  unfold Fin.update, Fin._calculate_real_dimension,
    Fin._calculate_force_application_point, Fin._calculate_sweepback_angle.
  fflat.
  rewrite (py_get_Ok _ _ _ H0), (py_get_Ok _ _ _ H1), (py_get_Ok _ _ _ H2),
    (py_get_Ok _ _ _ H3).
  fstep.
  match goal with
  | |- context [Fin._calculate_mac_xf_ar ?f] =>
      destruct (Fin_calculate_mac_xf_ar_shape f) as (y & x & ar & -> & Har)
  end.
  fstep.
  repeat (progress rewrite ?(py_get_Ok _ _ _ H0), ?(py_get_Ok _ _ _ H1); fstep).
  rewrite (py_div_Ok _ _ Hw). fstep.
  eexists. split; [reflexivity|]. fflat.
  repeat match goal with |- _ /\ _ => split end; try reflexivity.
  exact Har.
Qed.

(** [update] on a planform without a span divides by zero. *)
Lemma Fin_update_zero_span (l : list (R * R)) (att : bool) (self : Fin.t)
    (p0 p1 p2 p3 : R * R) :
  l !! 0%nat = Some p0 -> l !! 1%nat = Some p1 ->
  l !! 2%nat = Some p2 -> l !! 3%nat = Some p3 ->
  snd p1 - snd p0 = 0 ->
  Fin.update l att self = Raise ZeroDivisionError.
Proof.
  intros H0 H1 H2 H3 Hw. destruct self.
  unfold Fin.update, Fin._calculate_real_dimension,
    Fin._calculate_force_application_point, Fin._calculate_sweepback_angle.
  fflat.
  rewrite (py_get_Ok _ _ _ H0), (py_get_Ok _ _ _ H1), (py_get_Ok _ _ _ H2),
    (py_get_Ok _ _ _ H3).
  fstep.
  match goal with
  | |- context [Fin._calculate_mac_xf_ar ?f] =>
      destruct (Fin_calculate_mac_xf_ar_shape f) as (y & x & ar & -> & _)
  end.
  fstep.
  repeat (progress rewrite ?(py_get_Ok _ _ _ H0), ?(py_get_Ok _ _ _ H1); fstep).
  unfold py_div. rewrite Hw.
  destruct (Req_dec_T 0 0) as [_|Hn]; [reflexivity | exfalso; lra].
Qed.

Lemma Fin_update_zero_fin (self : Fin.t) :
  exists f', Fin.update Rocket.zero_fin true self = Ok f'.
Proof.
  destruct (Fin_update_total Rocket.zero_fin true self
              (0.00001, 0.0000) (0.0001, 0.0001) (0.0002, 0.0001)
              (0.0002, 0.0000)) as (f' & Hf & _); try reflexivity.
  - cbn [fst snd]. lra.
  - eauto.
Qed.

(** ** Configuration *)

Lemma fore_scan_total (l : list (R * R)) (xcg t : R) :
  Exists (fun p => xcg <= fst p) l ->
  exists t', Rocket.fore_scan l xcg t = Ok t'.
Proof.
  revert t. induction l as [|p l IH]; intros t H.
  - inversion H.
  - cbn [Rocket.fore_scan]. destruct (Rlt_dec (fst p) xcg) as [Hlt|_].
    + apply IH. inversion H as [? ? Hp|]; [exfalso; lra | assumption].
    + eauto.
Qed.

Lemma aft_scan_total (l : list (R * R)) (xcg t : R) :
  Exists (fun p => fst p <= xcg) l ->
  exists t', Rocket.aft_scan l xcg t = Ok t'.
Proof.
  revert t. induction l as [|p l IH]; intros t H.
  - inversion H.
  - cbn [Rocket.aft_scan]. destruct (Rgt_dec (fst p) xcg) as [Hgt|_].
    + apply IH. inversion H as [? ? Hp|]; [exfalso; lra | assumption].
    + eauto.
Qed.

Lemma last_Exists {A : Type} (P : A -> Prop) (l : list A) (a : A) :
  last l = Some a -> P a -> Exists P l.
Proof.
  intros Hl Ha. apply Exists_exists. exists a. split; [|exact Ha].
  apply last_Some in Hl as (l' & ->). apply elem_of_app. right. constructor.
Qed.

Lemma head_Exists {A : Type} (P : A -> Prop) (l : list A) (a : A) :
  l !! 0%nat = Some a -> P a -> Exists P l.
Proof.
  destruct l as [|b l]; [discriminate|]. intros H Ha.
  injection H as ->. now left.
Qed.

(** [_calculate_pitch_damping_body] returns when the centre of gravity is
    behind the first station and before the last one, and not at [0]. *)
Lemma calculate_pitch_damping_body_total (self : Rocket.t) (p0 p : R * R) :
  Rocket.rocket_dim self !! 0%nat = Some p0 ->
  last (Rocket.rocket_dim self) = Some p ->
  fst p0 <= Rocket.xcg self -> Rocket.xcg self <> 0 ->
  Rocket.xcg self < fst p ->
  exists a b c,
    Rocket._calculate_pitch_damping_body self
    = Ok (Rocket.set_q_damp_body c
            (Rocket.set_avg_rad_aft b (Rocket.set_avg_rad_fore a self))).
Proof.
  destruct self. rflat. intros H0 Hl Hfore Hx Haft.
  unfold Rocket._calculate_pitch_damping_body,
    Rocket._calculate_avg_radius_fore, Rocket._calculate_avg_radius_aft.
  rflat.
  destruct (fore_scan_total rocket_dim xcg 0) as (t1 & ->).
  { apply (last_Exists _ _ _ Hl). lra. }
  rstep. rewrite py_div_Ok by exact Hx. rstep.
  destruct (aft_scan_total (rev rocket_dim ++ rev rocket_dim) xcg 0)
    as (t2 & ->).
  { apply Exists_app. left. apply Exists_rev.
    apply (head_Exists _ _ _ H0). exact Hfore. }
  rstep. rewrite (py_last_Some _ _ Hl). rstep.
  rewrite py_div_Ok by lra. rstep. rewrite (py_last_Some _ _ Hl). rstep.
  do 3 eexists. reflexivity.
Qed.

Lemma calculate_reynolds_crit_total (self : Rocket.t) :
  0 < Rocket.length self ->
  exists crit,
    Rocket._calculate_reynolds_crit self
    = Ok (Rocket.set_reynolds_crit (PyFloat crit)
            (Rocket.set_relative_rough 60e-6 self)).
Proof.
  destruct self. rflat. intros Hlen.
  unfold Rocket._calculate_reynolds_crit. rflat.
  rewrite py_div_Ok by lra. rstep. unfold py_pow.
  destruct (Rlt_dec 0 (60e-6 / length)) as [_|Hn].
  - rstep. eexists. reflexivity.
  - exfalso. apply Hn. apply Rdiv_lt_0_compat; lra.
Qed.

Lemma fold_diameter_ge (l : list (R * R)) (d : R) :
  d <= fold_left (fun d p => if Rgt_dec (snd p) d then snd p else d) l d.
Proof.
  revert d. induction l as [|p l IH]; intros d; cbn [fold_left]; [lra|].
  eapply Rle_trans; [|apply IH]. destruct (Rgt_dec (snd p) d); lra.
Qed.

Lemma max_diameter_nonneg (l : list (R * R)) : 0 <= max_diameter l.
Proof. apply fold_diameter_ge. Qed.

(** [update_rocket] returns when no division of the geometry is by zero,
    the planforms of the fins in use are valid, and the centre of gravity
    is behind the first station, before the last one, and not at [0].  The
    rocket is then configured, with the geometry of the stations; nothing
    is printed. *)
Lemma update_rocket_total (l : rocket_data) (xcg : R) (self : Rocket.t)
    (p0 p1 p : R * R) :
  d_rocket_dim l !! 0%nat = Some p0 ->
  d_rocket_dim l !! 1%nat = Some p1 ->
  last (d_rocket_dim l) = Some p ->
  nondegenerate (d_rocket_dim l) ->
  (d_use_fins l = true -> valid_planform (d_fin0 l)) ->
  (d_use_fins l = true -> d_use_fins_control l = true ->
   valid_planform (d_fin1 l)) ->
  fst p0 <= xcg -> 0 < xcg -> xcg < fst p ->
  exists s',
    Rocket.update_rocket l xcg self = Ok s'
    /\ configured s'
    /\ Rocket.use_fins s' = d_use_fins l
    /\ Rocket.ogive s' = d_ogive l
    /\ Rocket.rocket_dim s' = d_rocket_dim l
    /\ Rocket.station_cross_area s' = cross_areas (d_rocket_dim l)
    /\ Rocket.component_plan_area s'
       = plan_areas (d_ogive l) (d_rocket_dim l)
    /\ Rocket.component_centroid s'
       = centroids (d_ogive l) (d_rocket_dim l)
    /\ Rocket.area_ref s' = PI * (max_diameter (d_rocket_dim l) / 2) ^ 2
    /\ Rocket.length s' = fst p
    /\ Rocket.stdout s' = Rocket.stdout self.
Proof.
  intros H0 H1 Hl Hnd Hfin0 Hfin1 Hfore Hx Haft.
  assert (Hne : d_rocket_dim l <> [])
    by (intros E; rewrite E in H0; discriminate).
  assert (Hn : (2 <= List.length (d_rocket_dim l))%nat)
    by (apply lookup_lt_Some in H1; lia).
  pose proof (with_geometry_arrays (d_rocket_dim l) p p1) as Harr.
  pose proof Hnd as (Hmd & _).
  pose proof (max_diameter_nonneg (d_rocket_dim l)) as Hmd0.
  unfold Rocket.update_rocket. destruct self. rflat.
  rewrite (update_rocket_dim_total _ p p1) by assumption.
  match goal with
  | |- context [with_geometry _ _ _ ?s] =>
      specialize (Harr s Hne); revert Harr
  end.
  unfold with_geometry, pre_geometry. rstep.
  intros (A1 & _ & A3 & _ & A5 & A6 & A7 & _).
  match goal with
  | |- context [Fin.update Rocket.zero_fin true ?f] =>
      destruct (Fin_update_zero_fin f) as (f1 & ->)
  end.
  rstep.
  match goal with
  | |- context [bind (if d_use_fins l then ?A else Ok ?S) _] =>
      assert (Hfins : exists f,
                 (if d_use_fins l then A else Ok S) = Ok (Rocket.set_fin f S))
  end.
  { destruct (d_use_fins l); [|eexists; rflat; reflexivity].
    destruct (Hfin0 eq_refl) as (a0 & a1 & a2 & a3 & B0 & B1 & B2 & B3 & Bw).
    match goal with
    | |- context [Fin.update (d_fin0 l) ?att ?f] =>
        destruct (Fin_update_total (d_fin0 l) att f a0 a1 a2 a3
                    B0 B1 B2 B3 Bw) as (f0 & -> & _)
    end.
    rstep.
    destruct (d_use_fins_control l); [|eexists; rflat; reflexivity].
    destruct (Hfin1 eq_refl eq_refl)
      as (b0 & b1 & b2 & b3 & C0 & C1 & C2 & C3 & Cw).
    match goal with
    | |- context [Fin.update (d_fin1 l) ?att ?f] =>
        destruct (Fin_update_total (d_fin1 l) att f b0 b1 b2 b3
                    C0 C1 C2 C3 Cw) as (f2 & -> & _)
    end.
    rstep. eexists. rflat. reflexivity. }
  destruct Hfins as (f & ->). rstep.
  all: match goal with
       | |- context [Rocket._calculate_pitch_damping_body ?s] =>
           destruct (calculate_pitch_damping_body_total s p0 p)
             as (a & b & c & ->); [rflat; first [assumption | lra] ..|]
       end.
  all: rstep.
  all: match goal with
       | |- context [Rocket._calculate_reynolds_crit ?s] =>
           destruct (calculate_reynolds_crit_total s) as (crit & ->);
           [rflat; lra|]
       end.
  all: eexists; split; [reflexivity|]; unfold configured; rflat.
  all: repeat split; try reflexivity; try assumption; try lra.
  all: try (apply Rmult_integral_contrapositive_currified;
            [apply PI_neq0 | apply pow_nonzero; lra]).
  all: try (intros E; apply Rmult_integral in E as [E|E]; [lra|];
            apply Rinv_neq_0_compat in Hmd; contradiction).
  all: eauto.
Qed.

Lemma update_rocket_dim_ensures (l : list (R * R)) (self : Rocket.t) :
  ensures (Rocket._update_rocket_dim l self)
    (fun s' => exists p p1,
       last l = Some p /\ l !! 1%nat = Some p1 /\ nondegenerate l
       /\ s' = with_geometry l p p1 self).
Proof. apply ensures_intro. apply update_rocket_dim_inv. Qed.

Lemma calculate_pitch_damping_body_ensures (self : Rocket.t) :
  ensures (Rocket._calculate_pitch_damping_body self)
    (fun s' => exists a b c,
       s' = Rocket.set_q_damp_body c
              (Rocket.set_avg_rad_aft b (Rocket.set_avg_rad_fore a self))).
Proof.
  destruct self.
  unfold Rocket._calculate_pitch_damping_body,
    Rocket._calculate_avg_radius_fore, Rocket._calculate_avg_radius_aft.
  ens_run. do 3 eexists. rflat. reflexivity.
Qed.

Lemma calculate_reynolds_crit_ensures (self : Rocket.t) :
  ensures (Rocket._calculate_reynolds_crit self)
    (fun s' => exists c,
       s' = Rocket.set_reynolds_crit c
              (Rocket.set_relative_rough 60e-6 self)).
Proof.
  destruct self. unfold Rocket._calculate_reynolds_crit.
  ens_run. eexists. rflat. reflexivity.
Qed.

(** Whenever [update_rocket] returns, the rocket has the flags and the
    stations of the data and the geometry computed from the stations, no
    division of the geometry was by zero, and nothing was printed. *)
Lemma update_rocket_ensures (l : rocket_data) (xcg : R) (self : Rocket.t) :
  ensures (Rocket.update_rocket l xcg self)
    (fun s' =>
       Rocket.use_fins s' = d_use_fins l
       /\ Rocket.ogive s' = d_ogive l
       /\ Rocket.rocket_dim s' = d_rocket_dim l
       /\ Rocket.xcg s' = xcg
       /\ nondegenerate (d_rocket_dim l)
       /\ Rocket.station_cross_area s' = cross_areas (d_rocket_dim l)
       /\ Rocket.component_plan_area s'
          = plan_areas (d_ogive l) (d_rocket_dim l)
       /\ Rocket.component_volume s'
          = map frustum_volume (segments (d_rocket_dim l))
       /\ Rocket.component_centroid s'
          = centroids (d_ogive l) (d_rocket_dim l)
       /\ Rocket.area_ref s' = PI * (max_diameter (d_rocket_dim l) / 2) ^ 2
       /\ Rocket.relative_rough s' = 60e-6
       /\ Rocket.is_in_the_pad_flag s' = true
       /\ Rocket.stdout s' = Rocket.stdout self).
Proof.
  destruct self. unfold Rocket.update_rocket. rflat.
  ens_call update_rocket_dim_ensures.
  intros s (p & p1 & Hl & H1 & Hnd & ->).
  unfold with_geometry, pre_geometry. rflat.
  ens_step. ens_step. apply ensures_bind.
  match goal with
  | |- ensures (if _ then _ else Ok ?S) _ =>
      apply ensures_weaken with
        (P := fun s => exists f, s = Rocket.set_fin f S)
  end.
  { destruct (d_use_fins l); [|cbn [ensures]; eexists; rflat; reflexivity].
    ens_step. ens_step.
    destruct (d_use_fins_control l); ens_run; eexists; rflat; reflexivity. }
  intros s (f & ->). rflat.
  ens_call calculate_pitch_damping_body_ensures.
  intros s (a' & b & c & ->). rflat.
  eapply ensures_weaken; [apply calculate_reynolds_crit_ensures|].
  cbv beta. intros s (rc & ->). rflat.
  repeat match goal with |- _ /\ _ => split end; try reflexivity.
  exact Hnd.
Qed.

(** ** Example bodies *)

Lemma max_diameter_cone_cylinder (x1 x2 d : R) :
  0 < d -> max_diameter (cone_cylinder x1 x2 d) = d.
Proof.
  intros Hd. unfold max_diameter, cone_cylinder. cbn [fold_left snd].
  destruct (Rgt_dec 0 0) as [H|_]; [exfalso; lra|].
  destruct (Rgt_dec d 0) as [_|H]; [|exfalso; lra].
  destruct (Rgt_dec d d) as [H|_]; [exfalso; lra | reflexivity].
Qed.

Lemma nondegenerate_cone_cylinder (x1 x2 d : R) :
  0 < d -> nondegenerate (cone_cylinder x1 x2 d).
Proof.
  intros Hd. split.
  - rewrite max_diameter_cone_cylinder by exact Hd. lra.
  - unfold cone_cylinder, segments. cbn [zip_with tail].
    repeat constructor; unfold seg_r1, seg_r2; cbn [fst snd]; lra.
Qed.

Lemma nondegenerate_stepped_body : nondegenerate stepped_body.
Proof.
  split.
  - unfold max_diameter, stepped_body. cbn [fold_left snd].
    destruct (Rgt_dec 0 0) as [H|_]; [exfalso; lra|].
    destruct (Rgt_dec 0.1 0) as [_|H]; [|exfalso; lra].
    destruct (Rgt_dec 0.2 0.1) as [_|H]; [|exfalso; lra].
    destruct (Rgt_dec 0.2 0.2) as [H|_]; [exfalso; lra|]. lra.
  - unfold stepped_body, segments. cbn [zip_with tail].
    repeat constructor; unfold seg_r1, seg_r2; cbn [fst snd]; lra.
Qed.

Lemma zero_length_report_stepped_body :
  zero_length_report stepped_body = ["Component length is zero"%string].
Proof.
  unfold zero_length_report, zero_length_count, stepped_body, segments.
  cbn [zip_with tail List.filter]. unfold zero_length, seg_length.
  cbn [fst snd].
  destruct (Req_dec_T (1 - 0) 0) as [H|_]; [exfalso; lra|].
  destruct (Req_dec_T (1 - 1) 0) as [_|H]; [|exfalso; lra].
  destruct (Req_dec_T (3 - 1) 0) as [H|_]; [exfalso; lra|].
  reflexivity.
Qed.

Lemma valid_planform_example : valid_planform example_planform.
Proof.
  exists (2.5, 0.05), (2.7, 0.15), (2.9, 0.15), (3, 0.05).
  repeat split. cbn [fst snd]. lra.
Qed.

(** The normal-force coefficients of the two components of a
    cone-cylinder add up to the closed form. *)
Lemma cone_cylinder_body_cn (ogive : bool) (x1 x2 d a : R) (s : Rocket.t) :
  0 < d ->
  Rocket.station_cross_area s = cross_areas (cone_cylinder x1 x2 d) ->
  Rocket.component_plan_area s = plan_areas ogive (cone_cylinder x1 x2 d) ->
  Rocket.area_ref s = PI * (d / 2) ^ 2 ->
  fold_left Rplus (body_cn_list a s) 0
  = 2 * sin a
    + 1.1 * (cone_cylinder_planform ogive x1 x2 d / (PI * (d / 2) ^ 2))
      * sin a ^ 2.
Proof.
  intros Hd Hsca Hcpa Href. unfold body_cn_list.
  rewrite Hsca, Hcpa, Href.
  unfold cone_cylinder_planform, plan_areas, ogive_override, cone_cylinder,
    cross_areas, barrowman_list, crossflow_list, segments.
  destruct ogive;
    cbn [zip_with tail map fold_left list_insert insert];
    unfold frustum_plan_area, seg_length, seg_r1, seg_r2; cbn [fst snd];
    field; (split; [lra | apply PI_neq0]).
Qed.

(** A cone-cylinder without fins is configured by [update_rocket] when the
    centre of gravity is inside the body, nothing is printed, and
    [calculate_aero_coef] then returns the closed form of the normal-force
    coefficient. *)
Lemma cone_cylinder_run (ogive : bool) (x1 x2 d xcg : R) (s0 : Rocket.t) :
  0 < x1 < x2 -> 0 < d -> 0 < xcg < x2 ->
  exists s,
    Rocket.update_rocket (body_data ogive (cone_cylinder x1 x2 d)) xcg s0
    = Ok s
    /\ forall aoa v_loc_tot rho mu mach actuator_angle q,
         mu <> 0 -> mach ^ 2 <= 1 ->
         exists s' cp ca,
           Rocket.calculate_aero_coef aoa v_loc_tot rho mu mach
             actuator_angle q s
           = Ok (s', (cone_cylinder_cn ogive x1 x2 d aoa, cp, ca)).
Proof.
  intros Hx Hd Hxcg.
  destruct (update_rocket_total (body_data ogive (cone_cylinder x1 x2 d))
              xcg s0 (0, 0) (x1, d) (x2, d))
    as (s & Hs & Hconf & Hfins & Hog & Hdim & Hsca & Hcpa & _ & Href & _);
    try reflexivity; try (cbn [fst]; lra); try discriminate.
  { apply nondegenerate_cone_cylinder. exact Hd. }
  cbn [body_data d_rocket_dim d_ogive d_use_fins] in *.
  rewrite max_diameter_cone_cylinder in Href by exact Hd.
  exists s. split; [exact Hs|].
  intros aoa v_loc_tot rho mu mach actuator_angle q Hmu Hmach.
  destruct (calculate_aero_coef_nofins aoa v_loc_tot rho mu mach
              actuator_angle q s (0, 0) (x1, d))
    as (s' & cp & ca & E & _);
    try assumption; try (rewrite Hdim; reflexivity).
  { cbn [fst]. lra. }
  exists s', cp, ca. rewrite E. unfold cone_cylinder_cn.
  rewrite (cone_cylinder_body_cn ogive x1 x2 d) by assumption.
  reflexivity.
Qed.

(** [calculate_aero_coef] leaves the configuration of the rocket as it
    is. *)
Lemma aero_frame_fields (s s' : Rocket.t) :
  aero_frame s s' ->
  Rocket.rocket_dim s' = Rocket.rocket_dim s
  /\ Rocket.use_fins s' = Rocket.use_fins s
  /\ Rocket.ogive s' = Rocket.ogive s
  /\ Rocket.xcg s' = Rocket.xcg s
  /\ Rocket.station_cross_area s' = Rocket.station_cross_area s
  /\ Rocket.component_plan_area s' = Rocket.component_plan_area s
  /\ Rocket.component_volume s' = Rocket.component_volume s
  /\ Rocket.component_centroid s' = Rocket.component_centroid s
  /\ Rocket.area_ref s' = Rocket.area_ref s
  /\ Rocket.length s' = Rocket.length s
  /\ Rocket.reynolds_crit s' = Rocket.reynolds_crit s
  /\ Rocket.motor s' = Rocket.motor s
  /\ Rocket.is_in_the_pad_flag s' = Rocket.is_in_the_pad_flag s.
Proof.
  destruct s, s'. unfold aero_frame. rflat. intros H.
  injection H; intros; subst. repeat split; reflexivity.
Qed.

(** The stepped body is configured without a word, and two queries in a
    row return. *)
Lemma stepped_body_run :
  exists s s1 r1 s2 r2,
    Rocket.update_rocket (body_data false stepped_body) 1.5 fresh_rocket
    = Ok s
    /\ Rocket.calculate_aero_coef 0.1 (10, 0) 1.225 1.784e-5 0.1 0 0 s
       = Ok (s1, r1)
    /\ Rocket.calculate_aero_coef 0.2 (10, 0) 1.225 1.784e-5 0.1 0 0 s1
       = Ok (s2, r2).
Proof.
  destruct (update_rocket_total (body_data false stepped_body) 1.5
              fresh_rocket (0, 0) (1, 0.1) (3, 0.2))
    as (s & Hs & Hconf & Hfins & _ & Hdim & _);
    try reflexivity; try (cbn [fst]; lra); try discriminate.
  { apply nondegenerate_stepped_body. }
  cbn [body_data d_rocket_dim d_use_fins] in *.
  destruct (calculate_aero_coef_nofins 0.1 (10, 0) 1.225 1.784e-5 0.1 0 0
              s (0, 0) (1, 0.1))
    as (s1 & cp1 & ca1 & E1 & Hconf1);
    try assumption; try (rewrite Hdim; reflexivity);
    try (cbn [fst]; lra); try nra.
  pose proof (ensures_Ok _ _ _ (calculate_aero_coef_ensures _ _ _ _ _ _ _ _)
                E1) as (_ & _ & _ & _ & _ & Hframe).
  apply aero_frame_fields in Hframe as (Hdim1 & Hfins1 & _).
  cbn [fst] in Hdim1, Hfins1.
  destruct (calculate_aero_coef_nofins 0.2 (10, 0) 1.225 1.784e-5 0.1 0 0
              s1 (0, 0) (1, 0.1))
    as (s2 & cp2 & ca2 & E2 & _);
    try assumption; try (rewrite Hdim1, Hdim; reflexivity);
    try (rewrite Hfins1; exact Hfins);
    try (cbn [fst]; lra); try nra.
  do 5 eexists. split; [exact Hs|]. split; [exact E1 | exact E2].
Qed.

(** ** The tables of the flat plate *)

Lemma np_interp_cd_pos (x : R) :
  exists v, np_interp x Airfoil.aoa_cd Airfoil.cd_list = Ok v /\ 0 < v.
Proof.
  unfold Airfoil.aoa_cd, Airfoil.cd_list.
  rewrite np_interp_cons by reflexivity. eexists. split; [reflexivity|].
  cbn [interp_scan].
  repeat match goal with
         | |- context [Rlt_dec ?a ?b] => destruct (Rlt_dec a b)
         end; lra.
Qed.

Lemma np_interp_cl_modified_nonneg (x : R) :
  0 <= x < 1.57079 ->
  exists v,
    np_interp x Airfoil.aoa_cl_modified Airfoil.cl_list_modified = Ok v
    /\ 0 <= v.
Proof.
  intros Hx. unfold Airfoil.aoa_cl_modified, Airfoil.cl_list_modified.
  rewrite np_interp_cons by reflexivity. eexists. split; [reflexivity|].
  cbn [interp_scan].
  repeat match goal with
         | |- context [Rlt_dec ?a ?b] => destruct (Rlt_dec a b)
         end; lra.
Qed.

(** Brings every airfoil of the goal and the hypotheses into constructor
    form. *)
Ltac aflat :=
  cbv beta iota zeta delta
    [Airfoil.use_2pi Airfoil.use_windtunel Airfoil.use_windtunnel_modified
     Airfoil._sign Airfoil.x Airfoil.cl Airfoil.cd Airfoil.cn Airfoil.ca
     Airfoil.cn_alpha Airfoil.set__sign Airfoil.set_x Airfoil.set_cl
     Airfoil.set_cd Airfoil.set_cn Airfoil.set_ca Airfoil.set_cn_alpha]
    in *.

(** The coefficients of the flat plate at an angle [a] other than [0], of
    at most [3 / 2] radians: the slope [cn / a] is positive. *)
Lemma Airfoil_get_aero_coef_default (a : R) (plate : Airfoil.t) :
  default_plate plate ->
  a <> 0 -> Rabs a <= 3 / 2 ->
  exists plate' cn ca slope,
    Airfoil.get_aero_coef a plate = Ok (plate', (cn, ca, slope))
    /\ 0 < slope
    /\ default_plate plate'.
Proof.
  unfold default_plate. destruct plate. aflat. intros (-> & -> & ->) Ha Hb.
  pose proof (Rabs_pos_lt a Ha) as Hx. pose proof PI2_3_2 as Hpi.
  destruct (np_interp_cl_modified_nonneg (Rabs a)) as (cl' & Hcl & Hcl0);
    [lra|].
  destruct (np_interp_cd_pos (Rabs a)) as (cd' & Hcd & Hcd0).
  assert (Hcos : 0 < cos (Rabs a)) by (apply cos_gt_0; lra).
  assert (Hsin : 0 < sin (Rabs a)) by (apply sin_gt_0; lra).
  assert (HB : 0 < cl' * cos (Rabs a) + cd' * sin (Rabs a)) by nra.
  unfold Airfoil.get_aero_coef, Airfoil._calculate_cn_ca,
    Airfoil._calculate_cn_alpha.
  aflat. rewrite bind_ret. cbv beta iota. rewrite Hcl, bind_ret. aflat.
  rewrite Hcd, bind_ret. aflat. rewrite bind_ret. aflat.
  rewrite np_div_Ok by exact Ha. rewrite bind_ret. aflat. rewrite bind_ret.
  aflat. do 4 eexists. split; [reflexivity|]. split; [|repeat split].
  unfold Airfoil.__sign_correction.
  destruct (Rge_dec a 0) as [Hge|Hlt].
  - rewrite Rabs_right in HB by exact Hge.
    rewrite Rabs_right by exact Hge. apply Rdiv_lt_0_compat; lra.
  - assert (Ha' : a < 0) by lra.
    replace (-1 * (cl' * cos (Rabs a) + cd' * sin (Rabs a)) / a)
      with ((cl' * cos (Rabs a) + cd' * sin (Rabs a)) / - a)
      by (field; exact Ha).
    apply Rdiv_lt_0_compat; lra.
Qed.

(** At the angle [0] the slope of the flat plate is [0 / 0]. *)
Lemma Airfoil_get_aero_coef_zero (plate : Airfoil.t) :
  default_plate plate ->
  Airfoil.get_aero_coef 0 plate = Raise NumpyInvalid.
Proof.
  intros (H2pi & Hwt & Hwtm).
  destruct (Airfoil_calculate_cn_ca_Ok 0 plate (or_intror Hwtm))
    as (cl' & cd' & _ & Hrun).
  destruct (Hrun 0 eq_refl) as (plate' & E & _ & _ & H2pi').
  unfold Airfoil.get_aero_coef. rewrite E, bind_ret.
  unfold Airfoil._calculate_cn_alpha. cbv zeta.
  rewrite H2pi', H2pi, np_div_zero. reflexivity.
Qed.

(** With [use_2pi] the slope is [2 * PI] at every angle, [0] included:
    the quotient is overwritten. *)
Lemma Airfoil_calculate_cn_alpha_2pi (a : R) (plate : Airfoil.t) :
  Airfoil.use_2pi plate = true ->
  Airfoil._calculate_cn_alpha a plate
  = Ok (Airfoil.set_cn_alpha (2 * PI) plate).
Proof.
  intros H. unfold Airfoil._calculate_cn_alpha. cbv zeta. rewrite H.
  reflexivity.
Qed.

(** ** The slope of a fin *)

(** [calculate_cn_alpha] returns a positive slope at an angle other than
    [0], of at most [3 / 2] radians, below Mach 1. *)
Lemma Fin_calculate_cn_alpha_total (aoa beta mach : R) (f : Fin.t) :
  fin_ready f ->
  aoa <> 0 -> Rabs aoa <= 3 / 2 ->
  0 < beta -> mach ^ 2 < 1 ->
  exists f' v,
    Fin.calculate_cn_alpha aoa beta mach f = Ok (f', v)
    /\ 0 < v
    /\ fin_frame f f'
    /\ fin_ready f'.
Proof.
  unfold fin_ready, fin_frame. destruct f. fflat.
  intros (Hplate & HAR & Hsb) Ha Hb Hbeta Hmach.
  destruct (Airfoil_get_aero_coef_default aoa flat_plate Hplate Ha Hb)
    as (plate' & cn & ca' & slope & E & Hslope & Hplate').
  assert (Hcos : 0 < cos sb_angle) by (apply cos_gt_0; lra).
  pose proof (COS_bound sb_angle) as (Hc1 & Hc2).
  assert (Hc3 : cos sb_angle ^ 2 <= 1) by nra.
  pose proof (Rmult_le_compat_l _ _ _ (pow2_ge_0 mach) Hc3) as Hmc.
  assert (Hrad : 0 < 1 - mach ^ 2 * cos sb_angle ^ 2) by lra.
  pose proof (sqrt_lt_R0 _ Hrad) as Hs.
  pose proof PI_RGT_0 as Hpi.
  unfold Fin.calculate_cn_alpha, Fin._correct_cna_diederich. fflat.
  rewrite E, bind_ret. fflat.
  rewrite np_sqrt_Ok by lra. rewrite bind_ret. fflat.
  set (s := sqrt (1 - mach ^ 2 * cos sb_angle ^ 2)) in *.
  rewrite (np_div_Ok beta s) by lra. rewrite bind_ret. fflat.
  rewrite (np_div_Ok 1 beta) by lra. rewrite bind_ret. fflat.
  assert (Hsbe : 0 < beta / s * cos sb_angle).
  { apply Rmult_lt_0_compat; [apply Rdiv_lt_0_compat; lra | exact Hcos]. }
  set (cos_sbe := beta / s * cos sb_angle) in *.
  assert (Heff : 0 < slope / (2 * PI)) by (apply Rdiv_lt_0_compat; lra).
  set (eff := slope / (2 * PI)) in *.
  assert (Hden : 0 < eff * cos_sbe) by (apply Rmult_lt_0_compat; lra).
  rewrite np_div_Ok by lra. rewrite bind_ret. fflat.
  assert (Hk2 : 0 < aspect_ratio * beta / (eff * cos_sbe)).
  { apply Rdiv_lt_0_compat; [apply Rmult_lt_0_compat; lra | exact Hden]. }
  set (k2 := aspect_ratio * beta / (eff * cos_sbe)) in *.
  assert (Hab : 0 < aspect_ratio ^ 2 * beta ^ 2) by
    (apply Rmult_lt_0_compat; apply pow_lt; lra).
  rewrite np_div_Ok by lra. rewrite bind_ret. fflat.
  assert (Hk3 : 0 <= 4 * eff ^ 2 * cos_sbe ^ 2
                     / (aspect_ratio ^ 2 * beta ^ 2)).
  { apply Rlt_le, Rdiv_lt_0_compat; [|exact Hab].
    apply Rmult_lt_0_compat; [apply Rmult_lt_0_compat; [lra|]|];
      apply pow_lt; lra. }
  set (k3 := 4 * eff ^ 2 * cos_sbe ^ 2 / (aspect_ratio ^ 2 * beta ^ 2)) in *.
  rewrite np_sqrt_Ok by lra. rewrite bind_ret. fflat.
  pose proof (sqrt_pos (1 + k3)) as Hk4.
  set (k4 := sqrt (1 + k3)) in *.
  assert (Hd : 0 < k2 * k4 + 2) by nra.
  rewrite np_div_Ok by lra. rewrite bind_ret. fflat.
  do 2 eexists. split; [reflexivity|]. fflat.
  split; [|split; [reflexivity | split; [exact Hplate' | split; lra]]].
  repeat apply Rmult_lt_0_compat; try lra;
    first [apply Rdiv_lt_0_compat; lra | apply Rinv_0_lt_compat; lra].
Qed.

(** At the angle [0] the slope of the airfoil of the fin is [0 / 0]. *)
Lemma Fin_calculate_cn_alpha_zero (beta mach : R) (f : Fin.t) :
  default_plate (Fin.flat_plate f) ->
  Fin.calculate_cn_alpha 0 beta mach f = Raise NumpyInvalid.
Proof.
  intros Hplate. destruct f. fflat.
  unfold Fin.calculate_cn_alpha. fflat.
  rewrite (Airfoil_get_aero_coef_zero _ Hplate). reflexivity.
Qed.

Lemma fin_frame_fields (f f' : Fin.t) :
  fin_frame f f' ->
  Fin.dim f' = Fin.dim f
  /\ Fin.fin_attached f' = Fin.fin_attached f
  /\ Fin.wingspan f' = Fin.wingspan f
  /\ Fin.area f' = Fin.area f
  /\ Fin.aspect_ratio f' = Fin.aspect_ratio f
  /\ Fin.cp f' = Fin.cp f
  /\ Fin.sb_angle f' = Fin.sb_angle f.
Proof.
  destruct f, f'. unfold fin_frame. fflat. intros H.
  injection H; intros; subst. repeat split; reflexivity.
Qed.

Lemma lifting_planform_valid (l : list (R * R)) :
  lifting_planform l -> valid_planform l.
Proof.
  intros (p0 & p1 & p2 & p3 & H0 & H1 & H2 & H3 & _ & Hs & _).
  exists p0, p1, p2, p3. repeat split; try assumption. lra.
Qed.

Lemma lifting_planform_zero_fin : lifting_planform Rocket.zero_fin.
Proof.
  exists (0.00001, 0.0000), (0.0001, 0.0001), (0.0002, 0.0001),
    (0.0002, 0.0000).
  repeat split; cbn [fst snd]; lra.
Qed.

(** [update] with a lifting planform leaves a fin that [_fin_cn] can
    use. *)
Lemma Fin_update_mounted (l : list (R * R)) (att : bool) (f : Fin.t) :
  lifting_planform l ->
  default_plate (Fin.flat_plate f) ->
  exists f', Fin.update l att f = Ok f' /\ fin_mounted f'.
Proof.
  intros (p0 & p1 & p2 & p3 & H0 & H1 & H2 & H3 & Hr & Hs & Hc) Hplate.
  destruct (Fin_update_total l att f p0 p1 p2 p3 H0 H1 H2 H3)
    as (f' & E & Hdim & _ & Hcr & Hct & _ & Hw & Harea & _ & Hsb & Hfp & HAR);
    [lra|].
  exists f'. split; [exact E|].
  assert (Ha : 0 < Fin.area f').
  { rewrite Harea, Hcr, Hct, Hw.
    apply Rmult_lt_0_compat; [apply Rmult_lt_0_compat; lra | lra]. }
  split; [split; [|split]|].
  - rewrite Hfp. exact Hplate.
  - rewrite HAR by lra. rewrite Hw.
    apply Rmult_lt_0_compat; [|destruct att; lra].
    apply Rdiv_lt_0_compat; [|exact Ha].
    apply Rmult_lt_0_compat; [lra | apply pow_lt; exact Hs].
  - rewrite Hsb. apply atan_bound.
  - exists l, p0. split; [exact Hdim|]. split; [exact H0|]. rewrite Hw. lra.
Qed.

(** ** The normal force of the fins *)

(** The angles at which the slope of both sets of fins can be computed:
    neither is [0], both are at most [3 / 2] radians. *)
Lemma fin_cn_total (aoa actuator_angle : R) (self : Rocket.t) :
  fins_ready self ->
  Rocket.area_ref self <> 0 ->
  aoa <> 0 -> Rabs aoa <= 3 / 2 ->
  Rocket.aoa_ctrl_fin self <> 0 -> Rabs (Rocket.aoa_ctrl_fin self) <= 3 / 2 ->
  0 < Rocket.beta self -> Rocket.mach self ^ 2 < 1 ->
  exists f og fc cf cnorm ax,
    Rocket._fin_cn aoa actuator_angle self
    = Ok (Rocket.set_cn_alpha_axial ax
            (Rocket.set_cn_alpha_control_normal cnorm
               (Rocket.set_cn_alpha_fin cf
                  (Rocket.set_cn_alpha_fin_control fc
                     (Rocket.set_cn_alpha_og og
                        (Rocket.set_fin f self))))))
    /\ fin_mounted (fst f) /\ fin_mounted (snd f).
Proof.
  unfold fins_ready. destruct self. rflat.
  intros ((Hr0 & l0 & q0 & Hd0 & Hl0 & Hw0) & (Hr1 & l1 & q1 & Hd1 & Hl1 & Hw1))
    Href Ha Hab Hc Hcb Hbeta Hmach.
  destruct fins_attached as [att0 att1].
  unfold Rocket._fin_cn. rflat.
  destruct (Fin_calculate_cn_alpha_total aoa beta mach (fst fin)
              Hr0 Ha Hab Hbeta Hmach)
    as (f0 & v0 & -> & _ & Hf0 & Hr0').
  rstep.
  destruct (Fin_calculate_cn_alpha_total aoa_ctrl_fin beta mach (snd fin)
              Hr1 Hc Hcb Hbeta Hmach)
    as (f1 & v1 & -> & _ & Hf1 & Hr1').
  rstep.
  apply fin_frame_fields in Hf0 as (Hd0' & _ & Hw0' & _).
  apply fin_frame_fields in Hf1 as (Hd1' & _ & Hw1' & _).
  rewrite <- Hd0' in Hd0. rewrite <- Hw0' in Hw0.
  rewrite <- Hd1' in Hd1. rewrite <- Hw1' in Hw1.
  assert (Hm0 : fin_mounted f0) by (split; [exact Hr0' | eauto]).
  assert (Hm1 : fin_mounted f1) by (split; [exact Hr1' | eauto]).
  rewrite !py_div_Ok by exact Href. rstep.
  assert (Hg0 : Fin.dim_get f0 0 = Ok q0)
    by (unfold Fin.dim_get; unfold Fin.dim in Hd0; rewrite Hd0;
        apply py_get_Ok; exact Hl0).
  assert (Hg1 : Fin.dim_get f1 0 = Ok q1)
    by (unfold Fin.dim_get; unfold Fin.dim in Hd1; rewrite Hd1;
        apply py_get_Ok; exact Hl1).
  destruct att0, att1;
    rewrite ?Hg0, ?Hg1; rstep;
    rewrite ?(py_div_Ok _ _ Hw0), ?(py_div_Ok _ _ Hw1); rstep;
    rewrite ?Hg0, ?Hg1; rstep;
    rewrite ?(py_div_Ok _ _ Hw0), ?(py_div_Ok _ _ Hw1); rstep;
    (do 6 eexists; split; [reflexivity|]; split; assumption).
Qed.

(** With the control fin at the angle [0], [_fin_cn] ends in the division
    of the slope of its airfoil by zero. *)
Lemma fin_cn_zero (aoa actuator_angle : R) (self : Rocket.t) :
  fins_ready self ->
  aoa <> 0 -> Rabs aoa <= 3 / 2 ->
  Rocket.aoa_ctrl_fin self = 0 ->
  0 < Rocket.beta self -> Rocket.mach self ^ 2 < 1 ->
  Rocket._fin_cn aoa actuator_angle self = Raise NumpyInvalid.
Proof.
  unfold fins_ready. destruct self. rflat.
  intros ((Hr0 & _) & ((Hplate & _) & _)) Ha Hab -> Hbeta Hmach.
  unfold Rocket._fin_cn. rflat.
  destruct (Fin_calculate_cn_alpha_total aoa beta mach (fst fin)
              Hr0 Ha Hab Hbeta Hmach)
    as (f0 & v0 & -> & _).
  rstep. rewrite (Fin_calculate_cn_alpha_zero _ _ _ Hplate). reflexivity.
Qed.

Lemma effective_aoa_bound (aoa b : R) :
  0.0001 <= b -> Rabs aoa <= b -> Rabs (effective_aoa aoa) <= b.
Proof.
  intros Hb Ha. unfold effective_aoa. destruct (Req_dec_T aoa 0).
  - rewrite Rabs_right; lra.
  - rewrite Rabs_Rabsolu. exact Ha.
Qed.

(** The body part of [_calculate_total_cn] on a configured rocket, up to
    the call of [_fin_cn]. *)
Ltac total_cn_body Hsca Hcpa Hcn Hcna Href :=
  rewrite barrowman_cn_eq by (rflat; (assumption || lia)); rstep;
  rewrite body_cn_eq
    by (rflat; first [assumption | rewrite length_barrowman_list; lia]);
  rstep;
  rewrite calculate_cn_alpha_eq
    by (rflat; first [assumption
                     | rewrite length_zip_with, length_barrowman_list,
                         length_crossflow_list; lia]);
  rstep.

(** With fins, [_calculate_total_cn] returns when the slopes of both sets
    of fins can be computed, and leaves the rocket configured. *)
Lemma calculate_total_cn_fins (aoa actuator_angle : R) (self : Rocket.t) :
  configured self ->
  Rocket.use_fins self = true ->
  fins_ready self ->
  Rabs aoa <= 3 / 2 ->
  Rocket.aoa_ctrl_fin self <> 0 -> Rabs (Rocket.aoa_ctrl_fin self) <= 3 / 2 ->
  0 < Rocket.beta self -> Rocket.mach self ^ 2 < 1 ->
  exists s',
    Rocket._calculate_total_cn aoa actuator_angle self = Ok s'
    /\ configured s' /\ fins_ready s'.
Proof.
  intros Hconf.
  pose proof (length_body_cn_list (effective_aoa aoa) self Hconf) as Hlen.
  revert Hconf Hlen. unfold configured, body_cn_list, fins_ready.
  destruct self. rflat.
  intros (Hn & Hsca & Hcpa & Hcc & Hcn & Hcna & Href & Hrest) Hlen ->
    Hfr Hab Hc Hcb Hbeta Hmach.
  unfold Rocket._calculate_total_cn. rflat. fold (effective_aoa aoa).
  pose proof (effective_aoa_nonzero aoa) as Hnz.
  pose proof (effective_aoa_bound aoa (3 / 2) ltac:(lra) Hab) as Heb.
  set (a := effective_aoa aoa) in *.
  total_cn_body Hsca Hcpa Hcn Hcna Href.
  match goal with
  | |- context [Rocket._fin_cn a actuator_angle ?s] =>
      destruct (fin_cn_total a actuator_angle s)
        as (f & og & fc & cf & cnorm & ax & -> & Hm0 & Hm1);
      [unfold fins_ready; rflat; assumption ..|]
  end.
  rstep. loop_state S0.
  loop_total (fun (i : nat) (s : Rocket.t) =>
                exists v, s = Rocket.set_cn v S0).
  - eexists. subst S0. rflat. reflexivity.
  - intros i s Hi (v & ->). subst S0. rflat.
    destruct (py_get_lt _ i Hi) as (x & _ & ->). rstep.
    eexists. split; [reflexivity|]. eexists. rflat. reflexivity.
  - destruct Hinv as (v & ->). subst S0. rstep.
    eexists. split; [reflexivity|]. rflat. split; [|split; assumption].
    rewrite ?length_map, ?Hlen. tauto.
Qed.

(** With fins, and the control fin at the angle [0],
    [_calculate_total_cn] ends in the division by zero. *)
Lemma calculate_total_cn_fins_zero (aoa actuator_angle : R)
    (self : Rocket.t) :
  configured self ->
  Rocket.use_fins self = true ->
  fins_ready self ->
  Rabs aoa <= 3 / 2 ->
  Rocket.aoa_ctrl_fin self = 0 ->
  0 < Rocket.beta self -> Rocket.mach self ^ 2 < 1 ->
  Rocket._calculate_total_cn aoa actuator_angle self = Raise NumpyInvalid.
Proof.
  unfold configured, fins_ready. destruct self. rflat.
  intros (Hn & Hsca & Hcpa & Hcc & Hcn & Hcna & Href & Hrest) ->
    Hfr Hab -> Hbeta Hmach.
  unfold Rocket._calculate_total_cn. rflat. fold (effective_aoa aoa).
  pose proof (effective_aoa_nonzero aoa) as Hnz.
  pose proof (effective_aoa_bound aoa (3 / 2) ltac:(lra) Hab) as Heb.
  set (a := effective_aoa aoa) in *.
  total_cn_body Hsca Hcpa Hcn Hcna Href.
  rewrite fin_cn_zero; [reflexivity | ..];
    first [unfold fins_ready; rflat; assumption | rflat; reflexivity].
Qed.

(** ** Evaluation with fins *)

(** The centre of pressure and the drag of a configured rocket whose first
    segment has a length, in air of non-zero viscosity: both methods
    return, and leave the rocket configured, with its fins. *)
Ltac aero_tail p0 p1 :=
  match goal with
  | |- context [Rocket._calculate_cp_position ?s] =>
      let s2 := fresh "s" in
      let E := fresh "E" in
      let v := fresh "v" in
      destruct (calculate_cp_position_total s) as (s2 & E);
      [ assumption
      | rewrite E;
        pose proof (ensures_Ok _ _ _ (calculate_cp_position_ensures _) E)
          as (v & -> & _); clear E; rstep ]
  end;
  match goal with
  | |- context [Rocket._calculate_total_ca ?a ?b ?c ?d ?s] =>
      let s3 := fresh "s" in
      let E := fresh "E" in
      let H := fresh "H" in
      destruct (calculate_total_ca_total a b c d s p0 p1) as (s3 & E);
      [ unfold configured in *; rflat; assumption
      | rflat; assumption ..
      | rewrite E;
        pose proof (ensures_Ok _ _ _
                      (calculate_total_ca_ensures _ _ _ _ _) E)
          as (H & _); clear E; destruct s3; frame_inv H; rstep ]
  end.

(** On a configured rocket with fins in use whose first segment has a
    length, below Mach 1 and in air of non-zero viscosity,
    [calculate_aero_coef] returns when the angle of attack is of at most
    [3 / 2] radians and differs from the angle of the actuator by at most
    as much, but not by [0]; it leaves the rocket as ready as it was. *)
Lemma calculate_aero_coef_fins (aoa : R) (v_loc_tot : R * R)
    (rho mu mach actuator_angle q : R) (self : Rocket.t) (p0 p1 : R * R) :
  configured self ->
  Rocket.use_fins self = true ->
  fins_ready self ->
  Rocket.rocket_dim self !! 0%nat = Some p0 ->
  Rocket.rocket_dim self !! 1%nat = Some p1 ->
  fst p1 - fst p0 <> 0 ->
  mu <> 0 ->
  mach ^ 2 < 1 ->
  Rabs aoa <= 3 / 2 ->
  aoa - actuator_angle <> 0 ->
  Rabs (aoa - actuator_angle) <= 3 / 2 ->
  exists s' r,
    Rocket.calculate_aero_coef aoa v_loc_tot rho mu mach actuator_angle q self
    = Ok (s', r)
    /\ configured s' /\ fins_ready s'.
Proof.
  intros Hconf Hfins Hfr Hp0 Hp1 Hl Hmu Hmach Hab Hc Hcb.
  assert (Hbeta : 0 < sqrt (1 - mach ^ 2)) by (apply sqrt_lt_R0; lra).
  revert Hconf Hfins Hfr Hp0 Hp1. destruct self. rflat.
  intros Hconf -> Hfr Hp0 Hp1.
  unfold Rocket.calculate_aero_coef.
  rewrite np_sqrt_Ok by (apply Rplus_le_le_0_compat; apply pow2_ge_0).
  rewrite (np_sqrt_Ok (1 - mach ^ 2)) by lra.
  destruct (Rlt_dec mach 0.001) as [Hm|Hm]; rstep.
  all: match goal with
       | |- context [Rocket._calculate_total_cn ?a ?b ?s] =>
           destruct (calculate_total_cn_fins a b s)
             as (s1 & E1 & Hc1 & Hf1);
           [ unfold configured in *; rflat; assumption
           | rflat; reflexivity
           | unfold fins_ready in *; rflat; assumption
           | assumption
           | rflat; assumption
           | rflat; assumption
           | rflat; assumption
           | rflat; first [assumption | nra]
           | rewrite E1;
             pose proof (ensures_Ok _ _ _
                           (calculate_total_cn_ensures _ _ _) E1) as H1;
             clear E1; destruct s1; frame_inv H1; rstep ]
       end.
  all: aero_tail p0 p1.
  all: do 2 eexists; split; [reflexivity|].
  all: unfold configured, fins_ready in *; rflat; split; assumption.
Qed.

(** As before, but with the angle of the actuator equal to the angle of
    attack: the airfoil of the control fin is evaluated at
    [aoa - actuator_angle = 0], and the query ends in the division of its
    slope by zero. *)
Lemma calculate_aero_coef_fins_zero (a : R) (v_loc_tot : R * R)
    (rho mu mach q : R) (self : Rocket.t) :
  configured self ->
  Rocket.use_fins self = true ->
  fins_ready self ->
  mach ^ 2 < 1 ->
  Rabs a <= 3 / 2 ->
  Rocket.calculate_aero_coef a v_loc_tot rho mu mach a q self
  = Raise NumpyInvalid.
Proof.
  intros Hconf Hfins Hfr Hmach Hab.
  assert (Hbeta : 0 < sqrt (1 - mach ^ 2)) by (apply sqrt_lt_R0; lra).
  revert Hconf Hfins Hfr. destruct self. rflat.
  intros Hconf -> Hfr.
  unfold Rocket.calculate_aero_coef.
  rewrite np_sqrt_Ok by (apply Rplus_le_le_0_compat; apply pow2_ge_0).
  rewrite (np_sqrt_Ok (1 - mach ^ 2)) by lra.
  destruct (Rlt_dec mach 0.001) as [Hm|Hm]; rstep.
  all: rewrite calculate_total_cn_fins_zero; [reflexivity | ..].
  all: first [ unfold configured in *; rflat; assumption
             | unfold fins_ready in *; rflat; assumption
             | rflat; reflexivity
             | rflat; lra
             | rflat; nra
             | assumption ].
Qed.

(** ** Rockets that can be queried *)

(** With fins in use, [update_rocket] leaves two fins whose slopes can be
    computed: the first set with the planform of the data, the second one
    with the planform of the data or, without control fins, with the
    minute planform [zero_fin]. *)
Lemma update_rocket_fins_ready (l : rocket_data) (xcg : R)
    (self : Rocket.t) :
  d_use_fins l = true ->
  valid_fins l self ->
  ensures (Rocket.update_rocket l xcg self) fins_ready.
Proof.
  unfold valid_fins. destruct self. rflat.
  intros Hfins (Hpl0 & Hpl1 & Hl0 & Hl1).
  unfold Rocket.update_rocket. rflat.
  ens_call update_rocket_dim_ensures.
  intros s (p & p1 & _ & _ & _ & ->).
  unfold with_geometry, pre_geometry. rflat.
  destruct (Fin_update_mounted Rocket.zero_fin true (snd fin)
              lifting_planform_zero_fin Hpl1) as (f1 & E1 & Hm1).
  rewrite E1, bind_ret. rflat. rewrite Hfins. cbv iota.
  match goal with
  | |- context [Fin.update (d_fin0 l) ?att ?f] =>
      destruct (Fin_update_mounted (d_fin0 l) att f Hl0 Hpl0)
        as (f0 & E0 & Hm0)
  end.
  rewrite E0, bind_ret. rflat.
  apply ensures_bind.
  match goal with
  | |- ensures (if _ then _ else Ok ?S) _ =>
      apply ensures_weaken with
        (P := fun s => exists f, s = Rocket.set_fin (f0, f) S
                                 /\ fin_mounted f)
  end.
  { destruct (d_use_fins_control l).
    - match goal with
      | |- context [Fin.update (d_fin1 l) ?att ?f] =>
          destruct (Fin_update_mounted (d_fin1 l) att f (Hl1 eq_refl))
            as (f2 & E2 & Hm2); [apply Hm1|]
      end.
      rewrite E2, bind_ret. rflat. cbn [ensures]. exists f2.
      rflat. split; [reflexivity | exact Hm2].
    - cbn [ensures]. exists f1. rflat. split; [reflexivity | exact Hm1]. }
  intros s (f & -> & Hm). rflat.
  ens_call calculate_pitch_damping_body_ensures.
  intros s (a' & b & c & ->). rflat.
  eapply ensures_weaken; [apply calculate_reynolds_crit_ensures|].
  cbv beta. intros s (rc & ->). unfold fins_ready. rflat.
  cbn [fst snd]. split; assumption.
Qed.

(** [update_rocket] returns when no division of the geometry is by zero,
    the fins to use are valid, and the centre of gravity is behind the
    first station, before the last one, and not at [0], whatever the
    lengths of the segments.  Nothing is printed, and the rocket can be
    queried if its first segment has a length. *)
Lemma update_rocket_ready (l : rocket_data) (xcg : R) (self : Rocket.t)
    (p0 p1 p : R * R) :
  d_rocket_dim l !! 0%nat = Some p0 ->
  d_rocket_dim l !! 1%nat = Some p1 ->
  last (d_rocket_dim l) = Some p ->
  nondegenerate (d_rocket_dim l) ->
  (d_use_fins l = true -> valid_fins l self) ->
  fst p0 <= xcg -> 0 < xcg -> xcg < fst p ->
  exists s',
    Rocket.update_rocket l xcg self = Ok s'
    /\ (fst p1 - fst p0 <> 0 -> ready s')
    /\ Rocket.use_fins s' = d_use_fins l
    /\ Rocket.rocket_dim s' = d_rocket_dim l
    /\ Rocket.stdout s' = Rocket.stdout self.
Proof.
  intros H0 H1 Hl Hnd Hfins Hfore Hx Haft.
  destruct (update_rocket_total l xcg self p0 p1 p)
    as (s' & Hs & Hconf & Huse & _ & Hdim & _ & _ & _ & _ & _ & Hout);
    try assumption.
  { intros Hf. apply lifting_planform_valid. apply (Hfins Hf). }
  { intros Hf Hc. apply lifting_planform_valid.
    destruct (Hfins Hf) as (_ & _ & _ & Hl1). apply (Hl1 Hc). }
  exists s'. split; [exact Hs|].
  split; [|split; [exact Huse | split; [exact Hdim | exact Hout]]].
  intros Hfirst. split; [exact Hconf|]. split.
  - rewrite Hdim. exists p0, p1. auto.
  - rewrite Huse. intros Hf.
    exact (ensures_Ok _ _ _
             (update_rocket_fins_ready l xcg self Hf (Hfins Hf)) Hs).
Qed.

(** A valid query on a rocket that can be queried returns, prints one line
    for every segment of length zero, and leaves a rocket that can be
    queried. *)
Lemma evaluate_ready (qy : query) (self : Rocket.t) :
  ready self ->
  valid_query (Rocket.use_fins self) qy ->
  exists s' r,
    evaluate qy self = Ok (s', r)
    /\ ready s'
    /\ Rocket.use_fins s' = Rocket.use_fins self
    /\ Rocket.rocket_dim s' = Rocket.rocket_dim self
    /\ Rocket.stdout s'
       = Rocket.stdout self ++ zero_length_report (Rocket.rocket_dim self).
Proof.
  intros (Hconf & (p0 & p1 & Hp0 & Hp1 & Hl) & Hfr) (Hmu & Hmach & Hfq).
  unfold evaluate.
  assert (Hrun : exists s' r,
             Rocket.calculate_aero_coef (q_aoa qy) (q_v_loc_tot qy)
               (q_rho qy) (q_mu qy) (q_mach qy) (q_actuator_angle qy)
               (q_q qy) self = Ok (s', r)
             /\ configured s'
             /\ (Rocket.use_fins self = true -> fins_ready s')).
  { destruct (Rocket.use_fins self) eqn:Hf.
    - destruct (Hfq eq_refl) as (Hm1 & Hab & Hc & Hcb).
      destruct (calculate_aero_coef_fins (q_aoa qy) (q_v_loc_tot qy)
                  (q_rho qy) (q_mu qy) (q_mach qy) (q_actuator_angle qy)
                  (q_q qy) self p0 p1)
        as (s' & r & E & Hc' & Hf'); auto.
      exists s', r. auto.
    - destruct (calculate_aero_coef_nofins (q_aoa qy) (q_v_loc_tot qy)
                  (q_rho qy) (q_mu qy) (q_mach qy) (q_actuator_angle qy)
                  (q_q qy) self p0 p1)
        as (s' & cp & ca & E & Hc'); auto.
      eexists s', _. split; [exact E|]. split; [exact Hc'|].
      intros; discriminate. }
  destruct Hrun as (s' & r & E & Hc' & Hf').
  pose proof (ensures_Ok _ _ _ (calculate_aero_coef_ensures _ _ _ _ _ _ _ _)
                E) as (_ & _ & _ & _ & Hout & Hframe).
  apply aero_frame_fields in Hframe as (Hdim & Huse & _).
  cbn [fst] in Hout, Hdim, Huse.
  exists s', r. split; [exact E|].
  split; [|split; [exact Huse | split; [exact Hdim | exact Hout]]].
  split; [exact Hc'|]. split.
  - rewrite Hdim. exists p0, p1. auto.
  - rewrite Huse. exact Hf'.
Qed.

(** A run of valid queries on a rocket that can be queried returns one
    result per query, and prints the lines of the segments of length zero
    once per query. *)
Lemma run_queries_ready (qs : list query) (self : Rocket.t) :
  ready self ->
  Forall (valid_query (Rocket.use_fins self)) qs ->
  exists s' rs,
    run_queries qs self = Ok (s', rs)
    /\ List.length rs = List.length qs
    /\ Rocket.stdout s'
       = Rocket.stdout self
         ++ concat (replicate (List.length qs)
                      (zero_length_report (Rocket.rocket_dim self))).
Proof.
  revert self. induction qs as [|qy qs IH]; intros self Hready Hall.
  - exists self, []. cbn [run_queries List.length replicate concat].
    rewrite app_nil_r. auto.
  - inversion Hall as [|? ? Hq Hrest]; subst.
    destruct (evaluate_ready qy self Hready Hq)
      as (s1 & r & E & Hready1 & Huse & Hdim & Hout).
    destruct (IH s1 Hready1) as (s' & rs & Erun & Hlen & Hout').
    { rewrite Huse. exact Hrest. }
    exists s', (r :: rs). cbn [run_queries].
    rewrite E, bind_ret. cbn [fst snd]. rewrite Erun, bind_ret.
    cbn [fst snd List.length replicate concat].
    split; [reflexivity|]. split; [now rewrite Hlen|].
    rewrite Hout', Hout, Hdim, app_assoc. reflexivity.
Qed.

Lemma concat_replicate_nil {A : Type} (n : nat) :
  concat (replicate n (@nil A)) = [].
Proof. induction n as [|n IH]; [reflexivity | exact IH]. Qed.

Lemma first_segment_example_body : first_segment_has_length example_body.
Proof. exists (0, 0), (1, 0.1). repeat split. cbn [fst]. lra. Qed.

Lemma first_segment_stepped_body : first_segment_has_length stepped_body.
Proof. exists (0, 0), (1, 0.1). repeat split. cbn [fst]. lra. Qed.

Lemma lifting_planform_example : lifting_planform example_planform.
Proof.
  exists (2.5, 0.05), (2.7, 0.15), (2.9, 0.15), (3, 0.05).
  repeat split; cbn [fst snd]; lra.
Qed.

Lemma valid_fins_finned_data : valid_fins finned_data fresh_rocket.
Proof.
  repeat split; try reflexivity; intros; apply lifting_planform_example.
Qed.

(** With a first segment of length zero, the angle of the first component
    is never assigned: [_calculate_pressure_drag] prints and raises. *)
Lemma calculate_pressure_drag_first_zero (self : Rocket.t) (p0 p1 : R * R) :
  Rocket.rocket_dim self !! 0%nat = Some p0 ->
  Rocket.rocket_dim self !! 1%nat = Some p1 ->
  fst p1 - fst p0 = 0 ->
  Rocket._calculate_pressure_drag self = Raise UnboundLocalError.
Proof.
  destruct self. rflat. intros Hp0 Hp1 Hl.
  unfold Rocket._calculate_pressure_drag. rflat.
  assert (Hn : exists m, (List.length rocket_dim - 1)%nat = S m).
  { apply lookup_lt_Some in Hp1.
    exists (List.length rocket_dim - 2)%nat. lia. }
  destruct Hn as (m & ->).
  unfold for_range. cbn [seq for_loop].
  unfold Rocket._calculate_pressure_drag_body at 1. rflat.
  cbn [Nat.add]. rewrite (py_get_Ok _ _ _ Hp1), (py_get_Ok _ _ _ Hp0).
  rstep. unfold py_div. rewrite Hl.
  destruct (Req_dec_T 0 0) as [_|H]; [reflexivity | exfalso; lra].
Qed.

(** * The claims about the evaluation *)

(** C1.  The control-fin path divides by the angle zero.  On a rocket that
    [update_rocket] configured with fins, whose airfoils have the flags of
    the constructor, a query below Mach 1 whose angle of attack equals the
    angle of the actuator evaluates the airfoil of the control fin at
    [aoa - actuator_angle = 0]: nothing substitutes [0.0001] there, the
    slope [cn / 0] is computed, and the query ends in this division, where
    NumPy yields [nan].  The same query with another angle of the actuator
    returns. *)
Theorem control_fin_slope_division_by_zero (l : rocket_data) (xcg : R)
    (s0 : Rocket.t) (p0 p : R * R) (a : R) (v_loc_tot : R * R)
    (rho mu mach q : R) :
  d_rocket_dim l !! 0%nat = Some p0 ->
  last (d_rocket_dim l) = Some p ->
  first_segment_has_length (d_rocket_dim l) ->
  nondegenerate (d_rocket_dim l) ->
  d_use_fins l = true ->
  valid_fins l s0 ->
  fst p0 <= xcg -> 0 < xcg -> xcg < fst p ->
  mu <> 0 -> mach ^ 2 < 1 -> Rabs a <= 3 / 2 ->
  exists self,
    Rocket.update_rocket l xcg s0 = Ok self
    /\ Rocket.calculate_aero_coef a v_loc_tot rho mu mach a q self
       = Raise NumpyInvalid
    /\ forall actuator_angle,
         a - actuator_angle <> 0 ->
         Rabs (a - actuator_angle) <= 3 / 2 ->
         exists s' r,
           Rocket.calculate_aero_coef a v_loc_tot rho mu mach
             actuator_angle q self = Ok (s', r).
Proof.
  intros H0 Hl (q0 & q1 & Hq0 & Hq1 & Hq) Hnd Hfins Hvf Hfore Hx Haft
    Hmu Hmach Hab.
  rewrite H0 in Hq0. injection Hq0 as <-.
  destruct (update_rocket_ready l xcg s0 p0 q1 p H0 Hq1 Hl Hnd
              (fun _ => Hvf) Hfore Hx Haft)
    as (self & Hs & Hready & Huse & Hdim & _).
  destruct (Hready Hq) as (Hconf & _ & Hfr).
  rewrite Hfins in Huse. specialize (Hfr Huse).
  rewrite <- Hdim in H0, Hq1.
  exists self. split; [exact Hs|]. split.
  - apply calculate_aero_coef_fins_zero; assumption.
  - intros actuator_angle Hc Hcb.
    destruct (calculate_aero_coef_fins a v_loc_tot rho mu mach
                actuator_angle q self p0 q1)
      as (s' & r & E & _); try assumption.
    exists s', r. exact E.
Qed.

Lemma control_fin_slope_division_by_zero_witness :
  exists self,
    Rocket.update_rocket finned_data 1.5 fresh_rocket = Ok self
    /\ Rocket.calculate_aero_coef 0 (10, 0) 1.225 1.784e-5 0.1 0 0 self
       = Raise NumpyInvalid
    /\ exists s' r,
         Rocket.calculate_aero_coef 0 (10, 0) 1.225 1.784e-5 0.1 0.1 0 self
         = Ok (s', r).
Proof.
  destruct (control_fin_slope_division_by_zero finned_data 1.5 fresh_rocket
              (0, 0) (3, 0.1) 0 (10, 0) 1.225 1.784e-5 0.1 0)
    as (self & Hs & Hzero & Hother);
    try reflexivity; try (cbn [fst]; lra); try nra.
  - apply first_segment_example_body.
  - apply nondegenerate_example_body.
  - apply valid_fins_finned_data.
  - rewrite Rabs_R0. lra.
  - exists self. split; [exact Hs|]. split; [exact Hzero|].
    apply Hother; [lra|]. apply Rabs_le. lra.
Defined.

(** C3, amended.  The Mach number that the solver stores is clamped to
    [0.001]; [beta] is computed from the argument, not from the clamped
    value: for an argument of magnitude below [0.001] the stored [beta] is
    not [sqrt (1 - mach ^ 2)] of the stored Mach number. *)
Theorem beta_from_unclamped_mach (aoa : R) (v_loc_tot : R * R)
    (rho mu mach actuator_angle q : R) (self s' : Rocket.t)
    (r : R * R * R) :
  Rocket.calculate_aero_coef aoa v_loc_tot rho mu mach actuator_angle q self
  = Ok (s', r) ->
  Rocket.mach s' = Rmax mach 0.001
  /\ Rocket.beta s' = sqrt (1 - mach ^ 2)
  /\ (Rabs mach < 0.001 ->
      Rocket.beta s' <> sqrt (1 - Rocket.mach s' ^ 2)).
Proof.
  intros H.
  pose proof (ensures_Ok _ _ _ (calculate_aero_coef_ensures _ _ _ _ _ _ _ _)
                H) as (_ & Hmach & Hbeta & _).
  cbn [fst] in Hmach, Hbeta.
  assert (Hm : Rocket.mach s' = Rmax mach 0.001).
  { rewrite Hmach. unfold Rmax.
    destruct (Rlt_dec mach 0.001); destruct (Rle_dec mach 0.001); lra. }
  split; [exact Hm|]. split; [exact Hbeta|].
  intros Habs. apply Rabs_def2 in Habs as (Hlo & Hhi).
  rewrite Hbeta, Hm. unfold Rmax.
  destruct (Rle_dec mach 0.001) as [_|Hn]; [|exfalso; lra].
  intros E. apply sqrt_inj in E; nra.
Qed.

Lemma beta_from_unclamped_mach_witness :
  exists s s' r,
    Rocket.update_rocket (body_data false example_body) 1.5 fresh_rocket
    = Ok s
    /\ Rocket.calculate_aero_coef 0.1 (10, 0) 1.225 1.784e-5 0 0 0 s
       = Ok (s', r)
    /\ Rocket.mach s' = Rmax 0 0.001
    /\ Rocket.beta s' = sqrt (1 - 0 ^ 2)
    /\ Rocket.beta s' <> sqrt (1 - Rocket.mach s' ^ 2).
Proof.
  destruct (cone_cylinder_run false 1 3 0.1 1.5 fresh_rocket)
    as (s & Hs & Hq); try lra.
  destruct (Hq 0.1 (10, 0) 1.225 1.784e-5 0 0 0) as (s' & cp & ca & E);
    try lra.
  do 3 eexists. split; [exact Hs|]. split; [exact E|].
  destruct (beta_from_unclamped_mach _ _ _ _ _ _ _ _ _ _ E)
    as (Hm & Hb & Hne).
  split; [exact Hm|]. split; [exact Hb|].
  apply Hne. rewrite Rabs_R0. lra.
Defined.

(** C3, as stated: with the Mach number [0] the solver stores the Mach
    number [0.001] and a [beta] that is not [sqrt (1 - 0.001 ^ 2)]. *)
Lemma beta_from_clamped_mach_counterexample :
  exists s s' r,
    Rocket.update_rocket (body_data false example_body) 1.5 fresh_rocket
    = Ok s
    /\ Rocket.calculate_aero_coef 0.1 (10, 0) 1.225 1.784e-5 0 0 0 s
       = Ok (s', r)
    /\ Rocket.mach s' = 0.001
    /\ Rocket.beta s' <> sqrt (1 - Rocket.mach s' ^ 2).
Proof.
  destruct (cone_cylinder_run false 1 3 0.1 1.5 fresh_rocket)
    as (s & Hs & Hq); try lra.
  destruct (Hq 0.1 (10, 0) 1.225 1.784e-5 0 0 0) as (s' & cp & ca & E);
    try lra.
  do 3 eexists. split; [exact Hs|]. split; [exact E|].
  pose proof (ensures_Ok _ _ _ (calculate_aero_coef_ensures _ _ _ _ _ _ _ _)
                E) as (_ & Hmach & Hbeta & _).
  cbn [fst] in Hmach, Hbeta.
  destruct (Rlt_dec 0 0.001) as [_|H]; [|exfalso; lra].
  split; [exact Hmach|]. rewrite Hbeta, Hmach.
  intros H. apply sqrt_inj in H; lra.
Qed.


(** C4, amended.  For a cone-cylinder without fins, configured with its
    centre of gravity inside the body, and queries at a Mach number of at
    most [1]: the normal-force coefficient returned is negative and
    non-increasing in the angle of attack over [(0, PI / 2]] - a positive
    angle of attack gives a negative coefficient, whose magnitude is
    non-decreasing - and at the angle [0] it is the coefficient at
    [0.0001]. *)
Theorem cone_cylinder_cn_monotone (ogive : bool) (x1 x2 d xcg : R)
    (s0 : Rocket.t) (a1 a2 : R) (v_loc_tot : R * R)
    (rho mu mach actuator_angle q : R) :
  0 < x1 < x2 -> 0 < d -> 0 < xcg < x2 ->
  mu <> 0 -> mach ^ 2 <= 1 ->
  0 < a1 -> a1 <= a2 -> a2 <= PI / 2 ->
  exists s,
    Rocket.update_rocket (body_data ogive (cone_cylinder x1 x2 d)) xcg s0
    = Ok s
    /\ exists s1 cn1 cp1 ca1 s2 cn2 cp2 ca2 s3 cn3 cp3 ca3 s4 cp4 ca4,
         Rocket.calculate_aero_coef a1 v_loc_tot rho mu mach actuator_angle
           q s = Ok (s1, (cn1, cp1, ca1))
         /\ Rocket.calculate_aero_coef a2 v_loc_tot rho mu mach
              actuator_angle q s = Ok (s2, (cn2, cp2, ca2))
         /\ cn2 <= cn1 /\ cn1 < 0
         /\ Rocket.calculate_aero_coef 0 v_loc_tot rho mu mach
              actuator_angle q s = Ok (s3, (cn3, cp3, ca3))
         /\ Rocket.calculate_aero_coef 0.0001 v_loc_tot rho mu mach
              actuator_angle q s = Ok (s4, (cn3, cp4, ca4)).
Proof.
  intros Hx Hd Hxcg Hmu Hmach Ha1 Ha12 Ha2.
  destruct (cone_cylinder_run ogive x1 x2 d xcg s0 Hx Hd Hxcg)
    as (s & Hs & Hq).
  exists s. split; [exact Hs|].
  destruct (Hq a1 v_loc_tot rho mu mach actuator_angle q Hmu Hmach)
    as (s1 & cp1 & ca1 & E1).
  destruct (Hq a2 v_loc_tot rho mu mach actuator_angle q Hmu Hmach)
    as (s2 & cp2 & ca2 & E2).
  destruct (Hq 0 v_loc_tot rho mu mach actuator_angle q Hmu Hmach)
    as (s3 & cp3 & ca3 & E3).
  destruct (Hq 0.0001 v_loc_tot rho mu mach actuator_angle q Hmu Hmach)
    as (s4 & cp4 & ca4 & E4).
  do 15 eexists.
  split; [exact E1|]. split; [exact E2|].
  assert (Hsign : forall a, 0 <= a -> Rocket.__sign_correction a = -1).
  { intros a Ha. unfold Rocket.__sign_correction.
    destruct (Rge_dec a 0); [reflexivity | exfalso; lra]. }
  assert (Heff : forall a, 0 < a -> effective_aoa a = a).
  { intros a Ha. unfold effective_aoa.
    destruct (Req_dec_T a 0); [exfalso; lra|]. apply Rabs_right. lra. }
  assert (HK : 0 <= 1.1 * (cone_cylinder_planform ogive x1 x2 d
                           / (PI * (d / 2) ^ 2))).
  { apply Rmult_le_pos; [lra|]. apply Rlt_le, Rdiv_lt_0_compat.
    - unfold cone_cylinder_planform. destruct ogive; nra.
    - apply Rmult_lt_0_compat; [apply PI_RGT_0 | nra]. }
  pose proof PI_RGT_0 as Hpi.
  assert (Hs1 : 0 < sin a1) by (apply sin_gt_0; lra).
  assert (Hs12 : sin a1 <= sin a2) by (apply sin_incr_1; lra).
  split; [|split; [|split]].
  - unfold cone_cylinder_cn.
    rewrite !Hsign, !Heff by lra.
    set (K := 1.1 * _) in *.
    assert (Hsq : sin a1 ^ 2 <= sin a2 ^ 2) by nra.
    pose proof (Rmult_le_compat_l K _ _ HK Hsq). lra.
  - unfold cone_cylinder_cn. rewrite Hsign, Heff by lra.
    set (K := 1.1 * _) in *.
    pose proof (Rmult_le_pos K _ HK (pow2_ge_0 (sin a1))). lra.
  - exact E3.
  - rewrite E4. unfold cone_cylinder_cn, effective_aoa.
    rewrite !Hsign by lra.
    destruct (Req_dec_T 0 0) as [_|H]; [|exfalso; lra].
    destruct (Req_dec_T 0.0001 0) as [H|_]; [exfalso; lra|].
    rewrite (Rabs_right 0.0001) by lra. reflexivity.
Qed.

Lemma cone_cylinder_cn_monotone_witness :
  exists s s1 cn1 cp1 ca1 s2 cn2 cp2 ca2,
    Rocket.update_rocket (body_data false example_body) 1.5 fresh_rocket
    = Ok s
    /\ Rocket.calculate_aero_coef 0.1 (10, 0) 1.225 1.784e-5 0.1 0 0 s
       = Ok (s1, (cn1, cp1, ca1))
    /\ Rocket.calculate_aero_coef 0.2 (10, 0) 1.225 1.784e-5 0.1 0 0 s
       = Ok (s2, (cn2, cp2, ca2))
    /\ cn2 <= cn1 /\ cn1 < 0.
Proof.
  pose proof PI2_1 as Hpi.
  destruct (cone_cylinder_cn_monotone false 1 3 0.1 1.5 fresh_rocket
              0.1 0.2 (10, 0) 1.225 1.784e-5 0.1 0 0)
    as (s & Hs & s1 & cn1 & cp1 & ca1 & s2 & cn2 & cp2 & ca2 & ? & ? & ?
        & ? & ? & ? & ? & E1 & E2 & Hle & Hneg & _);
    try lra; try nra.
  exists s, s1, cn1, cp1, ca1, s2, cn2, cp2, ca2.
  repeat split; assumption.
Defined.

(** C4, as stated: between the angles [PI / 6] and [PI / 2] the
    normal-force coefficient of the example body decreases. *)
Lemma cone_cylinder_cn_counterexample :
  exists s s1 cn1 cp1 ca1 s2 cn2 cp2 ca2,
    Rocket.update_rocket (body_data false example_body) 1.5 fresh_rocket
    = Ok s
    /\ Rocket.calculate_aero_coef (PI / 6) (10, 0) 1.225 1.784e-5 0.1 0 0 s
       = Ok (s1, (cn1, cp1, ca1))
    /\ Rocket.calculate_aero_coef (PI / 2) (10, 0) 1.225 1.784e-5 0.1 0 0 s
       = Ok (s2, (cn2, cp2, ca2))
    /\ 0 <= PI / 6 <= PI / 2
    /\ ~ cn1 <= cn2.
Proof.
  pose proof PI_RGT_0 as Hpi.
  destruct (cone_cylinder_run false 1 3 0.1 1.5 fresh_rocket)
    as (s & Hs & Hq); try lra.
  destruct (Hq (PI / 6) (10, 0) 1.225 1.784e-5 0.1 0 0)
    as (s1 & cp1 & ca1 & E1); try lra; try nra.
  destruct (Hq (PI / 2) (10, 0) 1.225 1.784e-5 0.1 0 0)
    as (s2 & cp2 & ca2 & E2); try lra; try nra.
  do 9 eexists.
  split; [exact Hs|]. split; [exact E1|]. split; [exact E2|].
  split; [lra|].
  unfold cone_cylinder_cn, Rocket.__sign_correction, effective_aoa.
  destruct (Rge_dec (PI / 6) 0); [|exfalso; lra].
  destruct (Rge_dec (PI / 2) 0); [|exfalso; lra].
  destruct (Req_dec_T (PI / 6) 0); [exfalso; lra|].
  destruct (Req_dec_T (PI / 2) 0); [exfalso; lra|].
  rewrite !Rabs_right by lra. rewrite sin_PI6, sin_PI2.
  assert (HK : 0 <= 1.1 * (cone_cylinder_planform false 1 3 0.1
                           / (PI * (0.1 / 2) ^ 2))).
  { apply Rmult_le_pos; [lra|]. apply Rlt_le, Rdiv_lt_0_compat.
    - unfold cone_cylinder_planform. lra.
    - apply Rmult_lt_0_compat; [exact Hpi | nra]. }
  set (K := 1.1 * _) in *. lra.
Qed.

(** C5, amended.  [update_rocket] does not look at the lengths of the
    segments and prints nothing: it returns on every body that is valid
    otherwise.  If the first segment has a length, every query of a run
    returns, and every query prints one line for every segment of length
    zero; without such a segment the run prints nothing. *)
Theorem zero_length_segment_printed_per_query (l : rocket_data) (xcg : R)
    (s0 : Rocket.t) (p0 p1 p : R * R) :
  d_rocket_dim l !! 0%nat = Some p0 ->
  d_rocket_dim l !! 1%nat = Some p1 ->
  last (d_rocket_dim l) = Some p ->
  nondegenerate (d_rocket_dim l) ->
  (d_use_fins l = true -> valid_fins l s0) ->
  fst p0 <= xcg -> 0 < xcg -> xcg < fst p ->
  exists s,
    Rocket.update_rocket l xcg s0 = Ok s
    /\ Rocket.stdout s = Rocket.stdout s0
    /\ (fst p1 - fst p0 <> 0 ->
        forall qs,
          Forall (valid_query (d_use_fins l)) qs ->
          exists s' rs,
            run_queries qs s = Ok (s', rs)
            /\ List.length rs = List.length qs
            /\ Rocket.stdout s'
               = Rocket.stdout s0
                 ++ concat (replicate (List.length qs)
                              (zero_length_report (d_rocket_dim l)))
            /\ (zero_length_count (d_rocket_dim l) = 0%nat ->
                Rocket.stdout s' = Rocket.stdout s0)).
Proof.
  intros H0 H1 Hl Hnd Hfins Hfore Hx Haft.
  destruct (update_rocket_ready l xcg s0 p0 p1 p H0 H1 Hl Hnd Hfins
              Hfore Hx Haft)
    as (s & Hs & Hready & Huse & Hdim & Hout).
  exists s. split; [exact Hs|]. split; [exact Hout|].
  intros Hfirst qs Hqs.
  destruct (run_queries_ready qs s (Hready Hfirst))
    as (s' & rs & Erun & Hlen & Hout').
  { rewrite Huse. exact Hqs. }
  rewrite Hdim, Hout in Hout'.
  exists s', rs.
  split; [exact Erun|]. split; [exact Hlen|]. split; [exact Hout'|].
  intros Hz. rewrite Hout'. unfold zero_length_report. rewrite Hz.
  cbn [replicate]. rewrite concat_replicate_nil. apply app_nil_r.
Qed.

Lemma zero_length_segment_printed_per_query_witness :
  exists s s' rs,
    Rocket.update_rocket (body_data false stepped_body) 1.5 fresh_rocket
    = Ok s
    /\ Rocket.stdout s = []
    /\ run_queries
         [mk_query 0.1 (10, 0) 1.225 1.784e-5 0.1 0 0;
          mk_query 0.2 (10, 0) 1.225 1.784e-5 0.1 0 0] s
       = Ok (s', rs)
    /\ Rocket.stdout s'
       = ["Component length is zero"%string;
          "Component length is zero"%string].
Proof.
  destruct (zero_length_segment_printed_per_query
              (body_data false stepped_body) 1.5 fresh_rocket
              (0, 0) (1, 0.1) (3, 0.2))
    as (s & Hs & Hout & Hrun);
    try reflexivity; try (cbn [fst]; lra); try discriminate.
  { apply nondegenerate_stepped_body. }
  destruct (Hrun ltac:(cbn [fst]; lra)
              [mk_query 0.1 (10, 0) 1.225 1.784e-5 0.1 0 0;
               mk_query 0.2 (10, 0) 1.225 1.784e-5 0.1 0 0])
    as (s' & rs & Erun & _ & Hout' & _).
  { repeat constructor; cbn [q_mu q_mach]; try lra; try nra;
      discriminate. }
  exists s, s', rs.
  split; [exact Hs|]. split; [exact Hout|]. split; [exact Erun|].
  rewrite Hout'. cbn [body_data d_rocket_dim].
  rewrite zero_length_report_stepped_body. reflexivity.
Defined.

(** C5, as stated: the stepped body, whose second segment has the length
    zero, is configured without any report, and the query on it returns,
    after printing the line. *)
Lemma zero_length_segment_counterexample :
  exists s s1 r1,
    zero_length_count stepped_body = 1%nat
    /\ Rocket.update_rocket (body_data false stepped_body) 1.5 fresh_rocket
       = Ok s
    /\ Rocket.stdout s = Rocket.stdout fresh_rocket
    /\ Rocket.calculate_aero_coef 0.1 (10, 0) 1.225 1.784e-5 0.1 0 0 s
       = Ok (s1, r1)
    /\ Rocket.stdout s1
       = Rocket.stdout s ++ ["Component length is zero"%string].
Proof.
  destruct stepped_body_run as (s & s1 & r1 & s2 & r2 & Hs & E1 & E2).
  exists s, s1, r1.
  pose proof (ensures_Ok _ _ _ (update_rocket_ensures _ _ _) Hs)
    as (_ & _ & Hdim & _ & _ & _ & _ & _ & _ & _ & _ & _ & Hout).
  pose proof (ensures_Ok _ _ _ (calculate_aero_coef_ensures _ _ _ _ _ _ _ _)
                E1) as (_ & _ & _ & _ & Hout1 & _).
  cbn [fst body_data d_rocket_dim] in Hout1, Hdim.
  rewrite Hdim, zero_length_report_stepped_body in Hout1.
  pose proof zero_length_report_stepped_body as Hrep.
  unfold zero_length_report in Hrep.
  split.
  { destruct (zero_length_count stepped_body) as [|[|n]];
      [discriminate | reflexivity | discriminate]. }
  repeat split; assumption.
Qed.



(** * Further properties of the methods *)

(** X1.  Whenever [_update_rocket_dim] returns, the rocket has the
    stations and the geometry of their frusta: the cross-section areas at
    the stations, the planform areas, the volumes, the centroids and the
    lateral areas of the components, the largest diameter, the reference
    area of that diameter, and the length and the fineness from the
    position of the last station. *)
Theorem update_rocket_dim_geometry (l : list (R * R)) (self s' : Rocket.t) :
  Rocket._update_rocket_dim l self = Ok s' ->
  Rocket.rocket_dim s' = l
  /\ Rocket.station_cross_area s' = cross_areas l
  /\ Rocket.component_plan_area s' = plan_areas (Rocket.ogive self) l
  /\ Rocket.component_volume s' = map frustum_volume (segments l)
  /\ Rocket.component_centroid s' = centroids (Rocket.ogive self) l
  /\ Rocket.area_wet_component s' = map frustum_wet_area (segments l)
  /\ Rocket.area_wet_body s'
     = fold_left Rplus (map frustum_wet_area (segments l)) 0
  /\ Rocket.max_diam s' = max_diameter l
  /\ Rocket.area_ref s' = PI * (max_diameter l / 2) ^ 2
  /\ exists p,
       last l = Some p
       /\ Rocket.length s' = fst p
       /\ Rocket.fineness s' = fst p / max_diameter l.
Proof.
  intros H. apply update_rocket_dim_inv in H as (p & p1 & Hp & _ & _ & ->).
  destruct self. unfold with_geometry, pre_geometry. rflat.
  repeat match goal with |- _ /\ _ => split end; try reflexivity.
  exists p. repeat split. exact Hp.
Qed.

Lemma update_rocket_dim_geometry_witness :
  exists s',
    Rocket._update_rocket_dim example_body fresh_rocket = Ok s'
    /\ Rocket.station_cross_area s' = cross_areas example_body
    /\ Rocket.area_ref s' = PI * (max_diameter example_body / 2) ^ 2.
Proof.
  exists (with_geometry example_body (3, 0.1) (1, 0.1) fresh_rocket).
  assert (E : Rocket._update_rocket_dim example_body fresh_rocket
              = Ok (with_geometry example_body (3, 0.1) (1, 0.1)
                      fresh_rocket)).
  { apply update_rocket_dim_total;
      [reflexivity | reflexivity | apply nondegenerate_example_body]. }
  split; [exact E|].
  destruct (update_rocket_dim_geometry _ _ _ E)
    as (_ & Hsca & _ & _ & _ & _ & _ & _ & Href & _).
  split; [exact Hsca | exact Href].
Defined.

(** X2.  The total planform area is summed before the planform areas of
    the components are assigned: whenever [_update_rocket_dim] returns,
    [plan_area] is [0]. *)
Theorem update_rocket_dim_plan_area_zero (l : list (R * R))
    (self s' : Rocket.t) :
  Rocket._update_rocket_dim l self = Ok s' ->
  Rocket.plan_area s' = 0.
Proof.
  intros H. apply update_rocket_dim_inv in H as (p & p1 & _ & _ & _ & ->).
  destruct self. unfold with_geometry, pre_geometry. rflat. reflexivity.
Qed.

Lemma update_rocket_dim_plan_area_zero_witness :
  exists s',
    Rocket._update_rocket_dim example_body fresh_rocket = Ok s'
    /\ Rocket.plan_area s' = 0
    /\ Rocket.component_plan_area s' = plan_areas false example_body.
Proof.
  exists (with_geometry example_body (3, 0.1) (1, 0.1) fresh_rocket).
  assert (E : Rocket._update_rocket_dim example_body fresh_rocket
              = Ok (with_geometry example_body (3, 0.1) (1, 0.1)
                      fresh_rocket)).
  { apply update_rocket_dim_total;
      [reflexivity | reflexivity | apply nondegenerate_example_body]. }
  split; [exact E|].
  split; [exact (update_rocket_dim_plan_area_zero _ _ _ E) | reflexivity].
Defined.

(** X3.  [_calculate_wet_area_body] returns on every rocket: the lateral
    area of each component is that of its frustum, and the wet area of the
    body is their sum. *)
Theorem wet_area_body_sum_of_frusta (self : Rocket.t) :
  exists s',
    Rocket._calculate_wet_area_body self = Ok s'
    /\ Rocket.area_wet_component s'
       = map frustum_wet_area (segments (Rocket.rocket_dim self))
    /\ Rocket.area_wet_body s'
       = fold_left Rplus
           (map frustum_wet_area (segments (Rocket.rocket_dim self))) 0
    /\ Rocket.rocket_dim s' = Rocket.rocket_dim self.
Proof.
  eexists. split; [apply calculate_wet_area_body_eq|].
  destruct self. rflat. repeat split; reflexivity.
Qed.

(** X4.  [Fin.update] on a planform of four points: with a span it stores
    the chords, the span, the area of the trapezium and, where the area is
    not zero, the aspect ratio of two fins joined at the root, times
    [0.625] for a fin that is not attached to the body; without a span the
    sweepback angle divides by zero. *)
Theorem Fin_update_planform (l : list (R * R)) (att : bool) (self : Fin.t)
    (p0 p1 p2 p3 : R * R) :
  l !! 0%nat = Some p0 -> l !! 1%nat = Some p1 ->
  l !! 2%nat = Some p2 -> l !! 3%nat = Some p3 ->
  (snd p1 - snd p0 <> 0 ->
   exists f',
     Fin.update l att self = Ok f'
     /\ Fin.dim f' = Some l
     /\ Fin.c_root f' = fst p3 - fst p0
     /\ Fin.c_tip f' = fst p2 - fst p1
     /\ Fin.wingspan f' = snd p1 - snd p0
     /\ Fin.area f'
        = (fst p3 - fst p0 + (fst p2 - fst p1)) * (snd p1 - snd p0) / 2
     /\ (Fin.area f' <> 0 ->
         Fin.aspect_ratio f'
         = 2 * (snd p1 - snd p0) ^ 2 / Fin.area f'
           * (if att then 1 else 0.625)))
  /\ (snd p1 - snd p0 = 0 ->
      Fin.update l att self = Raise ZeroDivisionError).
Proof.
  intros H0 H1 H2 H3. split.
  - intros Hw.
    destruct (Fin_update_total l att self p0 p1 p2 p3 H0 H1 H2 H3 Hw)
      as (f' & E & Hdim & _ & Hcr & Hct & _ & Hws & Harea & _ & _ & _ & HAR).
    exists f'. rewrite Hcr, Hct, Hws in Harea. rewrite Hws in HAR.
    repeat split; assumption.
  - intros Hw. apply (Fin_update_zero_span l att self p0 p1 p2 p3); assumption.
Qed.

Lemma Fin_update_planform_witness :
  exists f',
    Fin.update example_planform false Fin.__init__ = Ok f'
    /\ Fin.wingspan f' = 0.15 - 0.05
    /\ Fin.area f' = (3 - 2.5 + (2.9 - 2.7)) * (0.15 - 0.05) / 2.
Proof.
  destruct (Fin_update_planform example_planform false Fin.__init__
              (2.5, 0.05) (2.7, 0.15) (2.9, 0.15) (3, 0.05)
              eq_refl eq_refl eq_refl eq_refl) as (Hok & _).
  destruct Hok as (f' & E & _ & _ & _ & Hws & Harea & _).
  { cbn [snd]. lra. }
  exists f'. repeat split; assumption.
Defined.

(** X5.  With [use_2pi] the slope that [get_aero_coef] returns is [2 * PI]
    at every angle, the angle [0] included: the quotient [cn / aoa] is
    overwritten. *)
Theorem Airfoil_slope_2pi (a : R) (plate : Airfoil.t) :
  Airfoil.use_2pi plate = true ->
  Airfoil.use_windtunel plate = true
  \/ Airfoil.use_windtunnel_modified plate = true ->
  exists plate' cn ca,
    Airfoil.get_aero_coef a plate = Ok (plate', (cn, ca, 2 * PI)).
Proof.
  intros H2pi Htab.
  destruct (Airfoil_calculate_cn_ca_Ok a plate Htab) as (cl & cd & _ & Hrun).
  destruct (Hrun a eq_refl) as (plate' & E & _ & _ & H2pi').
  unfold Airfoil.get_aero_coef. rewrite E, bind_ret.
  rewrite Airfoil_calculate_cn_alpha_2pi by (rewrite H2pi'; exact H2pi).
  rewrite bind_ret. do 3 eexists. reflexivity.
Qed.

Lemma Airfoil_slope_2pi_witness :
  exists plate' cn ca,
    Airfoil.get_aero_coef 0 (Airfoil.mk true false true 1 0 0 0 0 0 0)
    = Ok (plate', (cn, ca, 2 * PI)).
Proof.
  apply (Airfoil_slope_2pi 0 (Airfoil.mk true false true 1 0 0 0 0 0 0)
           eq_refl (or_intror eq_refl)).
Defined.

(** X6.  The slope of a fin whose airfoil has the flags of the
    constructor, with a positive aspect ratio and a sweepback angle between
    [- PI / 2] and [PI / 2]: below Mach 1 and at an angle other than [0] of
    at most [3 / 2] radians, [calculate_cn_alpha] returns a positive slope,
    and assigns nothing of the planform. *)
Theorem Fin_slope_positive (aoa beta mach : R) (f : Fin.t) :
  fin_ready f ->
  aoa <> 0 -> Rabs aoa <= 3 / 2 ->
  0 < beta -> mach ^ 2 < 1 ->
  exists f' v,
    Fin.calculate_cn_alpha aoa beta mach f = Ok (f', v)
    /\ 0 < v
    /\ Fin.dim f' = Fin.dim f
    /\ Fin.wingspan f' = Fin.wingspan f
    /\ Fin.area f' = Fin.area f
    /\ Fin.aspect_ratio f' = Fin.aspect_ratio f
    /\ Fin.cp f' = Fin.cp f.
Proof.
  intros Hf Ha Hab Hbeta Hmach.
  destruct (Fin_calculate_cn_alpha_total aoa beta mach f Hf Ha Hab Hbeta
              Hmach) as (f' & v & E & Hv & Hframe & _).
  apply fin_frame_fields in Hframe as (H1 & _ & H2 & H3 & H4 & H5 & _).
  exists f', v. repeat split; assumption.
Qed.

Lemma Fin_slope_positive_witness :
  exists f' v,
    Fin.calculate_cn_alpha 0.1 1 0 Fin.__init__ = Ok (f', v) /\ 0 < v.
Proof.
  destruct (Fin_slope_positive 0.1 1 0 Fin.__init__)
    as (f' & v & E & Hv & _).
  - split; [repeat split|].
    cbn [Fin.aspect_ratio Fin.sb_angle Fin.__init__].
    pose proof PI2_1. split; [lra | split; lra].
  - lra.
  - rewrite Rabs_right; lra.
  - lra.
  - lra.
  - exists f', v. split; assumption.
Defined.



(** X8.  Whenever [calculate_aero_coef] returns, it has left the
    configuration of the rocket as it was: the stations, the flags, the
    centre of gravity, the geometry, the critical Reynolds number, the
    motor curve and the pad flag. *)
Theorem query_keeps_configuration (aoa : R) (v_loc_tot : R * R)
    (rho mu mach actuator_angle q : R) (self s' : Rocket.t)
    (r : R * R * R) :
  Rocket.calculate_aero_coef aoa v_loc_tot rho mu mach actuator_angle q self
  = Ok (s', r) ->
  Rocket.rocket_dim s' = Rocket.rocket_dim self
  /\ Rocket.use_fins s' = Rocket.use_fins self
  /\ Rocket.ogive s' = Rocket.ogive self
  /\ Rocket.xcg s' = Rocket.xcg self
  /\ Rocket.station_cross_area s' = Rocket.station_cross_area self
  /\ Rocket.component_plan_area s' = Rocket.component_plan_area self
  /\ Rocket.component_volume s' = Rocket.component_volume self
  /\ Rocket.component_centroid s' = Rocket.component_centroid self
  /\ Rocket.area_ref s' = Rocket.area_ref self
  /\ Rocket.length s' = Rocket.length self
  /\ Rocket.reynolds_crit s' = Rocket.reynolds_crit self
  /\ Rocket.motor s' = Rocket.motor self
  /\ Rocket.is_in_the_pad_flag s' = Rocket.is_in_the_pad_flag self.
Proof.
  intros E.
  pose proof (ensures_Ok _ _ _ (calculate_aero_coef_ensures _ _ _ _ _ _ _ _)
                E) as (_ & _ & _ & _ & _ & Hframe).
  apply aero_frame_fields in Hframe. exact Hframe.
Qed.

Lemma query_keeps_configuration_witness :
  exists s s' r,
    Rocket.update_rocket (body_data false example_body) 1.5 fresh_rocket
    = Ok s
    /\ Rocket.calculate_aero_coef 0.1 (10, 0) 1.225 1.784e-5 0.1 0 0 s
       = Ok (s', r)
    /\ Rocket.rocket_dim s' = Rocket.rocket_dim s
    /\ Rocket.motor s' = Rocket.motor s.
Proof.
  destruct (cone_cylinder_run false 1 3 0.1 1.5 fresh_rocket)
    as (s & Hs & Hq); try lra.
  destruct (Hq 0.1 (10, 0) 1.225 1.784e-5 0.1 0 0) as (s' & cp & ca & E);
    try lra; try nra.
  do 3 eexists. split; [exact Hs|]. split; [exact E|].
  destruct (query_keeps_configuration _ _ _ _ _ _ _ _ _ _ E)
    as (Hdim & _ & _ & _ & _ & _ & _ & _ & _ & _ & _ & Hmotor & _).
  split; [exact Hdim | exact Hmotor].
Defined.

(** X9.  Whenever [update_rocket] returns, the rocket has the flags, the
    stations and the centre of gravity of the call, the reference area of
    the largest diameter and the roughness [60e-6]; the pad flag is set
    again, and nothing was printed. *)
Theorem update_rocket_stores_configuration (l : rocket_data) (xcg : R)
    (self s' : Rocket.t) :
  Rocket.update_rocket l xcg self = Ok s' ->
  Rocket.use_fins s' = d_use_fins l
  /\ Rocket.ogive s' = d_ogive l
  /\ Rocket.rocket_dim s' = d_rocket_dim l
  /\ Rocket.xcg s' = xcg
  /\ Rocket.area_ref s' = PI * (max_diameter (d_rocket_dim l) / 2) ^ 2
  /\ Rocket.relative_rough s' = 60e-6
  /\ Rocket.is_in_the_pad_flag s' = true
  /\ Rocket.stdout s' = Rocket.stdout self.
Proof.
  intros E.
  pose proof (ensures_Ok _ _ _ (update_rocket_ensures _ _ _) E)
    as (H1 & H2 & H3 & H4 & _ & _ & _ & _ & _ & H5 & H6 & H7 & H8).
  repeat split; assumption.
Qed.

Lemma update_rocket_stores_configuration_witness :
  exists s,
    Rocket.update_rocket (body_data false example_body) 1.5 fresh_rocket
    = Ok s
    /\ Rocket.xcg s = 1.5
    /\ Rocket.is_in_the_pad_flag s = true
    /\ Rocket.stdout s = [].
Proof.
  destruct (cone_cylinder_run false 1 3 0.1 1.5 fresh_rocket)
    as (s & Hs & _); try lra.
  exists s. split; [exact Hs|].
  destruct (update_rocket_stores_configuration _ _ _ _ Hs)
    as (_ & _ & _ & Hx & _ & _ & Hpad & Hout).
  split; [exact Hx|]. split; [exact Hpad | exact Hout].
Defined.

(** X10.  Without fins the normal-force coefficient of a cone-cylinder is
    an odd function of the angle of attack: the query at [- a] returns the
    opposite of the coefficient at [a]. *)
Theorem cone_cylinder_cn_antisymmetric (ogive : bool) (x1 x2 d xcg : R)
    (s0 : Rocket.t) (a : R) (v_loc_tot : R * R)
    (rho mu mach actuator_angle q : R) :
  0 < x1 < x2 -> 0 < d -> 0 < xcg < x2 ->
  mu <> 0 -> mach ^ 2 <= 1 ->
  0 < a ->
  exists s s1 cn1 cp1 ca1 s2 cn2 cp2 ca2,
    Rocket.update_rocket (body_data ogive (cone_cylinder x1 x2 d)) xcg s0
    = Ok s
    /\ Rocket.calculate_aero_coef a v_loc_tot rho mu mach actuator_angle q s
       = Ok (s1, (cn1, cp1, ca1))
    /\ Rocket.calculate_aero_coef (- a) v_loc_tot rho mu mach actuator_angle
         q s = Ok (s2, (cn2, cp2, ca2))
    /\ cn2 = - cn1.
Proof.
  intros Hx Hd Hxcg Hmu Hmach Ha.
  destruct (cone_cylinder_run ogive x1 x2 d xcg s0 Hx Hd Hxcg)
    as (s & Hs & Hq).
  destruct (Hq a v_loc_tot rho mu mach actuator_angle q Hmu Hmach)
    as (s1 & cp1 & ca1 & E1).
  destruct (Hq (- a) v_loc_tot rho mu mach actuator_angle q Hmu Hmach)
    as (s2 & cp2 & ca2 & E2).
  do 9 eexists.
  split; [exact Hs|]. split; [exact E1|]. split; [exact E2|].
  unfold cone_cylinder_cn, Rocket.__sign_correction, effective_aoa.
  destruct (Rge_dec a 0); [|exfalso; lra].
  destruct (Rge_dec (- a) 0); [exfalso; lra|].
  destruct (Req_dec_T a 0); [exfalso; lra|].
  destruct (Req_dec_T (- a) 0); [exfalso; lra|].
  rewrite Rabs_Ropp. ring.
Qed.

Lemma cone_cylinder_cn_antisymmetric_witness :
  exists s s1 cn1 cp1 ca1 s2 cn2 cp2 ca2,
    Rocket.update_rocket (body_data false example_body) 1.5 fresh_rocket
    = Ok s
    /\ Rocket.calculate_aero_coef 0.1 (10, 0) 1.225 1.784e-5 0.1 0 0 s
       = Ok (s1, (cn1, cp1, ca1))
    /\ Rocket.calculate_aero_coef (- (0.1)) (10, 0) 1.225 1.784e-5 0.1 0 0 s
       = Ok (s2, (cn2, cp2, ca2))
    /\ cn2 = - cn1.
Proof.
  apply (cone_cylinder_cn_antisymmetric false 1 3 0.1 1.5 fresh_rocket 0.1
           (10, 0) 1.225 1.784e-5 0.1 0 0); try lra; nra.
Defined.

(** X11.  Below a Reynolds number of [10e4] the friction coefficient is
    the constant [1.48e-2], with the correction for compressibility. *)
Theorem calculate_cf_laminar (self : Rocket.t) :
  Rocket.reynolds self < 10e4 ->
  Rocket._calculate_cf self
  = Ok (Rocket.set_Cf (1.48e-2 * (1 - 0.1 * Rocket.mach self ^ 2)) self).
Proof.
  destruct self. rflat. intros Hre. unfold Rocket._calculate_cf. rflat.
  destruct (Rlt_dec reynolds 10e4) as [_|Hn]; [|contradiction].
  rstep. reflexivity.
Qed.

Lemma calculate_cf_laminar_witness :
  Rocket._calculate_cf fresh_rocket
  = Ok (Rocket.set_Cf (1.48e-2 * (1 - 0.1 * Rocket.mach fresh_rocket ^ 2))
          fresh_rocket).
Proof.
  apply (calculate_cf_laminar fresh_rocket).
  cbn [Rocket.reynolds fresh_rocket Rocket.__init__]. lra.
Defined.

(** X12.  [_calculate_reynolds_crit] on a rocket of positive length sets
    the roughness [60e-6] and the critical Reynolds number
    [51 * (60e-6 / length) ** -1.039], a float. *)
Theorem calculate_reynolds_crit_value (self : Rocket.t) :
  0 < Rocket.length self ->
  Rocket._calculate_reynolds_crit self
  = Ok (Rocket.set_reynolds_crit
          (PyFloat (51 * Rpower (60e-6 / Rocket.length self) (-1.039)))
          (Rocket.set_relative_rough 60e-6 self)).
Proof.
  destruct self. rflat. intros Hlen.
  unfold Rocket._calculate_reynolds_crit. rflat.
  rewrite py_div_Ok by lra. rstep. unfold py_pow.
  destruct (Rlt_dec 0 (60e-6 / length)) as [_|Hn].
  - rstep. reflexivity.
  - exfalso. apply Hn. apply Rdiv_lt_0_compat; lra.
Qed.

Lemma calculate_reynolds_crit_value_witness :
  Rocket._calculate_reynolds_crit (Rocket.set_length 3 fresh_rocket)
  = Ok (Rocket.set_reynolds_crit
          (PyFloat (51 * Rpower (60e-6 / 3) (-1.039)))
          (Rocket.set_relative_rough 60e-6
             (Rocket.set_length 3 fresh_rocket))).
Proof.
  apply (calculate_reynolds_crit_value (Rocket.set_length 3 fresh_rocket)).
  cbn. lra.
Defined.

(** X13.  A body whose first segment has the length zero is accepted by
    [update_rocket], without a word; every query on it then ends in
    [_calculate_pressure_drag], which catches the division by the length
    and then reads the angle [phi] that no iteration has assigned. *)
Theorem zero_length_first_segment_query_raises (l : rocket_data) (xcg : R)
    (s0 : Rocket.t) (p0 p1 p : R * R) (aoa : R) (v_loc_tot : R * R)
    (rho mu mach actuator_angle q : R) :
  d_rocket_dim l !! 0%nat = Some p0 ->
  d_rocket_dim l !! 1%nat = Some p1 ->
  last (d_rocket_dim l) = Some p ->
  fst p1 - fst p0 = 0 ->
  nondegenerate (d_rocket_dim l) ->
  d_use_fins l = false ->
  fst p0 <= xcg -> 0 < xcg -> xcg < fst p ->
  mu <> 0 -> mach ^ 2 <= 1 ->
  exists s,
    Rocket.update_rocket l xcg s0 = Ok s
    /\ Rocket.stdout s = Rocket.stdout s0
    /\ Rocket.calculate_aero_coef aoa v_loc_tot rho mu mach actuator_angle q
         s = Raise UnboundLocalError.
Proof.
  intros H0 H1 Hl Hz Hnd Hfins Hfore Hx Haft Hmu Hmach.
  destruct (update_rocket_total l xcg s0 p0 p1 p)
    as (s & Hs & Hconf & Huse & _ & Hdim & _ & _ & _ & _ & _ & Hout);
    try assumption; try (rewrite Hfins; discriminate).
  exists s. split; [exact Hs|]. split; [exact Hout|].
  rewrite <- Hdim in H0, H1. rewrite Hfins in Huse.
  clear Hs Hout Hdim Hl Hnd Hfins Hfore Hx Haft.
  pose proof (length_body_cn_list (effective_aoa aoa) s Hconf) as Hlen.
  revert Hconf Huse H0 H1 Hlen.
  unfold configured, body_cn_list. destruct s. rflat.
  intros Hconf -> Hp0 Hp1 Hlen.
  unfold Rocket.calculate_aero_coef.
  rewrite np_sqrt_Ok by (apply Rplus_le_le_0_compat; apply pow2_ge_0).
  rewrite (np_sqrt_Ok (1 - mach ^ 2)) by lra.
  destruct (Rlt_dec mach 0.001) as [Hm|Hm]; rstep.
  all: rewrite calculate_total_cn_nofins
         by (unfold configured; rflat; first [exact Hconf | reflexivity]).
  all: unfold body_cn_alpha_list, body_cn_list; rstep.
  all: match goal with
       | |- context [Rocket._calculate_cp_position ?s] =>
           let s2 := fresh "s" in
           let E := fresh "E" in
           let v := fresh "v" in
           destruct (calculate_cp_position_total s) as (s2 & E);
           [ unfold configured; rflat;
             rewrite ?length_map, ?Hlen; tauto
           | rewrite E;
             pose proof (ensures_Ok _ _ _ (calculate_cp_position_ensures _) E)
               as (v & -> & _); clear E; rstep ]
       end.
  all: unfold Rocket._calculate_total_ca, Rocket._calculate_reynolds; rflat.
  all: rewrite np_div_Ok by exact Hmu; rstep.
  all: match goal with
       | |- context [Rocket._calculate_cf ?s] =>
           let cf := fresh "cf" in
           destruct (calculate_cf_total s) as (cf & ->);
           [rflat; tauto ..|]
       end.
  all: rstep.
  all: match goal with
       | |- context [Rocket._calculate_pressure_drag ?s] =>
           rewrite (calculate_pressure_drag_first_zero s p0 p1)
             by (rflat; assumption)
       end.
  all: reflexivity.
Qed.

Lemma zero_length_first_segment_query_raises_witness :
  exists s,
    Rocket.update_rocket
      (body_data false [(0, 0.1); (0, 0.2); (3, 0.2)]) 1.5 fresh_rocket
    = Ok s
    /\ Rocket.stdout s = []
    /\ Rocket.calculate_aero_coef 0.1 (10, 0) 1.225 1.784e-5 0.1 0 0 s
       = Raise UnboundLocalError.
Proof.
  apply (zero_length_first_segment_query_raises
           (body_data false [(0, 0.1); (0, 0.2); (3, 0.2)]) 1.5 fresh_rocket
           (0, 0.1) (0, 0.2) (3, 0.2) 0.1 (10, 0) 1.225 1.784e-5 0.1 0 0);
    try reflexivity; try (cbn [fst]; lra); try nra.
  split.
  - unfold max_diameter. cbn [body_data d_rocket_dim fold_left snd].
    repeat match goal with
           | |- context [Rgt_dec ?a ?b] => destruct (Rgt_dec a b)
           end; lra.
  - unfold segments. cbn [body_data d_rocket_dim zip_with tail].
    repeat constructor; unfold seg_r1, seg_r2; cbn [fst snd]; lra.
Defined.

(** X14.  Without fins the axial coefficient is the drag coefficient at
    zero angle of attack, scaled by the table of [__init__]: at the angle
    [0] it is [cd0] itself, and at [PI / 2], broadside, it is [0]. *)
Theorem calculate_ca_head_on_and_broadside (self : Rocket.t) :
  Rocket.use_fins self = false ->
  Rocket._calculate_ca 0 self = Ok (Rocket.set_ca (Rocket.cd0 self) self)
  /\ Rocket._calculate_ca (PI / 2) self = Ok (Rocket.set_ca 0 self).
Proof.
  destruct self. rflat. intros ->.
  pose proof PI_RGT_0 as Hpi.
  unfold Rocket._calculate_ca, np_interp, Rocket.aoa_list_ca,
    Rocket.ca_scale, DEG2RAD.
  cbn [List.length Nat.eqb interp_scan].
  split.
  - repeat match goal with
           | |- context [Rlt_dec ?a ?b] =>
               destruct (Rlt_dec a b); try (exfalso; lra)
           end.
    rstep. do 2 f_equal.
    replace (0 - 0) with 0 by lra. rewrite Rmult_0_r. lra.
  - repeat match goal with
           | |- context [Rlt_dec ?a ?b] =>
               destruct (Rlt_dec a b); try (exfalso; lra)
           end.
    rstep. do 2 f_equal.
    replace (PI / 2 - 90 * (PI / 180)) with 0 by lra.
    rewrite Rmult_0_r. lra.
Qed.

Lemma calculate_ca_head_on_and_broadside_witness :
  Rocket._calculate_ca 0 (Rocket.set_cd0 0.5 fresh_rocket)
  = Ok (Rocket.set_ca 0.5 (Rocket.set_cd0 0.5 fresh_rocket)).
Proof.
  apply (calculate_ca_head_on_and_broadside
           (Rocket.set_cd0 0.5 fresh_rocket)).
  reflexivity.
Defined.
